(** * Lunagis lazy dataset layer: the slice cache, the quantization rules,
      bit packing and the pixel time series of [services/LazyDataset.ts]

    The development embeds the TypeScript module shallowly.  JavaScript
    numbers are IEEE binary64 values ([spec_float]); typed arrays are lists
    of elements tagged with their element type; a thrown value is an element
    of a type [E] that holds a [TypeError] and a [RangeError]; the process-wide
    [globalSliceCache] is threaded explicitly through every operation, and
    each reading of [Date.now()] is an explicit argument.  A JavaScript [Map]
    iterates in insertion order, and [evictLRU] depends on that order, so the
    cache is an association list rather than an extensional finite map. *)

From Stdlib Require Import ZArith List String Ascii Bool Lia Permutation.
From Stdlib Require Import Floats.SpecFloat.
From stdpp Require Import base list strings pretty.

Open Scope Z_scope.

(* ===================================================================== *)
(** * JavaScript numbers and typed arrays *)
(* ===================================================================== *)

Module JS.

(** A JavaScript [number]: an IEEE 754 binary64 value. *)
Definition number : Type := spec_float.

(** The double that holds the integer [z] (exact below [2^53]). *)
Definition number_of_Z (z : Z) : number := binary_normalize 53 1024 z 0 false.

(** [Math.fround]: round a double to the nearest binary32 value, ties to
    even.  This is the conversion a [Float32Array] applies on store. *)
Definition fround (x : number) : spec_float :=
  match x with
  | S754_finite s m e => binary_normalize 24 128 (cond_Zopp s (Zpos m)) e s
  | _ => x
  end.

(** Reading a binary32 element back yields the same value as a double. *)
Definition number_of_float32 (x : spec_float) : number :=
  match x with
  | S754_finite s m e => binary_normalize 53 1024 (cond_Zopp s (Zpos m)) e s
  | _ => x
  end.

(** Integer part of a number, rounding towards zero; [NaN] and the
    infinities become [0], as in ECMAScript's [ToIntegerOrInfinity] followed
    by the modular reduction of the integer typed arrays. *)
Definition trunc (x : number) : Z :=
  match x with
  | S754_finite s m e =>
      cond_Zopp s (if 0 <=? e then Zpos m * 2 ^ e else Zpos m / 2 ^ (- e))
  | _ => 0
  end.

Definition ToUint8 (x : number) : Z := trunc x mod 256.
Definition ToInt16 (x : number) : Z := (trunc x + 32768) mod 65536 - 32768.

(** JavaScript truthiness of a number: [0], [-0] and [NaN] are falsy. *)
Definition truthy (x : number) : bool :=
  match x with
  | S754_zero _ | S754_nan => false
  | _ => true
  end.

(** The typed arrays whose elements are numbers.  Integer arrays carry
    their elements as [Z], floating arrays as IEEE values; [well_formed]
    below says which elements an array of each type can hold.  The typed
    arrays of 64-bit integers hold BigInt values and come with [RawData]. *)
Inductive TypedArray : Type :=
| Int8Array (elems : list Z)
| Uint8Array (elems : list Z)
| Int16Array (elems : list Z)
| Uint16Array (elems : list Z)
| Int32Array (elems : list Z)
| Uint32Array (elems : list Z)
| Float32Array (elems : list spec_float)
| Float64Array (elems : list spec_float).

Definition BYTES_PER_ELEMENT (a : TypedArray) : Z :=
  match a with
  | Int8Array _ | Uint8Array _ => 1
  | Int16Array _ | Uint16Array _ => 2
  | Int32Array _ | Uint32Array _ | Float32Array _ => 4
  | Float64Array _ => 8
  end.

(** [Array.from(a)]: the elements as numbers. *)
Definition Array_from (a : TypedArray) : list number :=
  match a with
  | Int8Array l | Uint8Array l | Int16Array l
  | Uint16Array l | Int32Array l | Uint32Array l => map number_of_Z l
  | Float32Array l => map number_of_float32 l
  | Float64Array l => l
  end.

(** [a.length] *)
Definition length (a : TypedArray) : Z :=
  match a with
  | Int8Array l | Uint8Array l | Int16Array l
  | Uint16Array l | Int32Array l | Uint32Array l => Z.of_nat (List.length l)
  | Float32Array l | Float64Array l => Z.of_nat (List.length l)
  end.

(** [a.byteLength] *)
Definition byteLength (a : TypedArray) : Z := length a * BYTES_PER_ELEMENT a.

(** [a[i]]: [None] stands for [undefined], the value of an index outside
    the array. *)
Definition at_index (a : TypedArray) (i : Z) : option number :=
  if i <? 0 then None else nth_error (Array_from a) (Z.to_nat i).

(** The test [if (a[i])].  An integer element is truthy when it is not
    [0]; a floating element when it is neither a zero nor [NaN];
    [undefined] is falsy. *)
Definition truthy_at (a : TypedArray) (i : Z) : bool :=
  if i <? 0 then false
  else
    match a with
    | Int8Array l | Uint8Array l | Int16Array l
    | Uint16Array l | Int32Array l | Uint32Array l =>
        match nth_error l (Z.to_nat i) with
        | Some z => negb (z =? 0)
        | None => false
        end
    | Float32Array l | Float64Array l =>
        match nth_error l (Z.to_nat i) with
        | Some x => truthy x
        | None => false
        end
    end.

(** [new Uint8Array(src)], [new Int16Array(src)], [new Float32Array(src)]:
    a fresh array of the same length, each element converted. *)
Definition new_Uint8Array (src : TypedArray) : TypedArray :=
  Uint8Array (map ToUint8 (Array_from src)).
Definition new_Int16Array (src : TypedArray) : TypedArray :=
  Int16Array (map ToInt16 (Array_from src)).
Definition new_Float32Array (src : TypedArray) : TypedArray :=
  Float32Array (map fround (Array_from src)).

(** [for (let i = start; i < stop; i += step)] with [0 < step] and a body
    that assigns neither [i] nor [stop]: the values [i] takes, in order. *)
Definition for_range (start stop step : Z) : list Z :=
  map (fun k => start + step * Z.of_nat k)
      (seq 0 (Z.to_nat ((stop - start + step - 1) / step))).

(** The elements a typed array can hold: integers within the range of the
    element type, binary32 values in a [Float32Array], binary64 values in a
    [Float64Array]. *)
Definition within (lo hi : Z) (z : Z) : bool := (lo <=? z) && (z <? hi).

Definition well_formed (a : TypedArray) : bool :=
  match a with
  | Int8Array l => forallb (within (-128) 128) l
  | Uint8Array l => forallb (within 0 256) l
  | Int16Array l => forallb (within (-32768) 32768) l
  | Uint16Array l => forallb (within 0 65536) l
  | Int32Array l => forallb (within (-2147483648) 2147483648) l
  | Uint32Array l => forallb (within 0 4294967296) l
  | Float32Array l => forallb (valid_binary 24 128) l
  | Float64Array l => forallb (valid_binary 53 1024) l
  end.

(** An element of a typed array of 64-bit integers is a BigInt value, not
    a number. *)
Inductive value : Type :=
| Number (x : number)
| BigInt (z : Z).

(** What the hyperslab read of [h5wasm] hands out for a numeric variable:
    a typed array of numbers or, for a variable of 64-bit integers, a
    [BigInt64Array] or a [BigUint64Array]. *)
Inductive RawData : Type :=
| Numbers (a : TypedArray)
| BigInt64Array (elems : list Z)
| BigUint64Array (elems : list Z).

(** [rawData.length], [Array.from(rawData)] and [rawData[i]] on what the
    reader handed out. *)
Module Raw.

Definition length (rawData : RawData) : Z :=
  match rawData with
  | Numbers a => length a
  | BigInt64Array l | BigUint64Array l => Z.of_nat (List.length l)
  end.

Definition Array_from (rawData : RawData) : list value :=
  match rawData with
  | Numbers a => map Number (Array_from a)
  | BigInt64Array l | BigUint64Array l => map BigInt l
  end.

Definition at_index (rawData : RawData) (i : Z) : option value :=
  if i <? 0 then None else nth_error (Array_from rawData) (Z.to_nat i).

(** Whether the elements are BigInt values. *)
Definition holds_BigInt (rawData : RawData) : bool :=
  match rawData with
  | Numbers _ => false
  | BigInt64Array _ | BigUint64Array _ => true
  end.

End Raw.

(** The values that can be thrown: the errors of the readers and, among
    them, the [TypeError] and the [RangeError] of the built-in
    constructors. *)
Class Errors (E : Type) : Type := {
  TypeError : E;
  RangeError : E
}.

End JS.

(** [SliceData = Float32Array | Uint8Array | Int16Array | Uint32Array] *)
Definition SliceData : Type := JS.TypedArray.

(** An operation either throws or returns. *)
Inductive Result (E A : Type) : Type :=
| Throw (e : E)
| Return (a : A).
Arguments Throw {E A} e.
Arguments Return {E A} a.

(** The thrown values of the sample readers used to run the statements. *)
#[global] Instance unit_Errors : JS.Errors unit :=
  {| JS.TypeError := tt; JS.RangeError := tt |}.
#[global] Instance string_Errors : JS.Errors string :=
  {| JS.TypeError := "TypeError"%string; JS.RangeError := "RangeError"%string |}.

(** [new Uint8Array(rawData)], [new Int16Array(rawData)] and
    [new Float32Array(rawData)] on what the reader handed out: an array of
    BigInt values cannot be converted to numbers, and the constructor throws
    a [TypeError]. *)
Definition new_from {E : Type} {errors : JS.Errors E}
    (new : JS.TypedArray -> JS.TypedArray) (rawData : JS.RawData)
  : Result E JS.TypedArray :=
  match rawData with
  | JS.Numbers a => Return (new a)
  | JS.BigInt64Array _ | JS.BigUint64Array _ => Throw JS.TypeError
  end.

(* ===================================================================== *)
(** * [Map<string, V>]: keys in insertion order *)
(* ===================================================================== *)

Module JSMap.
Section Ops.
Context {V : Type}.

Definition t : Type := list (string * V).

(** [m.get(key)] *)
Fixpoint get (key : string) (m : list (string * V)) : option V :=
  match m with
  | [] => None
  | (k, v) :: m' => if String.eqb k key then Some v else get key m'
  end.

(** [m.set(key, v)]: an existing key keeps its position, a new key goes
    to the end. *)
Fixpoint set (key : string) (v : V) (m : list (string * V)) : list (string * V) :=
  match m with
  | [] => [(key, v)]
  | (k, v') :: m' =>
      if String.eqb k key then (k, v) :: m' else (k, v') :: set key v m'
  end.

(** [m.delete(key)] *)
Definition delete (key : string) (m : list (string * V)) : list (string * V) :=
  List.filter (fun kv => negb (String.eqb (fst kv) key)) m.

(** [m.size] *)
Definition size (m : list (string * V)) : Z := Z.of_nat (List.length m).

Definition keys (m : list (string * V)) : list string := map fst m.
End Ops.
End JSMap.

(* ===================================================================== *)
(** * [class SliceCache] *)
(* ===================================================================== *)

Module SliceCache.

(** Sizes in megabytes.  The code computes [byteLength / (1024 * 1024)] in
    binary64; the division is by a power of two, so every size is a multiple
    of [2^-20] and sums and differences of such values are exact as long as
    they stay below [2^33] MB.  A size is kept here as that multiple, that
    is, as the number of bytes. *)
Definition MB : Z := 1024 * 1024.

Definition SLICE_CACHE_SIZE_MB : Z := 256.

Record Entry : Type := mkEntry { data : SliceData; lastAccess : Z }.

Record t : Type := mk {
  cache : list (string * Entry);
  currentSizeMB : Z   (* the code's value times 2^20: a number of bytes *)
}.

(** [new SliceCache()] *)
Definition empty : t := {| cache := []; currentSizeMB := 0 |}.

(** [`${fileId}:${timeIndex}`], for an integer [timeIndex] *)
Definition getKey (fileId : string) (timeIndex : Z) : string :=
  (fileId ++ ":" ++ pretty timeIndex)%string.

(** [data.byteLength / (1024 * 1024)], times 2^20 *)
Definition sizeMB_of (d : SliceData) : Z := JS.byteLength d.

Definition touch (now : Z) (e : Entry) : Entry :=
  {| data := data e; lastAccess := now |}.

(** [get(fileId, timeIndex)]; [now] is the value of [Date.now()].  The
    entry object is mutated in place, so it keeps its position. *)
Definition get (fileId : string) (timeIndex : Z) (now : Z) (c : t)
  : option SliceData * t :=
  let key := getKey fileId timeIndex in
  match JSMap.get key (cache c) with
  | Some entry =>
      (Some (data entry),
       {| cache := JSMap.set key (touch now entry) (cache c);
          currentSizeMB := currentSizeMB c |})
  | None => (None, c)
  end.

(** The loop of [evictLRU]: [oldestTime = None] is [Infinity]. *)
Definition oldest_step (acc : option string * option Z) (kv : string * Entry)
  : option string * option Z :=
  let '(oldestKey, oldestTime) := acc in
  let '(key, entry) := kv in
  match oldestTime with
  | None => (Some key, Some (lastAccess entry))
  | Some time =>
      if lastAccess entry <? time then (Some key, Some (lastAccess entry))
      else (oldestKey, oldestTime)
  end.

Definition oldest (m : list (string * Entry)) : option string :=
  fst (fold_left oldest_step m (None, None)).

(** [if (oldestKey)]: [null] and the empty string are falsy. *)
Definition key_truthy (k : option string) : bool :=
  match k with
  | Some EmptyString | None => false
  | Some _ => true
  end.

Definition evictLRU (c : t) : t :=
  let oldestKey := oldest (cache c) in
  if key_truthy oldestKey then
    match oldestKey with
    | Some k =>
        match JSMap.get k (cache c) with
        | Some entry =>
            {| cache := JSMap.delete k (cache c);
               currentSizeMB := currentSizeMB c - sizeMB_of (data entry) |}
        | None => c
        end
    | None => c
    end
  else c.

(** [this.currentSizeMB + sizeMB > SLICE_CACHE_SIZE_MB && this.cache.size > 0] *)
Definition must_evict (sizeMB : Z) (c : t) : bool :=
  (SLICE_CACHE_SIZE_MB * MB <? currentSizeMB c + sizeMB)
  && (0 <? JSMap.size (cache c)).

(** [while (...) this.evictLRU()], at most [fuel] rounds. *)
Fixpoint evict_loop (fuel : nat) (sizeMB : Z) (c : t) : t :=
  match fuel with
  | O => c
  | S fuel' =>
      if must_evict sizeMB c then evict_loop fuel' sizeMB (evictLRU c) else c
  end.

(** [set(fileId, timeIndex, data)]; [now] is the value of [Date.now()].
    On every cache the class can reach a round of the loop deletes one entry,
    so the loop is over within [cache.size] rounds, left because its
    condition fails (lemmas [evict_loop_exits] and [set_loop_terminates]). *)
Definition set (fileId : string) (timeIndex : Z) (d : SliceData) (now : Z) (c : t) : t :=
  let key := getKey fileId timeIndex in
  let sizeMB := sizeMB_of d in
  let c1 := evict_loop (List.length (cache c)) sizeMB c in
  {| cache := JSMap.set key {| data := d; lastAccess := now |} (cache c1);
     currentSizeMB := currentSizeMB c1 + sizeMB |}.

(** [key.startsWith(`${fileId}:`)] *)
Definition key_of_file (fileId key : string) : bool :=
  String.prefix (fileId ++ ":")%string key.

(** [clearForFile(fileId)].  Deleting the entry being visited does not
    disturb the iteration of a [Map]. *)
Definition clear_step (fileId : string) (c : t) (kv : string * Entry) : t :=
  let '(key, entry) := kv in
  if key_of_file fileId key then
    {| cache := JSMap.delete key (cache c);
       currentSizeMB := currentSizeMB c - sizeMB_of (data entry) |}
  else c.

Definition clearForFile (fileId : string) (c : t) : t :=
  fold_left (clear_step fileId) (cache c) c.

(** [getStatsForFile(fileId)]: [(cacheSize, totalSizeMB)] *)
Definition getStatsForFile (fileId : string) (c : t) : Z * Z :=
  fold_left
    (fun '(count, sizeMB) '(key, entry) =>
       if key_of_file fileId key
       then (count + 1, sizeMB + sizeMB_of (data entry))
       else (count, sizeMB))
    (cache c) (0, 0).

(** Observations used in the statements; none of them is an operation of
    the class. *)

(** The entry stored under [(fileId, timeIndex)], read without touching
    its timestamp. *)
Definition peek (fileId : string) (timeIndex : Z) (c : t) : option Entry :=
  JSMap.get (getKey fileId timeIndex) (cache c).

(** The sum of the sizes of the entries actually stored, in bytes (the
    unit of [currentSizeMB] here). *)
Definition storedBytes (m : list (string * Entry)) : Z :=
  fold_right (fun kv acc => sizeMB_of (data (snd kv)) + acc) 0 m.

(** [clearForFile]'s test, on an entry. *)
Definition of_file (fileId : string) (kv : string * Entry) : bool :=
  key_of_file fileId (fst kv).

(** Well-formed caches.  Every cache the class can reach has distinct,
    non-empty keys (a [Map] holds each key once, and [getKey] never yields the
    empty string), and its running total is at least the size it really
    stores. *)
Record wf (c : t) : Prop := mk_wf {
  wf_nodup : NoDup (JSMap.keys (cache c));
  wf_keys : forall k, In k (JSMap.keys (cache c)) -> k <> ""%string;
  wf_size : storedBytes (cache c) <= currentSizeMB c
}.

End SliceCache.

(* ===================================================================== *)
(** * [packBinaryData] *)
(* ===================================================================== *)

(** [i >>> 3]: the operand is first reduced to an unsigned 32-bit integer. *)
Definition ushr3 (i : Z) : Z := Z.shiftr (i mod 2 ^ 32) 3.

(** [packed[idx] = v] on a [Uint8Array]: the value is stored modulo 256 and
    a store outside the array is ignored. *)
Definition store_u8 (packed : list Z) (idx : Z) (v : Z) : list Z :=
  if idx <? 0 then packed else <[Z.to_nat idx := v mod 256]> packed.

(** [packed[idx]] read as an operand of [|]: [undefined] counts as [0]. *)
Definition load_u8 (packed : list Z) (idx : Z) : Z :=
  if idx <? 0 then 0 else nth (Z.to_nat idx) packed 0.

(** One round of the main loop: the byte built from [data[i .. i+7]]. *)
Definition pack_byte (data : JS.TypedArray) (i : Z) : Z :=
  let byte := 0 in
  let byte := if JS.truthy_at data i then Z.lor byte 1 else byte in
  let byte := if JS.truthy_at data (i + 1) then Z.lor byte 2 else byte in
  let byte := if JS.truthy_at data (i + 2) then Z.lor byte 4 else byte in
  let byte := if JS.truthy_at data (i + 3) then Z.lor byte 8 else byte in
  let byte := if JS.truthy_at data (i + 4) then Z.lor byte 16 else byte in
  let byte := if JS.truthy_at data (i + 5) then Z.lor byte 32 else byte in
  let byte := if JS.truthy_at data (i + 6) then Z.lor byte 64 else byte in
  let byte := if JS.truthy_at data (i + 7) then Z.lor byte 128 else byte in
  byte.

Definition main_loop_body (data : JS.TypedArray) (packed : list Z) (i : Z) : list Z :=
  store_u8 packed (ushr3 i) (pack_byte data i).

Definition tail_loop_body (data : JS.TypedArray) (packed : list Z) (i : Z) : list Z :=
  if JS.truthy_at data i then
    let byteIndex := ushr3 i in
    let bitIndex := Z.land i 7 in
    store_u8 packed byteIndex (Z.lor (load_u8 packed byteIndex) (Z.shiftl 1 bitIndex))
  else packed.

(** The bytes of the [Uint8Array] that [packBinaryData(data)] returns. *)
Definition packBinaryData_bytes (data : JS.TypedArray) : list Z :=
  let length := JS.length data in
  let packedLength := (length + 7) / 8 in          (* Math.ceil(length / 8) *)
  let packed := repeat 0 (Z.to_nat packedLength) in
  let mainLoopLimit := length - length mod 8 in
  let packed := fold_left (main_loop_body data) (JS.for_range 0 mainLoopLimit 8) packed in
  let packed := fold_left (tail_loop_body data) (JS.for_range mainLoopLimit length 1) packed in
  packed.

Definition packBinaryData (data : JS.TypedArray) : JS.TypedArray :=
  JS.Uint8Array (packBinaryData_bytes data).

(* ===================================================================== *)
(** * The quantization rules of [NetCDFLazyDataset.getSlice] *)
(* ===================================================================== *)

(** [resultData] after the four rules, or the error a rule throws. *)
Definition quantize {E : Type} {errors : JS.Errors E} (dataVarName : string)
    (rawData : JS.RawData) : Result E SliceData :=
  if String.eqb dataVarName "illumination" || String.eqb dataVarName "orbiter_visibility" then
    (* Rule 1: Uint8 *)
    match rawData with
    | JS.Numbers (JS.Uint8Array _ as rawData) => Return rawData
    | _ => new_from JS.new_Uint8Array rawData
    end
  else if String.eqb dataVarName "dte_visibility" || String.eqb dataVarName "night_flag" then
    (* Rule 2: 1-bit Bit-Packed *)
    let input :=
      match rawData with
      | JS.Numbers (JS.Float32Array _ as rawData)
      | JS.Numbers (JS.Int8Array _ as rawData)
      | JS.Numbers (JS.Uint8Array _ as rawData) => Return rawData
      | _ => new_from JS.new_Float32Array rawData
      end in
    match input with
    | Throw e => Throw e
    | Return input => Return (packBinaryData input)
    end
  else if String.eqb dataVarName "darkness_duration" then
    (* Rule 3: Int16 *)
    match rawData with
    | JS.Numbers (JS.Int16Array _ as rawData) => Return rawData
    | _ => new_from JS.new_Int16Array rawData
    end
  else
    (* Rule 4: Float32 (Default) *)
    match rawData with
    | JS.Numbers (JS.Float32Array _ as rawData) => Return rawData
    | _ => new_from JS.new_Float32Array rawData
    end.

(* ===================================================================== *)
(** * [class NetCDFLazyDataset] *)
(* ===================================================================== *)

Module NetCDFLazyDataset.
Section Dataset.
(** What can be thrown. *)
Context {E : Type} {errors : JS.Errors E}.

(** The fields of the object.  [slice] is the hyperslab read of the
    [h5wasm] dataset, [slice start count]; [shape] is [dataset.shape]. *)
Record t : Type := mk {
  filename : string;
  dataVarName : string;
  shape : Z * Z * Z;
  slice : list Z -> list Z -> Result E JS.RawData
}.

(** [getSlice(timeIndex)].  [now] is the one reading of [Date.now()] the
    call makes: in [get] on a hit, in [set] on a miss. *)
Definition getSlice (ds : t) (timeIndex : Z) (now : Z) (c : SliceCache.t)
  : Result E SliceData * SliceCache.t :=
  match SliceCache.get (filename ds) timeIndex now c with
  | (Some cached, c') => (Return cached, c')
  | (None, c') =>
      let '(_, height, width) := shape ds in
      let start := [timeIndex; 0; 0] in
      let count := [1; height; width] in
      match slice ds start count with
      | Throw e => (Throw e, c')
      | Return rawData =>
          match quantize (dataVarName ds) rawData with
          | Throw e => (Throw e, c')
          | Return resultData =>
              (Return resultData,
               SliceCache.set (filename ds) timeIndex resultData now c')
          end
      end
  end.

Definition getCachedSlice (ds : t) (timeIndex : Z) (now : Z) (c : SliceCache.t)
  : option SliceData * SliceCache.t :=
  SliceCache.get (filename ds) timeIndex now c.

(** The fallback loop: [result[t] = rawData[t * stride + offset]], on
    [result = new Array(timeSteps)].  An array has fewer than [2^32]
    elements: the loop is modelled for such a [timeSteps]. *)
Definition strided (rawData : JS.RawData) (timeSteps stride offset : Z)
  : list (option JS.value) :=
  fold_left
    (fun result t =>
       <[Z.to_nat t := JS.Raw.at_index rawData (t * stride + offset)]> result)
    (JS.for_range 0 timeSteps 1)
    (repeat None (Z.to_nat timeSteps)).

(** [getPixelTimeSeries(y, x)]; an element [None] is [undefined].  The
    result is declared [number[]]; it holds BigInt values when the reader
    hands out an array of them.  [Array.from] is modelled for a buffer of
    fewer than [2^32] elements. *)
Definition getPixelTimeSeries (ds : t) (y x : Z) : Result E (list (option JS.value)) :=
  let '(timeSteps, height, width) := shape ds in
  let start := [0; y; x] in
  let count := [timeSteps; 1; 1] in
  match slice ds start count with
  | Throw e => Throw e
  | Return rawData =>
      if JS.Raw.length rawData =? timeSteps then
        Return (map Some (JS.Raw.Array_from rawData))
      else
        (* Fallback logic *)
        let stride := height * width in
        let offset := y * width + x in
        if JS.Raw.length rawData =? timeSteps * stride then
          Return (strided rawData timeSteps stride offset)
        else
          (* Try simple conversion *)
          Return (map Some (JS.Raw.Array_from rawData))
  end.

Definition clearCache (ds : t) (c : SliceCache.t) : SliceCache.t :=
  SliceCache.clearForFile (filename ds) c.

(** [dispose()]: the cache is cleared; closing the file is outside the
    model. *)
Definition dispose (ds : t) (c : SliceCache.t) : SliceCache.t :=
  SliceCache.clearForFile (filename ds) c.

Definition getStats (ds : t) (c : SliceCache.t) : Z * Z :=
  SliceCache.getStatsForFile (filename ds) c.
End Dataset.
Arguments t : clear implicits.
End NetCDFLazyDataset.

(* ===================================================================== *)
(** * [class NpyLazyDataset] *)
(* ===================================================================== *)

Module NpyLazyDataset.

Definition batchSize : Z := 50.

(** The inner loop [for (let j = 0; j < batchSize && i + j < time; j++)]:
    the time steps [t = i + j] of one batch.  [j] grows by one each round,
    so [batchSize] rounds exhaust it. *)
Fixpoint batch_loop (fuel : nat) (time i j : Z) : list Z :=
  match fuel with
  | O => []
  | S fuel' =>
      if (j <? batchSize) && (i + j <? time)
      then (i + j) :: batch_loop fuel' time i (j + 1)
      else []
  end.

Definition batch (time i : Z) : list Z :=
  batch_loop (Z.to_nat batchSize) time i 0.

(** The outer loop [for (let i = 0; i < time; i += batchSize)]. *)
Definition batches (time : Z) : list (list Z) :=
  map (batch time) (JS.for_range 0 time batchSize).

Section Dataset.
(** [E]: what can be thrown; [File]: a browser [File];
    [ArrayBuffer]: what [readFileRange] resolves to; [DataType]: the
    element type code of the NPY header. *)
Context {E File ArrayBuffer DataType : Type} {errors : JS.Errors E}.

(** [StreamingNpyMetadata], the fields this module reads. *)
Record StreamingNpyMetadata : Type := mkMetadata {
  time : Z;
  height : Z;
  width : Z;
  headerSize : Z;
  bytesPerValue : Z;
  dataType : DataType
}.

(** The imports of the module, declared in [streamingNpyParser] and
    [streamingFileReader].  The module passes their arrays to
    [new Float32Array] and returns their elements as [number]: by these
    types they are typed arrays of numbers. *)
Record Imports : Type := mkImports {
  loadNpyTimeSlice : File -> StreamingNpyMetadata -> Z -> Result E JS.TypedArray;
  readFileRange : File -> Z -> Z -> Result E ArrayBuffer;
  createTypedArray : ArrayBuffer -> DataType -> Result E JS.TypedArray
}.

Record t : Type := mk {
  file : File;
  metadata : StreamingNpyMetadata;
  fileId : string
}.

Variable io : Imports.

(** [getSlice(timeIndex)].  The [catch] logs the error and rethrows
    it. *)
Definition getSlice (ds : t) (timeIndex : Z) (now : Z) (c : SliceCache.t)
  : Result E SliceData * SliceCache.t :=
  match SliceCache.get (fileId ds) timeIndex now c with
  | (Some cached, c') => (Return cached, c')
  | (None, c') =>
      match loadNpyTimeSlice io (file ds) (metadata ds) timeIndex with
      | Throw error => (Throw error, c')
      | Return data =>
          let floatData :=
            match data with
            | JS.Float32Array _ => data
            | _ => JS.new_Float32Array data
            end in
          (Return floatData,
           SliceCache.set (fileId ds) timeIndex floatData now c')
      end
  end.

Definition getCachedSlice (ds : t) (timeIndex : Z) (now : Z) (c : SliceCache.t)
  : option SliceData * SliceCache.t :=
  SliceCache.get (fileId ds) timeIndex now c.

(** The byte offset of pixel [(y, x)] at time [t]. *)
Definition pixel_offset (md : StreamingNpyMetadata) (y x t : Z) : Z :=
  headerSize md
  + t * height md * width md * bytesPerValue md
  + y * width md * bytesPerValue md
  + x * bytesPerValue md.

(** [readValue(t)]: one range read and its decoding; the result is
    [typedArray[0]]. *)
Definition readValue (ds : t) (y x t : Z) : Result E (option JS.number) :=
  let md := metadata ds in
  match readFileRange io (file ds) (pixel_offset md y x t) (bytesPerValue md) with
  | Throw e => Throw e
  | Return buffer =>
      match createTypedArray io buffer (dataType md) with
      | Throw e => Throw e
      | Return typedArray => Return (JS.at_index typedArray 0)
      end
  end.

(** [await Promise.all(batchPromises)]: every read of the batch has been
    started; each one that resolves stores its value at its own index.
    The batch fails when a read fails, here with the error of the first
    failing read in the order of issue. *)
Definition run_batch (ds : t) (y x : Z) (results : list (option JS.number))
    (ts : list Z) : Result E (list (option JS.number)) :=
  fold_left
    (fun acc t =>
       match acc with
       | Throw e => Throw e
       | Return results =>
           match readValue ds y x t with
           | Throw e => Throw e
           | Return val => Return (<[Z.to_nat t := val]> results)
           end
       end)
    ts (Return results).

(** A read request as [readFileRange] receives it: offset and length. *)
Definition request (ds : t) (y x t : Z) : Z * Z :=
  (pixel_offset (metadata ds) y x t, bytesPerValue (metadata ds)).

(** The batches in sequence.  [issued] records, batch by batch, the
    requests started so far; a failing batch ends the function before the
    next batch is started. *)
Fixpoint run_batches (ds : t) (y x : Z) (todo : list (list Z))
    (results : list (option JS.number)) (issued : list (list (Z * Z)))
  : Result E (list (option JS.number)) * list (list (Z * Z)) :=
  match todo with
  | [] => (Return results, issued)
  | ts :: todo' =>
      let issued' := issued ++ [map (request ds y x) ts] in
      match run_batch ds y x results ts with
      | Throw e => (Throw e, issued')
      | Return results' => run_batches ds y x todo' results' issued'
      end
  end.

(** [getPixelTimeSeries(y, x)]: the result and the batches of requests
    issued.  [results] starts as [new Array(time)], which throws a
    [RangeError] unless [time] is an array length, an integer from [0] to
    [2^32 - 1]; nothing has been requested by then. *)
Definition getPixelTimeSeries (ds : t) (y x : Z)
  : Result E (list (option JS.number)) * list (list (Z * Z)) :=
  let time := time (metadata ds) in
  if (time <? 0) || (2 ^ 32 <=? time) then (Throw JS.RangeError, [])
  else run_batches ds y x (batches time) (repeat None (Z.to_nat time)) [].

Definition clearCache (ds : t) (c : SliceCache.t) : SliceCache.t :=
  SliceCache.clearForFile (fileId ds) c.

Definition dispose (ds : t) (c : SliceCache.t) : SliceCache.t :=
  SliceCache.clearForFile (fileId ds) c.

Definition getStats (ds : t) (c : SliceCache.t) : Z * Z :=
  SliceCache.getStatsForFile (fileId ds) c.
End Dataset.
Arguments StreamingNpyMetadata : clear implicits.
Arguments Imports : clear implicits.
Arguments t : clear implicits.
End NpyLazyDataset.

(* ===================================================================== *)
(** * Histories of the cache *)
(* ===================================================================== *)

Module History.
Import SliceCache.

(** The calls a client can make on the shared cache, each with the clock
    reading it observes. *)
Inductive Op : Type :=
| Set_ (fileId : string) (timeIndex : Z) (d : SliceData) (now : Z)
| Get_ (fileId : string) (timeIndex : Z) (now : Z)
| ClearForFile_ (fileId : string).

Definition step (c : SliceCache.t) (op : Op) : SliceCache.t :=
  match op with
  | Set_ f i d now => SliceCache.set f i d now c
  | Get_ f i now => snd (SliceCache.get f i now c)
  | ClearForFile_ f => SliceCache.clearForFile f c
  end.

(** The cache after the calls [ops], starting from [c]. *)
Definition run (ops : list Op) (c : SliceCache.t) : SliceCache.t :=
  fold_left step ops c.

(** The budget property of the specification: the stored bytes fit the
    budget, or a single entry is stored. *)
Definition within_budget (c : SliceCache.t) : Prop :=
  storedBytes (cache c) <= SLICE_CACHE_SIZE_MB * MB \/ List.length (cache c) = 1%nat.
End History.

(* ===================================================================== *)
(** * Observations and sample data used in the statements *)
(* ===================================================================== *)

(** A cache entry without its timestamp. *)
Definition untimed (kv : string * SliceCache.Entry) : string * SliceData :=
  (fst kv, SliceCache.data (snd kv)).

(** A [Uint8Array] of [n] zero bytes. *)
Definition zeros (n : Z) : SliceData := JS.Uint8Array (repeat 0 (Z.to_nat n)).

(** What a probe for [(f, i)] at time [now] returns and leaves behind. *)
Definition probe_outcome (f : string) (i now : Z) (c : SliceCache.t)
    (r : option SliceData * SliceCache.t) : Prop :=
  (* the cached slice, or [undefined] *)
  fst r = option_map SliceCache.data (SliceCache.peek f i c)
  (* the same keys with the same slices, in the same order *)
  /\ map untimed (SliceCache.cache (snd r)) = map untimed (SliceCache.cache c)
  /\ SliceCache.currentSizeMB (snd r) = SliceCache.currentSizeMB c
  (* on a hit the entry keeps its slice and is stamped [now] *)
  /\ (forall e,
        SliceCache.peek f i c = Some e ->
        SliceCache.peek f i (snd r)
        = Some {| SliceCache.data := SliceCache.data e;
                  SliceCache.lastAccess := now |})
  (* a miss leaves the cache as it is *)
  /\ (SliceCache.peek f i c = None -> snd r = c)
  (* every other entry keeps its timestamp *)
  /\ (forall f' i',
        SliceCache.getKey f' i' <> SliceCache.getKey f i ->
        SliceCache.peek f' i' (snd r) = SliceCache.peek f' i' c)
  (* the stamped entry is passed over by the next eviction when another
     entry is older than [now] *)
  /\ (forall e k' e',
        SliceCache.peek f i c = Some e ->
        In (k', e') (SliceCache.cache c) -> k' <> SliceCache.getKey f i ->
        SliceCache.lastAccess e' < now ->
        SliceCache.peek f i (SliceCache.evictLRU (snd r))
        = Some {| SliceCache.data := SliceCache.data e;
                  SliceCache.lastAccess := now |})
  (* and it is the one evicted when no entry before it in the order of the
     [Map] is as old as [now] and no entry after it is older *)
  /\ (forall e pre post,
        SliceCache.cache c = pre ++ (SliceCache.getKey f i, e) :: post ->
        (forall k' e', In (k', e') pre -> now < SliceCache.lastAccess e') ->
        (forall k' e', In (k', e') post -> now <= SliceCache.lastAccess e') ->
        SliceCache.peek f i (SliceCache.evictLRU (snd r)) = None).

(** The writes into [results], one per resolved read. *)
Definition store_all {A : Type} (v : Z -> option A) (ts : list Z)
    (results : list (option A)) : list (option A) :=
  fold_left (fun results t => <[Z.to_nat t := v t]> results) ts results.

(** "Input value [i] is non-zero", the specification's gloss of the test
    [if (data[i])]: the element exists and is not a zero.  [NaN] is not a
    zero. *)
Definition nonzero_at (a : JS.TypedArray) (i : Z) : bool :=
  if i <? 0 then false
  else
    match a with
    | JS.Int8Array l | JS.Uint8Array l | JS.Int16Array l
    | JS.Uint16Array l | JS.Int32Array l | JS.Uint32Array l =>
        match nth_error l (Z.to_nat i) with
        | Some z => negb (z =? 0)
        | None => false
        end
    | JS.Float32Array l | JS.Float64Array l =>
        match nth_error l (Z.to_nat i) with
        | Some (S754_zero _) => false
        | Some _ => true
        | None => false
        end
    end.

(** The four decoded representations of the specification. *)
Inductive Representation : Type :=
| Uint8PerCell
| BitPacked
| Int16PerCell
| Float32PerCell.

(** The policy table of the specification: variable kind to
    representation. *)
Definition representation_of (dataVarName : string) : Representation :=
  if String.eqb dataVarName "illumination" then Uint8PerCell
  else if String.eqb dataVarName "orbiter_visibility" then Uint8PerCell
  else if String.eqb dataVarName "dte_visibility" then BitPacked
  else if String.eqb dataVarName "night_flag" then BitPacked
  else if String.eqb dataVarName "darkness_duration" then Int16PerCell
  else Float32PerCell.

(** [s] holds [cells] cells in representation [r]: it is an array of the
    element type, with elements the type can hold, and has one element for
    each cell or, bit-packed, one byte for every eight cells. *)
Definition represents (r : Representation) (cells : Z) (s : SliceData) : bool :=
  JS.well_formed s
  && match r, s with
     | Uint8PerCell, JS.Uint8Array _
     | Int16PerCell, JS.Int16Array _
     | Float32PerCell, JS.Float32Array _ => JS.length s =? cells
     | BitPacked, JS.Uint8Array _ => JS.length s =? (cells + 7) / 8
     | _, _ => false
     end.

(** [raw] already has the element type of the per-cell representation [r]. *)
Definition already_in (r : Representation) (raw : JS.TypedArray) : bool :=
  match r, raw with
  | Uint8PerCell, JS.Uint8Array _ => true
  | Int16PerCell, JS.Int16Array _ => true
  | Float32PerCell, JS.Float32Array _ => true
  | _, _ => false
  end.

(** The arrays whose elements are tested for the bits as they are; the
    elements of any other array are first rounded to 32-bit float. *)
Definition packed_directly (raw : JS.TypedArray) : bool :=
  match raw with
  | JS.Float32Array _ | JS.Int8Array _ | JS.Uint8Array _ => true
  | _ => false
  end.

(** Bit [i mod 8] of byte [i / 8] of a bit-packed slice. *)
Definition bit_at (s : SliceData) (i : Z) : bool :=
  match s with
  | JS.Uint8Array bytes => Z.testbit (nth (Z.to_nat (i / 8)) bytes 0) (i mod 8)
  | _ => false
  end.

(** [s] holds the elements of [raw] converted one by one to the
    representation [r]: truncated and reduced modulo [2^8] or [2^16], rounded
    to 32-bit float, or, bit-packed, reduced to their truthiness. *)
Definition converted (r : Representation) (raw : JS.TypedArray) (s : SliceData)
  : Prop :=
  match r with
  | Uint8PerCell =>
      forall i, JS.at_index s i
                = option_map (fun v => JS.number_of_Z (JS.ToUint8 v)) (JS.at_index raw i)
  | Int16PerCell =>
      forall i, JS.at_index s i
                = option_map (fun v => JS.number_of_Z (JS.ToInt16 v)) (JS.at_index raw i)
  | Float32PerCell =>
      forall i, JS.at_index s i
                = option_map (fun v => JS.number_of_float32 (JS.fround v))
                    (JS.at_index raw i)
  | BitPacked =>
      forall i, 0 <= i < JS.length raw ->
        bit_at s i
        = if packed_directly raw then JS.truthy_at raw i
          else match JS.at_index raw i with
               | Some v => JS.truthy (JS.fround v)
               | None => false
               end
  end.

(** Every slice cached under [fileId] holds [cells] cells in representation
    [r]. *)
Definition cached_in (r : Representation) (cells : Z) (fileId : string)
    (c : SliceCache.t) : Prop :=
  forall (i : Z) (e : SliceCache.Entry),
    SliceCache.peek fileId i c = Some e ->
    represents r cells (SliceCache.data e) = true.

(* ===================================================================== *)
(** * A flat file of little-endian 32-bit integers *)
(* ===================================================================== *)

(** An instance of the imports of [NpyLazyDataset], used to run the
    statements about it on concrete files.  A file and a buffer are lists of
    bytes; the element type is the NPY type ['<i4']. *)
Module Int32File.

Definition int32_of_bytes (b0 b1 b2 b3 : Z) : Z :=
  let u := b0 + 256 * b1 + 65536 * b2 + 16777216 * b3 in
  if u <? 2147483648 then u else u - 4294967296.

Fixpoint decode (bytes : list Z) : list Z :=
  match bytes with
  | b0 :: b1 :: b2 :: b3 :: rest => int32_of_bytes b0 b1 b2 b3 :: decode rest
  | _ => []
  end.

(** Modelled from the spec: [readFileRange] is declared in
    [streamingFileReader], which is not embedded here.  Section 6 gives it as
    [readRange(sourceHandle, offsetBytes, lengthBytes) -> rawBytes]; over a
    browser [File] a range that reaches past the end yields the bytes that
    exist. *)
Definition readFileRange (file : list Z) (offset len : Z) : Result unit (list Z) :=
  Return (take (Z.to_nat len) (drop (Z.to_nat offset) file)).

(** Modelled from the spec: [createTypedArray] is declared in
    [streamingFileReader], which is not embedded here.  It decodes the bytes
    read into a typed array of the element type of the header. *)
Definition createTypedArray (buffer : list Z) (dataType : unit)
  : Result unit JS.TypedArray :=
  Return (JS.Int32Array (decode buffer)).

(** Modelled from the spec: [loadNpyTimeSlice] is declared in
    [streamingNpyParser], which is not embedded here.  By section 4.3, slice
    [t] of a time-major file is the contiguous run of [height * width]
    elements that starts at [dataOffset + t * height * width * elementSize];
    exactly that range is read and decoded. *)
Definition loadNpyTimeSlice (file : list Z)
    (md : NpyLazyDataset.StreamingNpyMetadata unit) (timeIndex : Z)
  : Result unit JS.TypedArray :=
  let sliceBytes :=
    NpyLazyDataset.height md * NpyLazyDataset.width md
    * NpyLazyDataset.bytesPerValue md in
  match readFileRange file (NpyLazyDataset.headerSize md + timeIndex * sliceBytes)
                      sliceBytes with
  | Throw e => Throw e
  | Return buffer => createTypedArray buffer (NpyLazyDataset.dataType md)
  end.

Definition io : NpyLazyDataset.Imports unit (list Z) (list Z) unit :=
  {| NpyLazyDataset.loadNpyTimeSlice := loadNpyTimeSlice;
     NpyLazyDataset.readFileRange := readFileRange;
     NpyLazyDataset.createTypedArray := createTypedArray |}.

(** A dataset over [file], whose data start after [headerSize] bytes. *)
Definition dataset_at (headerSize : Z) (file : list Z) (time height width : Z)
    (fileId : string) : NpyLazyDataset.t (list Z) unit :=
  {| NpyLazyDataset.file := file;
     NpyLazyDataset.metadata :=
       {| NpyLazyDataset.time := time;
          NpyLazyDataset.height := height;
          NpyLazyDataset.width := width;
          NpyLazyDataset.headerSize := headerSize;
          NpyLazyDataset.bytesPerValue := 4;
          NpyLazyDataset.dataType := tt |};
     NpyLazyDataset.fileId := fileId |}.

(** A dataset over [file] with no header. *)
Definition dataset (file : list Z) (time height width : Z) (fileId : string)
  : NpyLazyDataset.t (list Z) unit :=
  dataset_at 0 file time height width fileId.

(** The 32-bit integers the file holds after its header, in order. *)
Definition elements (headerSize : Z) (file : list Z) : list Z :=
  decode (drop (Z.to_nat headerSize) file).

End Int32File.

(** No [":"] occurs in the string. *)
Fixpoint colon_free (s : string) : bool :=
  match s with
  | EmptyString => true
  | String a s' => negb (Ascii.eqb a ":") && colon_free s'
  end.

(* ===================================================================== *)
(** * [interface ILazyDataset]: calls on datasets that share the cache *)
(* ===================================================================== *)

Module Session.
Section Calls.
Context {E File ArrayBuffer DataType : Type} {errors : JS.Errors E}.
Variable io : NpyLazyDataset.Imports E File ArrayBuffer DataType.

(** An [ILazyDataset]: an object of one of the two classes that implement
    the interface. *)
Inductive Dataset : Type :=
| NetCDF (ds : NetCDFLazyDataset.t E)
| Npy (ds : NpyLazyDataset.t File DataType).

(** The name under which the dataset keeps its slices in
    [globalSliceCache]: [this.filename], [this.fileId]. *)
Definition fileId (d : Dataset) : string :=
  match d with
  | NetCDF ds => NetCDFLazyDataset.filename ds
  | Npy ds => NpyLazyDataset.fileId ds
  end.

(** The methods of the interface, dispatched on the class. *)
Definition getSlice (d : Dataset) (timeIndex now : Z) (c : SliceCache.t)
  : Result E SliceData * SliceCache.t :=
  match d with
  | NetCDF ds => NetCDFLazyDataset.getSlice ds timeIndex now c
  | Npy ds => NpyLazyDataset.getSlice io ds timeIndex now c
  end.

Definition getCachedSlice (d : Dataset) (timeIndex now : Z) (c : SliceCache.t)
  : option SliceData * SliceCache.t :=
  match d with
  | NetCDF ds => NetCDFLazyDataset.getCachedSlice ds timeIndex now c
  | Npy ds => NpyLazyDataset.getCachedSlice ds timeIndex now c
  end.

Definition clearCache (d : Dataset) (c : SliceCache.t) : SliceCache.t :=
  match d with
  | NetCDF ds => NetCDFLazyDataset.clearCache ds c
  | Npy ds => NpyLazyDataset.clearCache ds c
  end.

Definition dispose (d : Dataset) (c : SliceCache.t) : SliceCache.t :=
  match d with
  | NetCDF ds => NetCDFLazyDataset.dispose ds c
  | Npy ds => NpyLazyDataset.dispose ds c
  end.

Definition getStats (d : Dataset) (c : SliceCache.t) : Z * Z :=
  match d with
  | NetCDF ds => NetCDFLazyDataset.getStats ds c
  | Npy ds => NpyLazyDataset.getStats ds c
  end.

(** The calls that act on the cache, each with the clock reading it
    observes. *)
Inductive Call : Type :=
| GetSlice (d : Dataset) (timeIndex now : Z)
| GetCachedSlice (d : Dataset) (timeIndex now : Z)
| ClearCache (d : Dataset)
| Dispose (d : Dataset).

(** One call, run to completion before the next one starts. *)
Definition step (c : SliceCache.t) (call : Call) : SliceCache.t :=
  match call with
  | GetSlice d timeIndex now => snd (getSlice d timeIndex now c)
  | GetCachedSlice d timeIndex now => snd (getCachedSlice d timeIndex now c)
  | ClearCache d => clearCache d c
  | Dispose d => dispose d c
  end.

(** The cache after the calls, starting from [c]. *)
Definition run (calls : list Call) (c : SliceCache.t) : SliceCache.t :=
  fold_left step calls c.

(** Observations used in the statements; none of them is a method. *)

(** The dataset a call is made on. *)
Definition dataset_of (call : Call) : Dataset :=
  match call with
  | GetSlice d _ _ | GetCachedSlice d _ _ | ClearCache d | Dispose d => d
  end.

(** The representation of the dataset's variable kind; an NPY dataset has
    no variable name and decodes to 32-bit floats. *)
Definition representation (d : Dataset) : Representation :=
  match d with
  | NetCDF ds => representation_of (NetCDFLazyDataset.dataVarName ds)
  | Npy _ => Float32PerCell
  end.

(** The number of cells of a slice: [height * width]. *)
Definition cells (d : Dataset) : Z :=
  match d with
  | NetCDF ds =>
      let '(_, height, width) := NetCDFLazyDataset.shape ds in height * width
  | Npy ds =>
      NpyLazyDataset.height (NpyLazyDataset.metadata ds)
      * NpyLazyDataset.width (NpyLazyDataset.metadata ds)
  end.

(** The reader of the dataset honours a request for a slice: what it hands
    out is an array of [height * width] numbers that the array can hold. *)
Definition reads_slices (d : Dataset) : Prop :=
  match d with
  | NetCDF ds =>
      forall (timeIndex : Z) (rawData : JS.RawData),
        (let '(_, height, width) := NetCDFLazyDataset.shape ds in
         NetCDFLazyDataset.slice ds [timeIndex; 0; 0] [1; height; width])
        = Return rawData ->
        exists raw,
          rawData = JS.Numbers raw
          /\ JS.well_formed raw = true /\ JS.length raw = cells d
  | Npy ds =>
      forall (timeIndex : Z) (data : JS.TypedArray),
        NpyLazyDataset.loadNpyTimeSlice io (NpyLazyDataset.file ds)
          (NpyLazyDataset.metadata ds) timeIndex = Return data ->
        JS.well_formed data = true /\ JS.length data = cells d
  end.
End Calls.
Arguments Dataset : clear implicits.
Arguments Call : clear implicits.
End Session.

(* ===================================================================== *)
(** * Comparisons of numbers *)
(* ===================================================================== *)

Module JSNumber.

(** [Infinity], [-Infinity] and [NaN] *)
Definition Infinity : JS.number := S754_infinity false.
Definition neg_Infinity : JS.number := S754_infinity true.
Definition NaN : JS.number := S754_nan.

(** [x < y], [x > y] and [x === y] on numbers: the IEEE 754 comparisons,
    false as soon as an operand is [NaN]; [0 === -0] holds. *)
Definition lt (x y : JS.number) : bool := SFltb x y.
Definition gt (x y : JS.number) : bool := lt y x.
Definition strict_eq (x y : JS.number) : bool := SFeqb x y.

(** [isFinite(x)] *)
Definition isFinite (x : JS.number) : bool :=
  match x with
  | S754_zero _ | S754_finite _ _ _ => true
  | S754_infinity _ | S754_nan => false
  end.

End JSNumber.

(* ===================================================================== *)
(** * [AppContext]: the value range of a new layer *)
(* ===================================================================== *)

(** The two places of [AppContext.tsx] that call [getSlice(0)] on a new
    lazy dataset and scan the slice for the range of the colour map. *)
Module AppContext.
Import JSNumber.

(** One round of either loop:
    [if (value < min) min = value; if (value > max) max = value;] *)
Definition widen (range : JS.number * JS.number) (value : JS.number)
  : JS.number * JS.number :=
  let '(min, max) := range in
  let min := if lt value min then value else min in
  let max := if gt value max then value else max in
  (min, max).

(** [handleAddNpyLayer], streaming path: [min] and [max] start at
    [Infinity] and [-Infinity], and [for (const value of firstSlice)] visits
    every element. *)
Definition npy_range (firstSlice : SliceData) : JS.number * JS.number :=
  fold_left widen (JS.Array_from firstSlice) (Infinity, neg_Infinity).

(** Observation: [v] is one of the values the scan of
    [handleAddNetCdf4Layer] looks at, the elements at the multiples of
    [step = ceil(length / 10000)]. *)
Definition sampled (firstSlice : SliceData) (v : JS.number) : Prop :=
  exists k : Z,
    0 <= k
    /\ JS.at_index firstSlice (k * ((JS.length firstSlice + 9999) / 10000)) = Some v.

(** [handleAddNetCdf4Layer]: the range is [0 .. 1] when [getSlice(0)]
    throws; otherwise the slice is sampled every
    [step = Math.ceil(firstSlice.length / 10000)] elements, and a range that
    is not finite or is a single point is replaced by [0 .. 1].  For an empty
    slice [step] is [0] and the loop body never runs: [JS.for_range 0 0 0] is
    empty. *)
Definition netcdf_range {E : Type} (firstSlice : Result E SliceData)
  : JS.number * JS.number :=
  match firstSlice with
  | Throw _ => (JS.number_of_Z 0, JS.number_of_Z 1)
  | Return firstSlice =>
      let step := (JS.length firstSlice + 9999) / 10000 in
      let '(min, max) :=
        fold_left
          (fun range i =>
             match JS.at_index firstSlice i with
             | Some val => widen range val
             | None => range
             end)
          (JS.for_range 0 (JS.length firstSlice) step)
          (Infinity, neg_Infinity) in
      if negb (isFinite min) || negb (isFinite max) || strict_eq min max
      then (JS.number_of_Z 0, JS.number_of_Z 1)
      else (min, max)
  end.

End AppContext.

(* ===================================================================== *)
(** * [AppContext]: a small NPY file, read whole *)
(* ===================================================================== *)

(** The traditional path of [handleAddNpyLayer]: the file is parsed in one
    piece and its values are copied, one by one, into [dataset[t][y][x]]. *)
Module Traditional.

(** [DataSet]: an array of [time] slices, each an array of [height] rows of
    [width] cells.  A cell [None] is a hole or holds [undefined]. *)
Abbreviation DataSet := (list (list (list (option JS.number)))).

(** [Array.from({ length: time }, () =>
      Array.from({ length: height }, () => new Array(width)))], for a
    [width] that an array can have: [new Array(width)] throws when [width]
    is negative or [2^32] and more. *)
Definition new_DataSet (time height width : Z) : DataSet :=
  repeat (repeat (repeat None (Z.to_nat width)) (Z.to_nat height)) (Z.to_nat time).

(** [dataset[t][y][x] = v], for indices inside the three arrays (the loops
    never leave them). *)
Definition store (dataset : DataSet) (t y x : Z) (v : option JS.number) : DataSet :=
  alter (alter (<[Z.to_nat x := v]>) (Z.to_nat y)) (Z.to_nat t) dataset.

(** [dataset[t][y][x] = float32Array[flatIndex++]] *)
Definition copy_next (float32Array : JS.TypedArray) (t y x : Z) (st : DataSet * Z)
  : DataSet * Z :=
  let '(dataset, flatIndex) := st in
  (store dataset t y x (JS.at_index float32Array flatIndex), flatIndex + 1).

(** The two triple loops, chosen by [header.fortran_order], with
    [[height, width, time] = shape]. *)
Definition unflatten (fortran_order : bool) (float32Array : JS.TypedArray)
    (height width time : Z) : DataSet :=
  let start := (new_DataSet time height width, 0) in
  fst
    (if fortran_order then
       fold_left
         (fun st t =>
            fold_left
              (fun st x =>
                 fold_left (fun st y => copy_next float32Array t y x st)
                           (JS.for_range 0 height 1) st)
              (JS.for_range 0 width 1) st)
         (JS.for_range 0 time 1) start
     else
       fold_left
         (fun st y =>
            fold_left
              (fun st x =>
                 fold_left (fun st t => copy_next float32Array t y x st)
                           (JS.for_range 0 time 1) st)
              (JS.for_range 0 width 1) st)
         (JS.for_range 0 height 1) start).

(** [slice?.[y]?.[x]]: [None] when the row or the cell is missing, or the
    cell holds [undefined]. *)
Definition cell_of_slice (slice : list (list (option JS.number))) (y x : Z)
  : option JS.number :=
  if (y <? 0) || (x <? 0) then None
  else
    match slice !! Z.to_nat y with
    | Some row =>
        match row !! Z.to_nat x with
        | Some v => v
        | None => None
        end
    | None => None
    end.

(** [dataset[t]?.[y]?.[x]] *)
Definition cell (dataset : DataSet) (t y x : Z) : option JS.number :=
  if t <? 0 then None
  else
    match dataset !! Z.to_nat t with
    | Some slice => cell_of_slice slice y x
    | None => None
    end.

(** The time series of a pixel of a layer held in memory:
    [dataset.map(slice => slice?.[y]?.[x] ?? 0)] *)
Definition series (dataset : DataSet) (y x : Z) : list JS.number :=
  map (fun slice =>
         match cell_of_slice slice y x with
         | Some v => v
         | None => JS.number_of_Z 0
         end) dataset.

End Traditional.

(* ===================================================================== *)
(** * Facts about [Map] *)
(* ===================================================================== *)

Module JSMapFacts.
Import JSMap.
Section Facts.
Context {V : Type}.
Implicit Types (m : list (string * V)) (k : string) (v : V).

Lemma get_set_eq k v m : get k (set k v m) = Some v.
Proof.
  induction m as [|[k' v'] m IH]; simpl.
  - now rewrite String.eqb_refl.
  - destruct (String.eqb k' k) eqn:Hk; simpl; now rewrite Hk.
Qed.

Lemma get_set_ne k k' v m : k <> k' -> get k' (set k v m) = get k' m.
Proof.
  intros Hne. induction m as [|[k0 v0] m IH]; simpl.
  - apply String.eqb_neq in Hne. now rewrite Hne.
  - destruct (String.eqb k0 k) eqn:Hk; simpl.
    + apply String.eqb_eq in Hk. subst k0.
      apply String.eqb_neq in Hne. now rewrite Hne.
    + now rewrite IH.
Qed.

Lemma get_None_keys k m : get k m = None <-> ~ In k (keys m).
Proof.
  induction m as [|[k0 v0] m IH]; simpl.
  - tauto.
  - destruct (String.eqb k0 k) eqn:Hk.
    + apply String.eqb_eq in Hk. split; [discriminate | tauto].
    + apply String.eqb_neq in Hk. rewrite IH. tauto.
Qed.

Lemma get_Some_In k v m : get k m = Some v -> In (k, v) m.
Proof.
  induction m as [|[k0 v0] m IH]; simpl; [discriminate|].
  destruct (String.eqb k0 k) eqn:Hk.
  - apply String.eqb_eq in Hk. intros [= ->]. subst. now left.
  - intros H. right. now apply IH.
Qed.

Lemma keys_set_present k v m :
  In k (keys m) -> keys (set k v m) = keys m.
Proof.
  induction m as [|[k0 v0] m IH]; simpl; [tauto|].
  intros Hin. destruct (String.eqb k0 k) eqn:Hk; simpl; [reflexivity|].
  apply String.eqb_neq in Hk. f_equal. apply IH. destruct Hin; congruence.
Qed.

Lemma keys_set_absent k v m :
  ~ In k (keys m) -> set k v m = m ++ [(k, v)].
Proof.
  induction m as [|[k0 v0] m IH]; simpl; [reflexivity|].
  intros Hin. destruct (String.eqb k0 k) eqn:Hk.
  - apply String.eqb_eq in Hk. tauto.
  - f_equal. apply IH. tauto.
Qed.

Lemma length_set k v m :
  List.length (set k v m) =
  match get k m with
  | Some _ => List.length m
  | None => S (List.length m)
  end.
Proof.
  induction m as [|[k0 v0] m IH]; simpl; [reflexivity|].
  destruct (String.eqb k0 k); simpl; [reflexivity|].
  rewrite IH. now destruct (get k m).
Qed.

Lemma In_keys_set k k' v m :
  In k' (keys (set k v m)) <-> k' = k \/ In k' (keys m).
Proof.
  induction m as [|[k0 v0] m IH]; simpl.
  - intuition congruence.
  - destruct (String.eqb k0 k) eqn:Hk; simpl.
    + apply String.eqb_eq in Hk. subst. intuition congruence.
    + rewrite IH. intuition congruence.
Qed.

Lemma NoDup_keys_set k v m : NoDup (keys m) -> NoDup (keys (set k v m)).
Proof.
  induction m as [|[k0 v0] m IH]; simpl; intros Hnd.
  - repeat constructor. intros H; inversion H.
  - inversion Hnd as [|? ? Hnotin Hnd']; subst.
    destruct (String.eqb k0 k) eqn:Hk; simpl.
    + now constructor.
    + constructor; [|now apply IH].
      apply String.eqb_neq in Hk.
      rewrite list_elem_of_In, In_keys_set. rewrite list_elem_of_In in Hnotin.
      intuition congruence.
Qed.

Lemma keys_delete k m :
  keys (delete k m) = List.filter (fun k' => negb (String.eqb k' k)) (keys m).
Proof.
  unfold delete, keys. induction m as [|[k0 v0] m IH]; simpl; [reflexivity|].
  destruct (String.eqb k0 k); simpl; now rewrite IH.
Qed.

Lemma In_keys_delete k k' m :
  In k' (keys (delete k m)) <-> k' <> k /\ In k' (keys m).
Proof.
  rewrite keys_delete, filter_In, negb_true_iff, String.eqb_neq. tauto.
Qed.

Lemma NoDup_keys_delete k m : NoDup (keys m) -> NoDup (keys (delete k m)).
Proof.
  rewrite keys_delete, !NoDup_ListNoDup. apply List.NoDup_filter.
Qed.

Lemma get_delete_eq k m : get k (delete k m) = None.
Proof. apply get_None_keys. rewrite In_keys_delete. tauto. Qed.

Lemma get_delete_ne k k' m : k <> k' -> get k' (delete k m) = get k' m.
Proof.
  intros Hne. unfold delete. induction m as [|[k0 v0] m IH]; simpl; [reflexivity|].
  destruct (String.eqb k0 k) eqn:Hk; simpl.
  - apply String.eqb_eq in Hk. subst k0.
    apply String.eqb_neq in Hne. now rewrite Hne.
  - now rewrite IH.
Qed.

Lemma delete_absent k m : ~ In k (keys m) -> delete k m = m.
Proof.
  unfold delete. induction m as [|[k0 v0] m IH]; simpl; [reflexivity|].
  intros Hin. destruct (String.eqb k0 k) eqn:Hk; simpl.
  - apply String.eqb_eq in Hk. tauto.
  - f_equal. apply IH. tauto.
Qed.

Lemma length_delete_present k m :
  NoDup (keys m) -> In k (keys m) ->
  S (List.length (delete k m)) = List.length m.
Proof.
  unfold delete. induction m as [|[k0 v0] m IH]; simpl; [tauto|].
  intros Hnd Hin. inversion Hnd as [|? ? Hnotin Hnd']; subst.
  rewrite list_elem_of_In in Hnotin.
  destruct (String.eqb k0 k) eqn:Hk; simpl.
  - apply String.eqb_eq in Hk. subst k0.
    fold (delete k m). now rewrite delete_absent.
  - apply String.eqb_neq in Hk. f_equal. apply IH; [assumption|].
    destruct Hin; congruence.
Qed.
End Facts.
End JSMapFacts.

(* ===================================================================== *)
(** * Facts about cache keys *)
(* ===================================================================== *)

Module KeyFacts.
Import SliceCache.

Lemma append_nil (s : string) : ("" ++ s)%string = s.
Proof. reflexivity. Qed.

Lemma append_cons (a : ascii) (s1 s2 : string) :
  (String a s1 ++ s2)%string = String a (s1 ++ s2)%string.
Proof. reflexivity. Qed.

Ltac norm_append :=
  repeat first [rewrite append_nil | rewrite append_cons].

Lemma colon_free_app (s1 s2 : string) :
  colon_free (s1 ++ s2)%string = colon_free s1 && colon_free s2.
Proof.
  induction s1 as [|a s1 IH]; simpl; [reflexivity|].
  rewrite IH. now rewrite andb_assoc.
Qed.

Lemma pretty_N_go_colon_free (x : N) (s : string) :
  colon_free s = true -> colon_free (pretty_N_go x s) = true.
Proof.
  revert s. induction (N.lt_wf_0 x) as [x _ IH]; intros s Hs.
  assert (x = 0 \/ 0 < x)%N as [->|Hpos] by lia.
  - now rewrite pretty_N_go_0.
  - rewrite pretty_N_go_step by assumption.
    apply IH; [now apply N.div_lt|].
    simpl. rewrite Hs, andb_true_r.
    unfold pretty_N_char. now repeat case_match.
Qed.

Lemma pretty_N_colon_free (x : N) : colon_free (pretty x) = true.
Proof.
  unfold pretty, pretty_N. case_decide; [reflexivity|].
  now apply pretty_N_go_colon_free.
Qed.

(** The decimal form of a time index has no colon. *)
Lemma pretty_Z_colon_free (i : Z) : colon_free (pretty i) = true.
Proof.
  unfold pretty, pretty_Z. destruct i as [|p|p]; [reflexivity| |].
  - apply pretty_N_colon_free.
  - simpl. apply pretty_N_colon_free.
Qed.

Lemma colon_split (f f' s s' : string) :
  colon_free s = true -> colon_free s' = true ->
  (f ++ ":" ++ s)%string = (f' ++ ":" ++ s')%string -> f = f' /\ s = s'.
Proof.
  intros Hs Hs'. revert f'.
  induction f as [|a f IH]; intros [|a' f']; norm_append; intros Heq.
  - injection Heq as ->. now split.
  - injection Heq as <- ->. rewrite colon_free_app in Hs. simpl in Hs.
    rewrite andb_false_r in Hs. discriminate.
  - injection Heq as -> <-. rewrite colon_free_app in Hs'. simpl in Hs'.
    rewrite andb_false_r in Hs'. discriminate.
  - injection Heq as -> Heq. destruct (IH _ Heq) as [-> ->]. now split.
Qed.

(** A key determines the file and the time index it was built from. *)
Lemma getKey_inj (f f' : string) (i i' : Z) :
  getKey f i = getKey f' i' -> f = f' /\ i = i'.
Proof.
  unfold getKey. intros Heq.
  apply colon_split in Heq as [-> Heq]; try apply pretty_Z_colon_free.
  split; [reflexivity|]. now apply (inj pretty).
Qed.

Lemma prefix_nil (s : string) : String.prefix "" s = true.
Proof. now destruct s. Qed.

Lemma prefix_cons (a b : ascii) (s1 s2 : string) :
  String.prefix (String a s1) (String b s2) =
  if ascii_dec a b then String.prefix s1 s2 else false.
Proof. reflexivity. Qed.

Lemma colon_free_cons (a : ascii) (s : string) :
  colon_free (String a s) = true -> a <> ":"%char /\ colon_free s = true.
Proof.
  simpl. intros H. apply andb_true_iff in H as [Ha Hs]. split; [|assumption].
  intros ->. discriminate.
Qed.

Lemma prefix_colon (f f' s : string) :
  colon_free f = true -> colon_free f' = true ->
  String.prefix (f ++ ":") (f' ++ ":" ++ s) = String.eqb f' f.
Proof.
  revert f'. induction f as [|a f IH]; intros [|a' f'] Hf Hf';
    norm_append; rewrite prefix_cons.
  - destruct (ascii_dec ":" ":"); [apply prefix_nil | congruence].
  - apply colon_free_cons in Hf' as [Ha' _].
    destruct (ascii_dec ":" a'); [congruence | reflexivity].
  - apply colon_free_cons in Hf as [Ha _].
    destruct (ascii_dec a ":"); [congruence | reflexivity].
  - apply colon_free_cons in Hf as [_ Hf].
    apply colon_free_cons in Hf' as [_ Hf'].
    change (String a' f' =? String a f)%string
      with (if Ascii.eqb a' a then (f' =? f)%string else false).
    destruct (ascii_dec a a') as [<-|Hne].
    + rewrite Ascii.eqb_refl. now apply IH.
    + assert (Ascii.eqb a' a = false) as -> by (apply Ascii.eqb_neq; congruence).
      reflexivity.
Qed.

(** Between file names without a colon, [clearForFile]'s test recognises
    exactly the keys of its own file. *)
Lemma key_of_file_getKey (f f' : string) (i : Z) :
  colon_free f = true -> colon_free f' = true ->
  key_of_file f (getKey f' i) = String.eqb f' f.
Proof. intros Hf Hf'. unfold key_of_file, getKey. now apply prefix_colon. Qed.
End KeyFacts.

(* ===================================================================== *)
(** * Facts about [SliceCache] *)
(* ===================================================================== *)

Module SliceCacheFacts.
Import SliceCache JSMap JSMapFacts.

Implicit Types (c : SliceCache.t) (m : list (string * Entry)) (k f : string).

Lemma sizeMB_of_nonneg (d : SliceData) : 0 <= sizeMB_of d.
Proof.
  unfold sizeMB_of, JS.byteLength.
  apply Z.mul_nonneg_nonneg; destruct d; simpl; lia.
Qed.

Lemma getKey_nonempty f (i : Z) : getKey f i <> ""%string.
Proof. unfold getKey. destruct f; simpl; discriminate. Qed.

(** ** The stored size *)

Lemma storedBytes_nonneg m : 0 <= storedBytes m.
Proof.
  induction m as [|[k e] m IH]; simpl; [lia|].
  pose proof (sizeMB_of_nonneg (data e)). lia.
Qed.

Lemma storedBytes_app m1 m2 : storedBytes (m1 ++ m2) = storedBytes m1 + storedBytes m2.
Proof. induction m1 as [|[k e] m1 IH]; simpl; lia. Qed.

(** Overwriting a key replaces its entry: the old size leaves the sum. *)
Lemma storedBytes_set k (e : Entry) m :
  storedBytes (set k e m) =
  storedBytes m + sizeMB_of (data e)
  - match get k m with Some old => sizeMB_of (data old) | None => 0 end.
Proof.
  induction m as [|[k0 e0] m IH]; simpl; [lia|].
  destruct (String.eqb k0 k); simpl; lia.
Qed.

Lemma storedBytes_set_le k (e : Entry) m :
  storedBytes (set k e m) <= storedBytes m + sizeMB_of (data e).
Proof.
  rewrite storedBytes_set. destruct (get k m) as [old|]; [|lia].
  pose proof (sizeMB_of_nonneg (data old)). lia.
Qed.

Lemma storedBytes_delete k (e : Entry) m :
  NoDup (keys m) -> get k m = Some e ->
  storedBytes (delete k m) = storedBytes m - sizeMB_of (data e).
Proof.
  unfold delete. induction m as [|[k0 e0] m IH]; simpl; [discriminate|].
  intros Hnd Hget. apply NoDup_cons in Hnd as [Hnotin Hnd].
  rewrite list_elem_of_In in Hnotin.
  destruct (String.eqb k0 k) eqn:Hk; simpl.
  - injection Hget as ->. apply String.eqb_eq in Hk. subst k0.
    fold (delete k m). rewrite delete_absent by assumption. lia.
  - rewrite IH by assumption. lia.
Qed.

(** ** Well-formed caches *)

Lemma wf_empty : wf empty.
Proof. split; simpl; [constructor | tauto | lia]. Qed.

(** ** [evictLRU] picks an entry of least [lastAccess] *)

Lemma fold_oldest m k0 (t0 : Z) :
  exists k t,
    fold_left oldest_step m (Some k0, Some t0) = (Some k, Some t)
    /\ t <= t0
    /\ (forall k' e', In (k', e') m -> t <= lastAccess e')
    /\ (k = k0 /\ t = t0 \/ exists e, In (k, e) m /\ lastAccess e = t).
Proof.
  revert k0 t0. induction m as [|[k1 e1] m IH]; intros k0 t0; simpl.
  - exists k0, t0. split; [reflexivity|]. split; [lia|].
    split; [tauto | now left].
  - destruct (lastAccess e1 <? t0) eqn:Hlt.
    + apply Z.ltb_lt in Hlt.
      destruct (IH k1 (lastAccess e1)) as (k & t & Hf & Hle & Hall & Hwho).
      exists k, t. split; [assumption|]. split; [lia|]. split.
      * intros k' e' [[= <- <-]|Hin]; [lia | eauto].
      * right. destruct Hwho as [[-> ->]|(e & Hin & Ht)]; eauto.
    + apply Z.ltb_ge in Hlt.
      destruct (IH k0 t0) as (k & t & Hf & Hle & Hall & Hwho).
      exists k, t. split; [assumption|]. split; [lia|]. split.
      * intros k' e' [[= <- <-]|Hin]; [lia | eauto].
      * destruct Hwho as [?|(e & Hin & Ht)]; [now left | right; eauto].
Qed.

Lemma oldest_spec m :
  m <> [] ->
  exists k e,
    oldest m = Some k /\ In (k, e) m
    /\ forall k' e', In (k', e') m -> lastAccess e <= lastAccess e'.
Proof.
  destruct m as [|[k0 e0] m]; [congruence|]. intros _.
  unfold oldest. simpl.
  destruct (fold_oldest m k0 (lastAccess e0)) as (k & t & Hf & Hle & Hall & Hwho).
  rewrite Hf. simpl.
  destruct Hwho as [[-> ->]|(e & Hin & Ht)].
  - exists k0, e0. split; [reflexivity|]. split; [now left|].
    intros k' e' [[= <- <-]|Hin]; [lia | eauto].
  - exists k, e. subst t. split; [reflexivity|]. split; [now right|].
    intros k' e' [[= <- <-]|Hin']; [lia | eauto].
Qed.

Lemma NoDup_keys_get k (e : Entry) m :
  NoDup (keys m) -> In (k, e) m -> get k m = Some e.
Proof.
  induction m as [|[k0 e0] m IH]; simpl; [tauto|].
  intros Hnd Hin. apply NoDup_cons in Hnd as [Hnotin Hnd].
  rewrite list_elem_of_In in Hnotin.
  destruct (String.eqb k0 k) eqn:Hk.
  - apply String.eqb_eq in Hk. subst k0.
    destruct Hin as [[= ->]|Hin]; [reflexivity|].
    exfalso. apply Hnotin. now apply (in_map fst) in Hin.
  - apply String.eqb_neq in Hk. destruct Hin as [[= -> ->]|Hin]; [congruence|].
    now apply IH.
Qed.

Lemma key_truthy_nonempty k : k <> ""%string -> key_truthy (Some k) = true.
Proof. destruct k; [congruence | reflexivity]. Qed.

(** On a well-formed, non-empty cache [evictLRU] deletes one entry, one
    whose [lastAccess] is least, and subtracts its size. *)
Lemma evictLRU_spec c :
  wf c -> cache c <> [] ->
  exists k e,
    oldest (cache c) = Some k /\ get k (cache c) = Some e
    /\ (forall k' e', In (k', e') (cache c) -> lastAccess e <= lastAccess e')
    /\ evictLRU c = {| cache := delete k (cache c);
                       currentSizeMB := currentSizeMB c - sizeMB_of (data e) |}.
Proof.
  intros [Hnd Hkeys Hsize] Hne.
  destruct (oldest_spec (cache c) Hne) as (k & e & Hold & Hin & Hmin).
  exists k, e. pose proof (NoDup_keys_get k e _ Hnd Hin) as Hget.
  split; [assumption|]. split; [assumption|]. split; [assumption|].
  unfold evictLRU. rewrite Hold, Hget.
  rewrite key_truthy_nonempty; [reflexivity|].
  apply Hkeys. now apply (in_map fst) in Hin.
Qed.

Lemma evictLRU_wf c : wf c -> wf (evictLRU c).
Proof.
  intros Hwf. destruct (cache c) as [|kv m] eqn:Hc.
  - unfold evictLRU. rewrite Hc. simpl. assumption.
  - destruct (evictLRU_spec c Hwf) as (k & e & _ & Hget & _ & ->);
      [rewrite Hc; discriminate|].
    destruct Hwf as [Hnd Hkeys Hsize]. split; simpl.
    + now apply NoDup_keys_delete.
    + intros k' Hin. apply In_keys_delete in Hin. now apply Hkeys.
    + rewrite (storedBytes_delete k e) by assumption. lia.
Qed.

Lemma evictLRU_length c :
  wf c -> cache c <> [] ->
  S (List.length (cache (evictLRU c))) = List.length (cache c).
Proof.
  intros Hwf Hne.
  destruct (evictLRU_spec c Hwf Hne) as (k & e & _ & Hget & _ & ->). simpl.
  apply length_delete_present; [apply Hwf|].
  apply get_Some_In in Hget. now apply (in_map fst) in Hget.
Qed.

(** ** The eviction loop stops by its own condition

    [set] runs the loop [cache.size] times at most; on a well-formed cache
    the condition of the [while] is false when the loop is left, so the
    bound never cuts the loop short. *)
Lemma evict_loop_exits (fuel : nat) (sizeMB : Z) c :
  wf c -> (List.length (cache c) <= fuel)%nat ->
  wf (evict_loop fuel sizeMB c)
  /\ must_evict sizeMB (evict_loop fuel sizeMB c) = false.
Proof.
  revert c. induction fuel as [|fuel IH]; intros c Hwf Hlen; simpl.
  - split; [assumption|]. unfold must_evict, size.
    assert (List.length (cache c) = 0%nat) as -> by lia.
    simpl. apply andb_false_r.
  - destruct (must_evict sizeMB c) eqn:Hm; [|now split].
    apply IH; [now apply evictLRU_wf|].
    assert (cache c <> []) as Hne.
    { unfold must_evict, size in Hm. apply andb_true_iff in Hm as [_ Hm].
      apply Z.ltb_lt in Hm. destruct (cache c); [simpl in Hm; lia | discriminate]. }
    pose proof (evictLRU_length c Hwf Hne). lia.
Qed.

(** More fuel than [cache.size] changes nothing. *)
Lemma evict_loop_fuel (fuel : nat) (sizeMB : Z) c :
  wf c -> (List.length (cache c) <= fuel)%nat ->
  evict_loop fuel sizeMB c = evict_loop (List.length (cache c)) sizeMB c.
Proof.
  revert c. induction fuel as [|fuel IH]; intros c Hwf Hlen.
  - assert (List.length (cache c) = 0%nat) as -> by lia. reflexivity.
  - simpl. destruct (must_evict sizeMB c) eqn:Hm.
    + assert (cache c <> []) as Hne.
      { unfold must_evict, size in Hm. apply andb_true_iff in Hm as [_ Hm].
        apply Z.ltb_lt in Hm. destruct (cache c); [simpl in Hm; lia | discriminate]. }
      pose proof (evictLRU_length c Hwf Hne) as Hl.
      rewrite <- Hl. simpl. rewrite Hm.
      rewrite IH by (try apply evictLRU_wf; trivial; lia). reflexivity.
    + destruct (List.length (cache c)); simpl; [reflexivity | now rewrite Hm].
Qed.

(** ** [set], [get] and [clearForFile] keep the cache well formed *)

Lemma set_wf f (i : Z) (d : SliceData) (now : Z) c :
  wf c -> wf (SliceCache.set f i d now c).
Proof.
  intros Hwf. unfold SliceCache.set.
  destruct (evict_loop_exits (List.length (cache c)) (sizeMB_of d) c Hwf (le_n _))
    as [[Hnd Hkeys Hsize] _].
  split; simpl.
  - now apply NoDup_keys_set.
  - intros k Hin. apply In_keys_set in Hin as [->|Hin];
      [apply getKey_nonempty | now apply Hkeys].
  - pose proof (storedBytes_set_le (getKey f i) {| data := d; lastAccess := now |}
                  (cache (evict_loop (List.length (cache c)) (sizeMB_of d) c))) as H.
    simpl in H. lia.
Qed.

Lemma storedBytes_touch k (e : Entry) (now : Z) m :
  get k m = Some e -> storedBytes (set k (touch now e) m) = storedBytes m.
Proof. intros Hget. rewrite storedBytes_set, Hget. simpl. lia. Qed.

Lemma get_cache f (i now : Z) c :
  cache (snd (SliceCache.get f i now c)) =
  match get (getKey f i) (cache c) with
  | Some e => set (getKey f i) (touch now e) (cache c)
  | None => cache c
  end.
Proof. unfold SliceCache.get. now destruct (get (getKey f i) (cache c)). Qed.

Lemma get_currentSizeMB f (i now : Z) c :
  currentSizeMB (snd (SliceCache.get f i now c)) = currentSizeMB c.
Proof. unfold SliceCache.get. now destruct (get (getKey f i) (cache c)). Qed.

(** A hit changes no key: the entries stay where they are. *)
Lemma get_keys f (i now : Z) c :
  keys (cache (snd (SliceCache.get f i now c))) = keys (cache c).
Proof.
  rewrite get_cache. destruct (get (getKey f i) (cache c)) eqn:Hget; [|reflexivity].
  apply keys_set_present. apply get_Some_In in Hget. now apply (in_map fst) in Hget.
Qed.

Lemma get_wf f (i now : Z) c : wf c -> wf (snd (SliceCache.get f i now c)).
Proof.
  intros [Hnd Hkeys Hsize]. split.
  - now rewrite get_keys.
  - now rewrite get_keys.
  - rewrite get_currentSizeMB, get_cache.
    destruct (get (getKey f i) (cache c)) eqn:Hget; [|assumption].
    now rewrite storedBytes_touch.
Qed.

Lemma delete_middle k (e : Entry) (pre post : list (string * Entry)) :
  NoDup (keys (pre ++ (k, e) :: post)) ->
  delete k (pre ++ (k, e) :: post) = pre ++ post.
Proof.
  unfold keys. rewrite map_app. simpl. intros Hnd.
  apply NoDup_app in Hnd as (_ & Hdisj & Hnd).
  apply NoDup_cons in Hnd as [Hpost _].
  unfold delete. rewrite List.filter_app. simpl. rewrite String.eqb_refl. simpl.
  fold (delete k pre). fold (delete k post).
  rewrite !delete_absent; [reflexivity | |].
  - now rewrite <- list_elem_of_In.
  - rewrite <- list_elem_of_In. intros Hin. apply (Hdisj k Hin). now left.
Qed.

(** The loop of [clearForFile], started in the middle: [pre] has been
    visited and kept, [todo] is still to visit. *)
Lemma clear_loop f (todo pre : list (string * Entry)) (total : Z) :
  NoDup (keys (pre ++ todo)) ->
  fold_left (clear_step f) todo {| cache := pre ++ todo; currentSizeMB := total |} =
  {| cache := pre ++ List.filter (fun kv => negb (of_file f kv)) todo;
     currentSizeMB := total - storedBytes (List.filter (of_file f) todo) |}.
Proof.
  revert pre total. induction todo as [|[k e] todo IH]; intros pre total Hnd; simpl.
  - f_equal. lia.
  - change (of_file f (k, e)) with (key_of_file f k).
    destruct (key_of_file f k) eqn:Hk; simpl.
    + rewrite delete_middle by assumption.
      rewrite IH.
      * f_equal. lia.
      * unfold keys in *. rewrite map_app in *. simpl in Hnd.
        apply NoDup_app in Hnd as (H1 & H2 & H3).
        apply NoDup_cons in H3 as [H3 H4].
        apply NoDup_app. split; [assumption|]. split; [|assumption].
        intros x Hx Hx'. apply (H2 x Hx). now right.
    + replace (pre ++ (k, e) :: todo) with ((pre ++ [(k, e)]) ++ todo)
        by now rewrite <- app_assoc.
      rewrite IH by now rewrite <- app_assoc.
      now rewrite <- app_assoc.
Qed.

(** [clearForFile] keeps exactly the entries whose key does not start with
    [fileId + ":"], in their order and untouched, and subtracts the sizes of
    the others. *)
Lemma clearForFile_spec f c :
  NoDup (keys (cache c)) ->
  clearForFile f c =
  {| cache := List.filter (fun kv => negb (of_file f kv)) (cache c);
     currentSizeMB := currentSizeMB c - storedBytes (List.filter (of_file f) (cache c)) |}.
Proof.
  intros Hnd. unfold clearForFile. destruct c as [m total]. simpl in *.
  apply (clear_loop f m [] total Hnd).
Qed.

Lemma storedBytes_filter_split (p : string * Entry -> bool) m :
  storedBytes m = storedBytes (List.filter p m) + storedBytes (List.filter (fun kv => negb (p kv)) m).
Proof.
  induction m as [|kv m IH]; simpl; [reflexivity|].
  destruct (p kv); simpl; lia.
Qed.

Lemma clearForFile_wf f c : wf c -> wf (clearForFile f c).
Proof.
  intros [Hnd Hkeys Hsize]. rewrite clearForFile_spec by assumption.
  split; simpl.
  - unfold keys in *. apply NoDup_ListNoDup.
    apply NoDup_ListNoDup in Hnd. clear -Hnd.
    induction (cache c) as [|kv m IH]; simpl; [constructor|].
    inversion Hnd as [|? ? Hnotin Hnd']; subst.
    destruct (negb (of_file f kv)); simpl; [|now apply IH].
    constructor; [|now apply IH].
    intros Hin. apply Hnotin. apply in_map_iff in Hin as (kv' & <- & Hin).
    apply filter_In in Hin as [Hin _]. now apply in_map.
  - intros k Hin. apply Hkeys. unfold keys in *.
    apply in_map_iff in Hin as (kv' & <- & Hin).
    apply filter_In in Hin as [Hin _]. now apply in_map.
  - pose proof (storedBytes_filter_split (of_file f) (cache c)). lia.
Qed.

(** ** Every reachable cache is well formed *)

Lemma step_wf c (op : History.Op) : wf c -> wf (History.step c op).
Proof.
  destruct op; simpl; auto using set_wf, get_wf, clearForFile_wf.
Qed.

Lemma run_wf (ops : list History.Op) c : wf c -> wf (History.run ops c).
Proof.
  unfold History.run. revert c.
  induction ops as [|op ops IH]; intros c Hwf; simpl; auto using step_wf.
Qed.

(** ** The budget *)

Lemma set_within_budget f (i : Z) (d : SliceData) (now : Z) c :
  wf c -> History.within_budget (SliceCache.set f i d now c).
Proof.
  intros Hwf. unfold History.within_budget, SliceCache.set. simpl.
  destruct (evict_loop_exits (List.length (cache c)) (sizeMB_of d) c Hwf (le_n _))
    as [[Hnd Hkeys Hsize] Hexit].
  set (c1 := evict_loop (List.length (cache c)) (sizeMB_of d) c) in *.
  unfold must_evict in Hexit. apply andb_false_iff in Hexit as [Hfit|Hempty].
  - left. apply Z.ltb_ge in Hfit.
    pose proof (storedBytes_set_le (getKey f i) {| data := d; lastAccess := now |} (cache c1)) as H.
    simpl in H. lia.
  - right. apply Z.ltb_ge in Hempty. unfold size in Hempty.
    destruct (cache c1); [reflexivity | simpl in Hempty; lia].
Qed.

Lemma storedBytes_filter_le (p : string * Entry -> bool) m :
  storedBytes (List.filter p m) <= storedBytes m.
Proof.
  pose proof (storedBytes_filter_split p m).
  pose proof (storedBytes_nonneg (List.filter (fun kv => negb (p kv)) m)). lia.
Qed.

Lemma step_within_budget c (op : History.Op) :
  wf c -> History.within_budget c -> History.within_budget (History.step c op).
Proof.
  intros Hwf Hb. destruct op as [f i d now|f i now|f]; simpl.
  - now apply set_within_budget.
  - unfold History.within_budget in *.
    rewrite get_cache. destruct (get (getKey f i) (cache c)) eqn:Hget; [|assumption].
    rewrite storedBytes_touch by assumption.
    rewrite length_set, Hget. assumption.
  - unfold History.within_budget in *.
    rewrite clearForFile_spec by apply Hwf. simpl.
    set (keep := fun kv => negb (of_file f kv)).
    destruct Hb as [Hb|Hone].
    + left. pose proof (storedBytes_filter_le keep (cache c)). lia.
    + destruct (cache c) as [|kv [|kv' m]]; simpl in Hone; try discriminate.
      simpl. destruct (keep kv); simpl; [now right | left; unfold MB, SLICE_CACHE_SIZE_MB; lia].
Qed.

End SliceCacheFacts.

(* ===================================================================== *)
(** * The cache: budget, re-insertion, clearing *)
(* ===================================================================== *)

Module CacheTheorems.
Import SliceCache JSMap JSMapFacts SliceCacheFacts.

Lemma run_within_budget (ops : list History.Op) (c : SliceCache.t) :
  wf c -> History.within_budget c -> History.within_budget (History.run ops c).
Proof.
  unfold History.run. revert c.
  induction ops as [|op ops IH]; intros c Hwf Hb; simpl; [assumption|].
  apply IH; [now apply step_wf | now apply step_within_budget].
Qed.

(** C1.  Whatever calls are made on the cache, starting from the empty
    cache ([set] with any data and clock reading, and also [get] and
    [clearForFile]), after each of them the entries stored add up to at most
    256 MiB, or exactly one entry is stored. *)
Theorem C1_budget_after_every_call (ops : list History.Op) (n : nat) :
  let c := History.run (take n ops) SliceCache.empty in
  storedBytes (cache c) <= 256 * (1024 * 1024) \/ List.length (cache c) = 1%nat.
Proof.
  apply (run_within_budget (take n ops) SliceCache.empty wf_empty).
  left. simpl. unfold SLICE_CACHE_SIZE_MB, MB. lia.
Qed.

(** Every call of [set] returns: its loop stops because its condition
    fails, within [cache.size] rounds. *)
Lemma set_loop_terminates (ops : list History.Op) (sizeMB : Z) :
  let c := History.run ops SliceCache.empty in
  must_evict sizeMB (evict_loop (List.length (cache c)) sizeMB c) = false.
Proof.
  apply evict_loop_exits; [apply run_wf, wf_empty | apply le_n].
Qed.

(** ** Re-insertion under a key already present *)

Lemma set_fits f (i : Z) (d : SliceData) (now : Z) c :
  must_evict (sizeMB_of d) c = false ->
  SliceCache.set f i d now c =
  {| cache := set (getKey f i) {| data := d; lastAccess := now |} (cache c);
     currentSizeMB := currentSizeMB c + sizeMB_of d |}.
Proof.
  intros Hm. unfold SliceCache.set.
  destruct (List.length (cache c)); simpl; [reflexivity | now rewrite Hm].
Qed.

(** When nothing is evicted, the running total grows by the new size while
    the stored size grows by the new size less the old one: the old entry
    stays counted. *)
Lemma set_overwrite_accounting f (i : Z) (d : SliceData) (now : Z) c (old : Entry) :
  must_evict (sizeMB_of d) c = false ->
  peek f i c = Some old ->
  let c' := SliceCache.set f i d now c in
  peek f i c' = Some {| data := d; lastAccess := now |}
  /\ keys (cache c') = keys (cache c)
  /\ storedBytes (cache c') = storedBytes (cache c) - sizeMB_of (data old) + sizeMB_of d
  /\ currentSizeMB c' = currentSizeMB c + sizeMB_of d.
Proof.
  intros Hm Hold c'. subst c'. rewrite set_fits by assumption.
  unfold peek in *. simpl.
  split; [apply get_set_eq|]. split.
  - apply keys_set_present. apply get_Some_In in Hold. now apply (in_map fst) in Hold.
  - split; [|reflexivity]. rewrite storedBytes_set, Hold. simpl. lia.
Qed.

(** C7.  Two [getSlice(0)] calls of the file ["a.npy"] are in flight
    together: both probes miss, both reads deliver the same 4-byte slice, and
    both results are put.  One entry survives, holding the slice of the second
    [set], and 4 bytes are stored, but the running total [currentSizeMB]
    stands at 8 bytes: the overwritten entry is still counted. *)
Theorem C7_same_key_counted_twice :
  let d := JS.Uint8Array [1; 2; 3; 4] in
  let probe1 := SliceCache.get "a.npy" 0 10 SliceCache.empty in
  let probe2 := SliceCache.get "a.npy" 0 11 (snd probe1) in
  let c1 := SliceCache.set "a.npy" 0 d 12 (snd probe2) in
  let c2 := SliceCache.set "a.npy" 0 d 13 c1 in
  fst probe1 = None /\ fst probe2 = None
  /\ cache c2 = [(getKey "a.npy" 0, {| data := d; lastAccess := 13 |})]
  /\ storedBytes (cache c2) = 4
  /\ currentSizeMB c2 = 8.
Proof. vm_compute. repeat split. Qed.

(** ** [clearForFile] *)

(** C9.  The cache holds one slice of the file named ["a:b"] and none of
    the file named ["a"].  [clearForFile("a")] deletes that slice: its key
    ["a:b:0"] starts with ["a:"]. *)
Theorem C9_clearForFile_other_file_lost :
  let c := SliceCache.set "a:b" 0 (JS.Uint8Array [7]) 10 SliceCache.empty in
  (forall i, peek "a" i c = None)
  /\ peek "a:b" 0 c = Some {| data := JS.Uint8Array [7]; lastAccess := 10 |}
  /\ peek "a:b" 0 (clearForFile "a" c) = None
  /\ clearForFile "a" c = SliceCache.empty.
Proof.
  split; [|vm_compute; repeat split].
  intros i. apply get_None_keys. simpl. intros [Heq|[]].
  apply (KeyFacts.getKey_inj "a:b" "a" 0 i) in Heq as [[=] _].
Qed.

Lemma get_filter_key (keep : string -> bool) (k : string) (m : list (string * Entry)) :
  get k (List.filter (fun kv => keep (fst kv)) m) = if keep k then get k m else None.
Proof.
  induction m as [|[k0 e0] m IH]; simpl; [now destruct (keep k)|].
  destruct (keep k0) eqn:Hk0; simpl; destruct (String.eqb k0 k) eqn:Hk.
  - apply String.eqb_eq in Hk. subst k0. now rewrite Hk0.
  - assumption.
  - apply String.eqb_eq in Hk. subst k0. now rewrite IH, Hk0.
  - assumption.
Qed.

(** What [clearForFile] does to a lookup: the entry is gone when its key
    starts with [fileId + ":"], and is the same entry, timestamp included,
    when it does not. *)
Lemma clearForFile_peek (f f' : string) (i : Z) c :
  wf c ->
  peek f' i (clearForFile f c) =
  if key_of_file f (getKey f' i) then None else peek f' i c.
Proof.
  intros Hwf. rewrite clearForFile_spec by apply Hwf. unfold peek. simpl.
  rewrite (get_filter_key (fun k => negb (key_of_file f k))).
  now destruct (key_of_file f (getKey f' i)).
Qed.

(** Among files whose names contain no colon, [clearForFile] removes the
    slices of its file and leaves every other slice as it was. *)
Lemma clearForFile_colon_free (f f' : string) (i : Z) c :
  wf c -> colon_free f = true -> colon_free f' = true ->
  peek f' i (clearForFile f c) = if String.eqb f' f then None else peek f' i c.
Proof.
  intros Hwf Hf Hf'. rewrite clearForFile_peek by assumption.
  now rewrite KeyFacts.key_of_file_getKey.
Qed.

(** Clearing a file none of whose keys is cached changes nothing. *)
Lemma clearForFile_noop (f : string) c :
  wf c -> (forall k, In k (keys (cache c)) -> key_of_file f k = false) ->
  clearForFile f c = c.
Proof.
  intros Hwf Hnone. rewrite clearForFile_spec by apply Hwf.
  assert (List.filter (of_file f) (cache c) = [] /\
          List.filter (fun kv => negb (of_file f kv)) (cache c) = cache c) as [-> ->].
  { induction (cache c) as [|[k e] m IH]; [now split|].
    assert (of_file f (k, e) = false) as Hk by (apply Hnone; now left).
    cbn [List.filter]. rewrite Hk. cbn [negb].
    destruct IH as [-> ->]; [|now split]. intros k' Hin. apply Hnone. now right. }
  destruct c as [m total]. simpl. f_equal. lia.
Qed.

(** ** Probing with [get] *)

Lemma untimed_touch (k : string) (e : Entry) (now : Z) (m : list (string * Entry)) :
  get k m = Some e -> map untimed (set k (touch now e) m) = map untimed m.
Proof.
  induction m as [|[k0 e0] m IH]; simpl; [discriminate|].
  destruct (String.eqb k0 k); simpl.
  - now intros [= ->].
  - intros H. now rewrite IH.
Qed.

Lemma In_set_ne (k k' : string) (v e' : Entry) (m : list (string * Entry)) :
  k' <> k -> In (k', e') m -> In (k', e') (set k v m).
Proof.
  intros Hne. induction m as [|[k0 e0] m IH]; simpl; [tauto|].
  destruct (String.eqb k0 k) eqn:Hk; simpl.
  - apply String.eqb_eq in Hk. subst k0.
    intros [[= <- <-]|Hin]; [congruence | now right].
  - intros [Heq|Hin]; [now left | right; now apply IH].
Qed.

(** After a hit at time [now], the entry outlives the next eviction as
    soon as some other entry was last used before [now]. *)
Lemma hit_survives_eviction (f : string) (i now : Z) c (e e' : Entry) (k' : string) :
  wf c -> peek f i c = Some e ->
  In (k', e') (cache c) -> k' <> getKey f i -> lastAccess e' < now ->
  peek f i (evictLRU (snd (SliceCache.get f i now c))) = Some (touch now e).
Proof.
  intros Hwf Hhit Hin Hne Hlt. unfold peek in *.
  pose proof (get_wf f i now c Hwf) as Hwf'.
  pose proof (get_cache f i now c) as Hc. rewrite Hhit in Hc.
  set (c' := snd (SliceCache.get f i now c)) in *.
  assert (get (getKey f i) (cache c') = Some (touch now e)) as Hget'
    by (rewrite Hc; apply get_set_eq).
  assert (cache c' <> []) as Hnonempty by (intros H; rewrite H in Hget'; discriminate).
  destruct (evictLRU_spec c' Hwf' Hnonempty) as (kv & ev & _ & Hgetv & Hmin & ->).
  simpl. destruct (String.eqb_spec kv (getKey f i)) as [->|Hkv].
  - exfalso. rewrite Hget' in Hgetv. injection Hgetv as <-.
    assert (In (k', e') (cache c')) as Hin' by (rewrite Hc; now apply In_set_ne).
    specialize (Hmin _ _ Hin'). simpl in Hmin. lia.
  - now rewrite get_delete_ne.
Qed.

(** ** Which entry a forcing [set] evicts *)

Lemma sizeMB_of_zeros (n : Z) : 0 <= n -> sizeMB_of (zeros n) = n.
Proof.
  intros Hn. unfold sizeMB_of, JS.byteLength, zeros, JS.length, JS.BYTES_PER_ELEMENT.
  rewrite repeat_length, Z2Nat.id by assumption. lia.
Qed.

Lemma must_evict_fits (sizeMB : Z) c :
  currentSizeMB c + sizeMB <= 256 * (1024 * 1024) -> must_evict sizeMB c = false.
Proof.
  intros H. unfold must_evict, SLICE_CACHE_SIZE_MB, MB.
  apply andb_false_iff. left. apply Z.ltb_ge. lia.
Qed.

Lemma must_evict_over (sizeMB : Z) c :
  256 * (1024 * 1024) < currentSizeMB c + sizeMB -> cache c <> [] ->
  must_evict sizeMB c = true.
Proof.
  intros H Hne. unfold must_evict, SLICE_CACHE_SIZE_MB, MB, size.
  apply andb_true_iff. split; apply Z.ltb_lt; [lia|].
  destruct (cache c); [congruence | simpl; lia].
Qed.

(** One round of the loop is enough when the cache fits after it. *)
Lemma set_evicts_once f (i : Z) (d : SliceData) (now : Z) c :
  must_evict (sizeMB_of d) c = true ->
  must_evict (sizeMB_of d) (evictLRU c) = false ->
  SliceCache.set f i d now c =
  {| cache := set (getKey f i) {| data := d; lastAccess := now |} (cache (evictLRU c));
     currentSizeMB := currentSizeMB (evictLRU c) + sizeMB_of d |}.
Proof.
  intros Hm Hm'. unfold SliceCache.set.
  destruct (List.length (cache c)) as [|n] eqn:Hlen.
  - unfold must_evict, size in Hm. rewrite Hlen in Hm. simpl in Hm.
    rewrite andb_false_r in Hm. discriminate.
  - simpl. rewrite Hm. destruct n; simpl; [reflexivity | now rewrite Hm'].
Qed.

Section ThreeEntries.
Variables (kA kB kC : string) (eA eB eC : Entry) (total : Z).
Hypotheses (HA : kA <> ""%string) (HB : kB <> ""%string).
Hypotheses (HAB : kA <> kB) (HAC : kA <> kC) (HBC : kB <> kC).

Let c3 : SliceCache.t :=
  {| cache := [(kA, eA); (kB, eB); (kC, eC)]; currentSizeMB := total |}.

(** The first entry goes when no later one is strictly older. *)
Lemma evict_first_of_three :
  lastAccess eA <= lastAccess eB -> lastAccess eA <= lastAccess eC ->
  evictLRU c3 =
  {| cache := [(kB, eB); (kC, eC)];
     currentSizeMB := total - sizeMB_of (data eA) |}.
Proof.
  intros HleB HleC.
  assert ((lastAccess eB <? lastAccess eA) = false) as H1 by (apply Z.ltb_ge; lia).
  assert ((lastAccess eC <? lastAccess eA) = false) as H2 by (apply Z.ltb_ge; lia).
  assert (String.eqb kB kA = false) as H3 by (apply String.eqb_neq; congruence).
  assert (String.eqb kC kA = false) as H4 by (apply String.eqb_neq; congruence).
  unfold evictLRU, oldest, c3, delete.
  cbn -[key_truthy String.eqb Z.ltb]. rewrite H1.
  cbn -[key_truthy String.eqb Z.ltb]. rewrite H2.
  cbn -[key_truthy String.eqb Z.ltb].
  rewrite key_truthy_nonempty by assumption.
  rewrite ?String.eqb_refl, ?H3, ?H4.
  cbn -[key_truthy String.eqb Z.ltb].
  rewrite ?String.eqb_refl, ?H3, ?H4. reflexivity.
Qed.

(** The second entry goes when it is strictly older than the first and
    no older than the third. *)
Lemma evict_second_of_three :
  lastAccess eB < lastAccess eA -> lastAccess eB <= lastAccess eC ->
  evictLRU c3 =
  {| cache := [(kA, eA); (kC, eC)];
     currentSizeMB := total - sizeMB_of (data eB) |}.
Proof.
  intros HltA HleC.
  assert ((lastAccess eB <? lastAccess eA) = true) as H1 by (apply Z.ltb_lt; lia).
  assert ((lastAccess eC <? lastAccess eB) = false) as H2 by (apply Z.ltb_ge; lia).
  assert (String.eqb kA kB = false) as H3 by (apply String.eqb_neq; congruence).
  assert (String.eqb kC kB = false) as H4 by (apply String.eqb_neq; congruence).
  unfold evictLRU, oldest, c3, delete.
  cbn -[key_truthy String.eqb Z.ltb]. rewrite H1.
  cbn -[key_truthy String.eqb Z.ltb]. rewrite H2.
  cbn -[key_truthy String.eqb Z.ltb].
  rewrite key_truthy_nonempty by assumption.
  rewrite ?String.eqb_refl, ?H3, ?H4.
  cbn -[key_truthy String.eqb Z.ltb].
  rewrite ?String.eqb_refl, ?H3, ?H4. reflexivity.
Qed.
End ThreeEntries.

Section Scenario.
Variables (fA fB fC fD : string) (iA iB iC iD : Z).
Variables (dA dB dC dD : SliceData) (tA tB tC tD : Z).

Let kA := getKey fA iA.
Let kB := getKey fB iB.
Let kC := getKey fC iC.
Let kD := getKey fD iD.
Let limit := 256 * (1024 * 1024).

Hypotheses (HAB : kA <> kB) (HAC : kA <> kC) (HBC : kB <> kC).
Hypotheses (HDA : kD <> kA) (HDB : kD <> kB) (HDC : kD <> kC).
Hypothesis Hfit : sizeMB_of dA + sizeMB_of dB + sizeMB_of dC <= limit.
Hypothesis Hover : limit < sizeMB_of dA + sizeMB_of dB + sizeMB_of dC + sizeMB_of dD.

Let c3 : SliceCache.t :=
  SliceCache.set fC iC dC tC
    (SliceCache.set fB iB dB tB (SliceCache.set fA iA dA tA SliceCache.empty)).

(** Three insertions that fit evict nothing. *)
Lemma three_inserted :
  c3 = {| cache := [(kA, {| data := dA; lastAccess := tA |});
                    (kB, {| data := dB; lastAccess := tB |});
                    (kC, {| data := dC; lastAccess := tC |})];
          currentSizeMB := 0 + sizeMB_of dA + sizeMB_of dB + sizeMB_of dC |}.
Proof.
  pose proof (sizeMB_of_nonneg dA). pose proof (sizeMB_of_nonneg dB).
  pose proof (sizeMB_of_nonneg dC).
  unfold c3. rewrite (set_fits fA) by (apply must_evict_fits; simpl; unfold limit in *; lia).
  rewrite (set_fits fB) by (apply must_evict_fits; simpl; unfold limit in *; lia).
  rewrite (set_fits fC) by (apply must_evict_fits; simpl; unfold limit in *; lia).
  assert (String.eqb kA kB = false) as H2 by (apply String.eqb_neq; congruence).
  assert (String.eqb kA kC = false) as H3 by (apply String.eqb_neq; congruence).
  assert (String.eqb kB kC = false) as H4 by (apply String.eqb_neq; congruence).
  cbn -[String.eqb getKey sizeMB_of]. fold kA kB kC.
  rewrite H2. cbn -[String.eqb getKey sizeMB_of]. fold kA kB kC.
  rewrite H3. cbn -[String.eqb getKey sizeMB_of]. fold kA kB kC.
  rewrite H4. reflexivity.
Qed.

(** With no [get] in between, the forcing [set] evicts the first entry
    inserted, equal timestamps included. *)
Lemma forcing_set_evicts_first :
  tA <= tB -> tA <= tC ->
  sizeMB_of dB + sizeMB_of dC + sizeMB_of dD <= limit ->
  cache (SliceCache.set fD iD dD tD c3) =
  [(kB, {| data := dB; lastAccess := tB |});
   (kC, {| data := dC; lastAccess := tC |});
   (kD, {| data := dD; lastAccess := tD |})].
Proof.
  intros HtB HtC Hone. rewrite three_inserted.
  pose proof (evict_first_of_three kA kB kC
                {| data := dA; lastAccess := tA |}
                {| data := dB; lastAccess := tB |}
                {| data := dC; lastAccess := tC |}
                (0 + sizeMB_of dA + sizeMB_of dB + sizeMB_of dC)
                (getKey_nonempty _ _) HAB HAC HtB HtC) as Hev.
  simpl in Hev.
  rewrite set_evicts_once.
  - assert (String.eqb kB kD = false) as H1 by (apply String.eqb_neq; congruence).
    assert (String.eqb kC kD = false) as H2 by (apply String.eqb_neq; congruence).
    rewrite Hev. cbn -[String.eqb getKey sizeMB_of]. fold kD.
    rewrite H1. cbn -[String.eqb getKey sizeMB_of]. fold kD.
    rewrite H2. reflexivity.
  - apply must_evict_over; simpl; [unfold limit in *; lia | discriminate].
  - rewrite Hev. apply must_evict_fits. simpl. unfold limit in *. lia.
Qed.

(** After a [get] on the first entry at time [tG]. *)
Let c3' (tG : Z) : SliceCache.t := snd (SliceCache.get fA iA tG c3).

Lemma get_first_hits (tG : Z) :
  SliceCache.get fA iA tG c3 =
  (Some dA,
   {| cache := [(kA, {| data := dA; lastAccess := tG |});
                (kB, {| data := dB; lastAccess := tB |});
                (kC, {| data := dC; lastAccess := tC |})];
      currentSizeMB := 0 + sizeMB_of dA + sizeMB_of dB + sizeMB_of dC |}).
Proof.
  rewrite three_inserted. unfold SliceCache.get.
  cbn -[String.eqb getKey sizeMB_of]. fold kA. rewrite String.eqb_refl.
  cbn -[String.eqb getKey sizeMB_of]. fold kA. rewrite ?String.eqb_refl.
  reflexivity.
Qed.

(** The [get] moves the eviction to the second entry when the clock has
    passed the second entry's timestamp. *)
Lemma forcing_set_after_get_evicts_second (tG : Z) :
  tB < tG -> tB <= tC ->
  sizeMB_of dA + sizeMB_of dC + sizeMB_of dD <= limit ->
  cache (SliceCache.set fD iD dD tD (c3' tG)) =
  [(kA, {| data := dA; lastAccess := tG |});
   (kC, {| data := dC; lastAccess := tC |});
   (kD, {| data := dD; lastAccess := tD |})].
Proof.
  intros HtG HtC Hone. unfold c3'. rewrite get_first_hits. cbn [snd].
  pose proof (evict_second_of_three kA kB kC
                {| data := dA; lastAccess := tG |}
                {| data := dB; lastAccess := tB |}
                {| data := dC; lastAccess := tC |}
                (0 + sizeMB_of dA + sizeMB_of dB + sizeMB_of dC)
                (getKey_nonempty _ _) HAB HBC HtG HtC) as Hev.
  simpl in Hev.
  rewrite set_evicts_once.
  - assert (String.eqb kA kD = false) as H1 by (apply String.eqb_neq; congruence).
    assert (String.eqb kC kD = false) as H2 by (apply String.eqb_neq; congruence).
    rewrite Hev. cbn -[String.eqb getKey sizeMB_of]. fold kD.
    rewrite H1. cbn -[String.eqb getKey sizeMB_of]. fold kD.
    rewrite H2. reflexivity.
  - apply must_evict_over; simpl; [unfold limit in *; lia | discriminate].
  - rewrite Hev. apply must_evict_fits. simpl. unfold limit in *. lia.
Qed.

(** The [get] changes nothing about the victim when its clock reading is
    no later than the timestamps of the other two entries. *)
Lemma forcing_set_after_get_tie (tG : Z) :
  tG <= tB -> tG <= tC ->
  sizeMB_of dB + sizeMB_of dC + sizeMB_of dD <= limit ->
  cache (SliceCache.set fD iD dD tD (c3' tG)) =
  [(kB, {| data := dB; lastAccess := tB |});
   (kC, {| data := dC; lastAccess := tC |});
   (kD, {| data := dD; lastAccess := tD |})].
Proof.
  intros HtB HtC Hone. unfold c3'. rewrite get_first_hits. cbn [snd].
  pose proof (evict_first_of_three kA kB kC
                {| data := dA; lastAccess := tG |}
                {| data := dB; lastAccess := tB |}
                {| data := dC; lastAccess := tC |}
                (0 + sizeMB_of dA + sizeMB_of dB + sizeMB_of dC)
                (getKey_nonempty _ _) HAB HAC HtB HtC) as Hev.
  simpl in Hev.
  rewrite set_evicts_once.
  - assert (String.eqb kB kD = false) as H1 by (apply String.eqb_neq; congruence).
    assert (String.eqb kC kD = false) as H2 by (apply String.eqb_neq; congruence).
    rewrite Hev. cbn -[String.eqb getKey sizeMB_of]. fold kD.
    rewrite H1. cbn -[String.eqb getKey sizeMB_of]. fold kD.
    rewrite H2. reflexivity.
  - apply must_evict_over; simpl; [unfold limit in *; lia | discriminate].
  - rewrite Hev. apply must_evict_fits. simpl. unfold limit in *. lia.
Qed.
End Scenario.

Lemma getKey_ne (f f' : string) (i i' : Z) :
  (f, i) <> (f', i') -> getKey f i <> getKey f' i'.
Proof.
  intros Hne Heq. apply KeyFacts.getKey_inj in Heq as [-> ->]. now apply Hne.
Qed.

(** C6, corrected statement.  Slices A, B, C are put into the empty cache in this
    order, at clock readings [tA <= tB <= tC], and fit the budget together;
    a fourth slice D does not fit with them.
    - With no [get] in between, if D fits once A is gone, the [set] of D
      evicts A and nothing else: the cache holds B, C, D.
    - A [get] on A is a hit and stamps A with its clock reading [tG].  If
      [tB < tG], and D fits once B is gone, the [set] of D then evicts B and
      nothing else: the cache holds A (stamped [tG]), C, D. *)
Theorem C6_lru_eviction_order
    (fA fB fC fD : string) (iA iB iC iD : Z)
    (dA dB dC dD : SliceData) (tA tB tC tD : Z) :
  let limit := 256 * (1024 * 1024) in
  let c3 :=
    SliceCache.set fC iC dC tC
      (SliceCache.set fB iB dB tB (SliceCache.set fA iA dA tA SliceCache.empty)) in
  (fA, iA) <> (fB, iB) -> (fA, iA) <> (fC, iC) -> (fB, iB) <> (fC, iC) ->
  (fD, iD) <> (fA, iA) -> (fD, iD) <> (fB, iB) -> (fD, iD) <> (fC, iC) ->
  tA <= tB -> tB <= tC ->
  sizeMB_of dA + sizeMB_of dB + sizeMB_of dC <= limit ->
  limit < sizeMB_of dA + sizeMB_of dB + sizeMB_of dC + sizeMB_of dD ->
  (sizeMB_of dB + sizeMB_of dC + sizeMB_of dD <= limit ->
   cache (SliceCache.set fD iD dD tD c3) =
   [(getKey fB iB, {| data := dB; lastAccess := tB |});
    (getKey fC iC, {| data := dC; lastAccess := tC |});
    (getKey fD iD, {| data := dD; lastAccess := tD |})])
  /\ (forall tG : Z,
        tB < tG ->
        sizeMB_of dA + sizeMB_of dC + sizeMB_of dD <= limit ->
        fst (SliceCache.get fA iA tG c3) = Some dA
        /\ cache (SliceCache.set fD iD dD tD (snd (SliceCache.get fA iA tG c3))) =
           [(getKey fA iA, {| data := dA; lastAccess := tG |});
            (getKey fC iC, {| data := dC; lastAccess := tC |});
            (getKey fD iD, {| data := dD; lastAccess := tD |})]).
Proof.
  intros limit c3 HAB HAC HBC HDA HDB HDC HtAB HtBC Hfit Hover.
  apply getKey_ne in HAB, HAC, HBC, HDA, HDB, HDC.
  split.
  - intros Hone. apply forcing_set_evicts_first; trivial. lia.
  - intros tG HtG Hone. split.
    + unfold c3. now rewrite get_first_hits.
    + now apply forcing_set_after_get_evicts_second.
Qed.

(** C6, where the specification's wording fails.  Four slices of 80 MiB each, every
    clock reading equal to [0] (the calls fall into one millisecond).  A, B,
    C are put, then A is read with [get] (a hit), then D is put and forces
    one eviction.  The victim is still A: B stays in the cache. *)
Lemma C6_get_within_same_millisecond :
  let d := zeros (80 * (1024 * 1024)) in
  let c3 :=
    SliceCache.set "f" 2 d 0
      (SliceCache.set "f" 1 d 0 (SliceCache.set "f" 0 d 0 SliceCache.empty)) in
  let c4 := SliceCache.set "f" 3 d 0 (snd (SliceCache.get "f" 0 0 c3)) in
  keys (cache c3) = [getKey "f" 0; getKey "f" 1; getKey "f" 2]
  /\ fst (SliceCache.get "f" 0 0 c3) = Some d
  /\ cache c4 =
     [(getKey "f" 1, {| data := d; lastAccess := 0 |});
      (getKey "f" 2, {| data := d; lastAccess := 0 |});
      (getKey "f" 3, {| data := d; lastAccess := 0 |})]
  /\ peek "f" 0 c4 = None
  /\ peek "f" 1 c4 = Some {| data := d; lastAccess := 0 |}.
Proof.
  intros d c3 c4.
  assert (sizeMB_of d = 80 * (1024 * 1024)) as Hd by (apply sizeMB_of_zeros; lia).
  assert (forall i j : Z, i <> j -> getKey "f" i <> getKey "f" j) as Hk.
  { intros i j Hij. apply getKey_ne. congruence. }
  assert (cache c4 =
          [(getKey "f" 1, {| data := d; lastAccess := 0 |});
           (getKey "f" 2, {| data := d; lastAccess := 0 |});
           (getKey "f" 3, {| data := d; lastAccess := 0 |})]) as Hc4.
  { unfold c4, c3. apply forcing_set_after_get_tie;
      try (apply Hk; lia); rewrite ?Hd; lia. }
  split; [|split; [|split; [assumption|split]]].
  - unfold c3. rewrite three_inserted; [reflexivity | try (apply Hk; lia) ..].
    rewrite ?Hd; lia.
  - unfold c3. rewrite get_first_hits; [reflexivity | try (apply Hk; lia) ..].
    rewrite ?Hd; lia.
  - unfold peek. rewrite Hc4. cbn -[String.eqb getKey].
    rewrite !(proj2 (String.eqb_neq _ _)) by (apply Hk; lia). reflexivity.
  - unfold peek. rewrite Hc4. cbn -[String.eqb getKey].
    now rewrite String.eqb_refl.
Qed.

(** A run of C6: 80 MiB slices put at times 1, 2, 3; D
    put at time 5; the [get] on A at time 4. *)
Lemma C6_lru_eviction_order_witness :
  let d := zeros (80 * (1024 * 1024)) in
  let c3 :=
    SliceCache.set "f" 2 d 3
      (SliceCache.set "f" 1 d 2 (SliceCache.set "f" 0 d 1 SliceCache.empty)) in
  cache (SliceCache.set "f" 3 d 5 c3) =
    [(getKey "f" 1, {| data := d; lastAccess := 2 |});
     (getKey "f" 2, {| data := d; lastAccess := 3 |});
     (getKey "f" 3, {| data := d; lastAccess := 5 |})]
  /\ cache (SliceCache.set "f" 3 d 5 (snd (SliceCache.get "f" 0 4 c3))) =
    [(getKey "f" 0, {| data := d; lastAccess := 4 |});
     (getKey "f" 2, {| data := d; lastAccess := 3 |});
     (getKey "f" 3, {| data := d; lastAccess := 5 |})].
Proof.
  intros d c3.
  assert (sizeMB_of d = 80 * (1024 * 1024)) as Hd by (apply sizeMB_of_zeros; lia).
  destruct (C6_lru_eviction_order "f" "f" "f" "f" 0 1 2 3 d d d d 1 2 3 5)
    as [Hfirst Hsecond]; try congruence; try lia; try (rewrite ?Hd; lia).
  split.
  - apply Hfirst. rewrite ?Hd. lia.
  - apply (Hsecond 4); [lia | rewrite ?Hd; lia].
Defined.

End CacheTheorems.

(* ===================================================================== *)
(** * The cache: probing for a slice without reading it *)
(* ===================================================================== *)

Module ProbeTheorems.
Import SliceCache JSMap JSMapFacts KeyFacts SliceCacheFacts.

(** ** The victim of [evictLRU], by position *)

(** Entries that are not older than the oldest so far leave it in place. *)
Lemma fold_keeps (m : list (string * Entry)) (k0 : string) (t0 : Z) :
  (forall k' e', In (k', e') m -> t0 <= lastAccess e') ->
  fold_left oldest_step m (Some k0, Some t0) = (Some k0, Some t0).
Proof.
  induction m as [|[k1 e1] m IH]; intros Hmin; [reflexivity|].
  simpl. assert (t0 <= lastAccess e1) as Hle by (apply (Hmin k1); now left).
  apply Z.ltb_ge in Hle. rewrite Hle. apply IH.
  intros k' e' Hin. apply (Hmin k'). now right.
Qed.

(** The first entry that is older than every entry before it and not
    younger than any entry after it is the one [evictLRU] picks. *)
Lemma oldest_at (pre post : list (string * Entry)) (k : string) (e : Entry) :
  (forall k' e', In (k', e') pre -> lastAccess e < lastAccess e') ->
  (forall k' e', In (k', e') post -> lastAccess e <= lastAccess e') ->
  oldest (pre ++ (k, e) :: post) = Some k.
Proof.
  intros Hpre Hpost. unfold oldest. rewrite fold_left_app. cbn [fold_left].
  assert (oldest_step (fold_left oldest_step pre (None, None)) (k, e)
          = (Some k, Some (lastAccess e))) as ->.
  { destruct pre as [|[k1 e1] pre]; [reflexivity|]. simpl.
    destruct (fold_oldest pre k1 (lastAccess e1)) as (k2 & t2 & -> & _ & _ & Hwho).
    simpl.
    assert (lastAccess e < t2) as Hlt.
    { destruct Hwho as [[_ ->]|(e2 & Hin & <-)].
      - apply (Hpre k1). now left.
      - apply (Hpre k2). now right. }
    apply Z.ltb_lt in Hlt. now rewrite Hlt. }
  now rewrite fold_keeps.
Qed.

Lemma set_middle (k : string) (e v : Entry) (pre post : list (string * Entry)) :
  ~ In k (keys pre) ->
  set k v (pre ++ (k, e) :: post) = pre ++ (k, v) :: post.
Proof.
  induction pre as [|[k1 e1] pre IH]; intros Hnotin; simpl.
  - now rewrite String.eqb_refl.
  - destruct (String.eqb_spec k1 k) as [->|Hne]; [exfalso; apply Hnotin; now left|].
    rewrite IH; [reflexivity|]. intros Hin. apply Hnotin. now right.
Qed.

(** ** The probe *)

(** A probe that reads a clock no later than the timestamps around the
    entry makes the entry the next victim. *)
Lemma hit_is_evicted (f : string) (i now : Z) (c : SliceCache.t) (e : Entry)
    (pre post : list (string * Entry)) :
  wf c ->
  cache c = pre ++ (getKey f i, e) :: post ->
  (forall k' e', In (k', e') pre -> now < lastAccess e') ->
  (forall k' e', In (k', e') post -> now <= lastAccess e') ->
  peek f i (evictLRU (snd (SliceCache.get f i now c))) = None.
Proof.
  intros Hwf Hsplit Hpre Hpost.
  pose proof (get_wf f i now c Hwf) as Hwf'.
  assert (get (getKey f i) (cache c) = Some e) as Hhit.
  { apply NoDup_keys_get; [apply Hwf|]. rewrite Hsplit. apply in_or_app. right. now left. }
  assert (~ In (getKey f i) (keys pre)) as Hnotin.
  { destruct Hwf as [Hnd _ _]. rewrite Hsplit in Hnd. unfold keys in *.
    rewrite map_app in Hnd. apply NoDup_app in Hnd as (_ & Hdisj & _).
    intros Hin. apply list_elem_of_In in Hin. apply (Hdisj _ Hin).
    simpl. left. }
  assert (cache (snd (SliceCache.get f i now c))
          = pre ++ (getKey f i, touch now e) :: post) as Hc.
  { rewrite get_cache, Hhit, Hsplit. now apply set_middle. }
  set (c1 := snd (SliceCache.get f i now c)) in *.
  destruct (evictLRU_spec c1 Hwf') as (kv & ev & Hold & _ & _ & ->).
  { rewrite Hc. now destruct pre. }
  rewrite Hc, (oldest_at pre post (getKey f i) (touch now e) Hpre Hpost) in Hold.
  injection Hold as <-. unfold peek. simpl. apply get_delete_eq.
Qed.

Lemma get_probe_outcome (f : string) (i now : Z) (c : SliceCache.t) :
  wf c -> probe_outcome f i now c (SliceCache.get f i now c).
Proof.
  intros Hwf. unfold probe_outcome.
  split; [|split; [|split; [|split; [|split; [|split; [|split]]]]]].
  - unfold SliceCache.get, peek. now destruct (get (getKey f i) (cache c)).
  - rewrite get_cache. destruct (get (getKey f i) (cache c)) eqn:Hget; [|reflexivity].
    now apply CacheTheorems.untimed_touch.
  - apply get_currentSizeMB.
  - intros e Hhit. unfold peek in *. rewrite get_cache, Hhit. apply get_set_eq.
  - intros Hmiss. unfold SliceCache.get, peek in *. now rewrite Hmiss.
  - intros f' i' Hne. unfold peek. rewrite get_cache.
    destruct (get (getKey f i) (cache c)) eqn:Hget; [|reflexivity].
    now apply get_set_ne.
  - intros e k' e' Hhit Hin Hne Hlt.
    now rewrite (CacheTheorems.hit_survives_eviction f i now c e e' k').
  - intros e pre post. now apply hit_is_evicted.
Qed.

(** C10, corrected statement.  [getCachedSlice(t)], for both kinds of
    dataset, returns what the cache holds under the dataset's file and [t]
    without calling the reader (for the NetCDF dataset the outcome is the same
    whatever its reader and shape are; the NPY variant does not receive its
    readers at all); it leaves the keys, the slices and the running total as
    they were; on a hit it sets that entry's [lastAccess] to the clock
    reading.  The entry so stamped is passed over by the next eviction when
    another entry has a timestamp strictly before that reading.  It is the
    next one evicted when every entry before it in the order of the [Map] has
    a later timestamp and no entry after it an earlier one, as when the probe
    reads the same millisecond as the other entries, or a clock that stepped
    back. *)
Theorem C10_getCachedSlice_probe
    {E File DataType : Type}
    (nc : NetCDFLazyDataset.t E) (np : NpyLazyDataset.t File DataType)
    (i now : Z) (c : SliceCache.t) :
  wf c ->
  probe_outcome (NetCDFLazyDataset.filename nc) i now c
    (NetCDFLazyDataset.getCachedSlice nc i now c)
  /\ (forall nc' : NetCDFLazyDataset.t E,
        NetCDFLazyDataset.filename nc' = NetCDFLazyDataset.filename nc ->
        NetCDFLazyDataset.getCachedSlice nc' i now c
        = NetCDFLazyDataset.getCachedSlice nc i now c)
  /\ probe_outcome (NpyLazyDataset.fileId np) i now c
       (NpyLazyDataset.getCachedSlice np i now c).
Proof.
  intros Hwf. split; [|split].
  - now apply get_probe_outcome.
  - intros nc' Hname. unfold NetCDFLazyDataset.getCachedSlice. now rewrite Hname.
  - now apply get_probe_outcome.
Qed.

(** C10, where the specification's wording fails.  A probe does not always
    delay the eviction of the slice it probes.  With A and B cached in the
    same millisecond, a probe of A within that millisecond leaves A the
    victim of the next eviction.  With B cached before A, a probe of A that
    reads a clock that stepped back makes A the victim in the place of B. *)
Lemma C10_probed_slice_is_evicted :
  let nc (filename : string) : NetCDFLazyDataset.t unit :=
    {| NetCDFLazyDataset.filename := filename;
       NetCDFLazyDataset.dataVarName := "illumination";
       NetCDFLazyDataset.shape := (1, 1, 1);
       NetCDFLazyDataset.slice := fun _ _ => Throw tt |} in
  let tie :=
    SliceCache.set "b.nc" 0 (JS.Uint8Array [2]) 7
      (SliceCache.set "a.nc" 0 (JS.Uint8Array [1]) 7 SliceCache.empty) in
  let back :=
    SliceCache.set "a.nc" 0 (JS.Uint8Array [1]) 8
      (SliceCache.set "b.nc" 0 (JS.Uint8Array [2]) 7 SliceCache.empty) in
  fst (NetCDFLazyDataset.getCachedSlice (nc "a.nc") 0 7 tie) = Some (JS.Uint8Array [1])
  /\ peek "a.nc" 0 (evictLRU (snd (NetCDFLazyDataset.getCachedSlice (nc "a.nc") 0 7 tie)))
     = None
  /\ peek "b.nc" 0 (evictLRU (snd (NetCDFLazyDataset.getCachedSlice (nc "a.nc") 0 7 tie)))
     = Some {| data := JS.Uint8Array [2]; lastAccess := 7 |}
  /\ peek "a.nc" 0 (evictLRU back) = Some {| data := JS.Uint8Array [1]; lastAccess := 8 |}
  /\ peek "a.nc" 0 (evictLRU (snd (NetCDFLazyDataset.getCachedSlice (nc "a.nc") 0 5 back)))
     = None.
Proof.
  intros nc tie back. repeat split; reflexivity.
Qed.

(** C10 at work: A and B cached at times 1 and 2, A probed at time 3;
    the next eviction passes A over. *)
Lemma C10_getCachedSlice_probe_witness :
  let c :=
    SliceCache.set "b.nc" 0 (JS.Uint8Array [2]) 2
      (SliceCache.set "a.nc" 0 (JS.Uint8Array [1]) 1 SliceCache.empty) in
  let nc : NetCDFLazyDataset.t unit :=
    {| NetCDFLazyDataset.filename := "a.nc";
       NetCDFLazyDataset.dataVarName := "illumination";
       NetCDFLazyDataset.shape := (1, 1, 1);
       NetCDFLazyDataset.slice := fun _ _ => Throw tt |} in
  let r := NetCDFLazyDataset.getCachedSlice nc 0 3 c in
  fst r = Some (JS.Uint8Array [1])
  /\ peek "a.nc" 0 (snd r) = Some {| data := JS.Uint8Array [1]; lastAccess := 3 |}
  /\ peek "a.nc" 0 (evictLRU (snd r))
     = Some {| data := JS.Uint8Array [1]; lastAccess := 3 |}.
Proof.
  intros c nc r.
  destruct (C10_getCachedSlice_probe (File := unit) (DataType := unit) nc
              {| NpyLazyDataset.file := tt;
                 NpyLazyDataset.metadata :=
                   NpyLazyDataset.mkMetadata 1 1 1 0 1 tt;
                 NpyLazyDataset.fileId := "a.npy" |}
              0 3 c)
    as [(Hres & _ & _ & Hstamp & _ & _ & Hskip & _) _].
  - apply set_wf, set_wf, wf_empty.
  - split; [exact Hres|].
    split; [exact (Hstamp {| data := JS.Uint8Array [1]; lastAccess := 1 |} eq_refl)|].
    apply (Hskip {| data := JS.Uint8Array [1]; lastAccess := 1 |}
                 (getKey "b.nc" 0)
                 {| data := JS.Uint8Array [2]; lastAccess := 2 |}).
    + reflexivity.
    + right. left. reflexivity.
    + discriminate.
    + simpl. lia.
Defined.

End ProbeTheorems.

(* ===================================================================== *)
(** * [packBinaryData]: the bit layout *)
(* ===================================================================== *)

Module PackFacts.

Lemma testbit_or_mask (b : bool) (byte mask k j : Z) :
  mask = 2 ^ k -> 0 <= k ->
  Z.testbit (if b then Z.lor byte mask else byte) j
  = Z.testbit byte j || (b && (k =? j)).
Proof.
  intros -> Hk. destruct b; simpl.
  - now rewrite Z.lor_spec, Z.pow2_bits_eqb.
  - now rewrite orb_false_r.
Qed.

(** Bit [j] of the byte built for the group at [i] is input [i + j]. *)
Lemma pack_byte_bits (data : JS.TypedArray) (i j : Z) :
  0 <= j < 8 -> Z.testbit (pack_byte data i) j = JS.truthy_at data (i + j).
Proof.
  intros Hj. unfold pack_byte. cbv zeta.
  rewrite (testbit_or_mask _ _ 128 7) by (reflexivity || lia).
  rewrite (testbit_or_mask _ _ 64 6) by (reflexivity || lia).
  rewrite (testbit_or_mask _ _ 32 5) by (reflexivity || lia).
  rewrite (testbit_or_mask _ _ 16 4) by (reflexivity || lia).
  rewrite (testbit_or_mask _ _ 8 3) by (reflexivity || lia).
  rewrite (testbit_or_mask _ _ 4 2) by (reflexivity || lia).
  rewrite (testbit_or_mask _ _ 2 1) by (reflexivity || lia).
  rewrite (testbit_or_mask _ _ 1 0) by (reflexivity || lia).
  rewrite Z.testbit_0_l.
  assert (j = 0 \/ j = 1 \/ j = 2 \/ j = 3 \/ j = 4 \/ j = 5 \/ j = 6 \/ j = 7)
    as Hcases by lia.
  destruct Hcases as [->|[->|[->|[->|[->|[->|[->| ->]]]]]]];
    cbn [Z.eqb Pos.eqb];
    rewrite ?andb_false_r, ?andb_true_r, ?orb_false_r, ?orb_false_l, ?Z.add_0_r;
    reflexivity.
Qed.

Lemma ushr3_div (i : Z) : 0 <= i < 2 ^ 32 -> ushr3 i = i / 8.
Proof.
  intros Hi. unfold ushr3. rewrite Z.mod_small by assumption.
  now rewrite Z.shiftr_div_pow2 by lia.
Qed.

Lemma land7_mod (i : Z) : Z.land i 7 = i mod 8.
Proof. change 7 with (Z.ones 3). now rewrite Z.land_ones by lia. Qed.

Lemma truthy_at_outside (data : JS.TypedArray) (i : Z) :
  JS.length data <= i -> JS.truthy_at data i = false.
Proof.
  intros Hi. unfold JS.truthy_at. destruct (i <? 0); [reflexivity|].
  destruct data as [l|l|l|l|l|l|l|l]; simpl in Hi;
    rewrite (proj2 (nth_error_None l (Z.to_nat i))) by lia; reflexivity.
Qed.

(** ** The main loop *)

Lemma main_loop (data : JS.TypedArray) (q : nat) (packed : list Z) :
  8 * Z.of_nat q <= 2 ^ 32 -> (q <= List.length packed)%nat ->
  fold_left (main_loop_body data)
            (map (fun k => 0 + 8 * Z.of_nat k) (seq 0 q)) packed
  = map (fun k => pack_byte data (8 * Z.of_nat k) mod 256) (seq 0 q) ++ drop q packed.
Proof.
  induction q as [|q IH]; intros Hq Hlen.
  - simpl. now rewrite drop_0.
  - rewrite seq_S, !map_app, fold_left_app. simpl.
    rewrite IH by lia.
    unfold main_loop_body, store_u8.
    rewrite ushr3_div by lia.
    replace ((0 + 8 * Z.of_nat q) / 8) with (Z.of_nat q)
      by (rewrite Z.add_0_l, Z.mul_comm, Z.div_mul; lia).
    destruct (Z.of_nat q <? 0) eqn:Hneg; [apply Z.ltb_lt in Hneg; lia|].
    rewrite Nat2Z.id.
    destruct (lookup_lt_is_Some_2 packed q ltac:(lia)) as [x Hx].
    rewrite (drop_S _ _ _ Hx).
    rewrite insert_app_r_alt by (rewrite length_map, length_seq; lia).
    rewrite length_map, length_seq, Nat.sub_diag. simpl.
    now rewrite <- app_assoc.
Qed.

(** ** The loop over the remaining items *)

Lemma tail_loop (data : JS.TypedArray) (Q r : nat) (packed : list Z) :
  let M := 8 * Z.of_nat Q in
  M + Z.of_nat r <= 2 ^ 32 -> (r <= 8)%nat ->
  (Q < List.length packed)%nat ->
  let p := fold_left (tail_loop_body data)
                     (map (fun k => M + 1 * Z.of_nat k) (seq 0 r)) packed in
  List.length p = List.length packed
  /\ (forall b : nat, b <> Q -> p !! b = packed !! b)
  /\ (forall j, 0 <= j < 8 ->
        Z.testbit (nth Q p 0) j
        = Z.testbit (nth Q packed 0) j
          || ((j <? Z.of_nat r) && JS.truthy_at data (M + j))).
Proof.
  intros M. induction r as [|r IH]; intros Hr Hr8 HQ p.
  - subst p. cbn [seq map fold_left]. split; [reflexivity|]. split; [reflexivity|].
    intros j Hj. assert ((j <? Z.of_nat 0) = false) as -> by (apply Z.ltb_ge; lia).
    now rewrite orb_false_r.
  - subst p. rewrite seq_S, map_app, fold_left_app. cbn [Nat.add map fold_left].
    destruct IH as (Hlen & Hother & Hbits); [lia | lia | assumption |].
    set (p := fold_left (tail_loop_body data)
                        (map (fun k => M + 1 * Z.of_nat k) (seq 0 r)) packed) in *.
    replace (M + 1 * Z.of_nat r) with (M + Z.of_nat r) by lia.
    unfold tail_loop_body.
    destruct (JS.truthy_at data (M + Z.of_nat r)) eqn:Ht.
    + assert (ushr3 (M + Z.of_nat r) = Z.of_nat Q) as ->.
      { rewrite ushr3_div by lia. subst M.
        rewrite Z.mul_comm, Z.div_add_l by lia.
        rewrite Z.div_small by lia. lia. }
      assert (Z.land (M + Z.of_nat r) 7 = Z.of_nat r) as ->.
      { rewrite land7_mod. subst M.
        rewrite Z.add_comm, Z.mul_comm, Z.mod_add by lia.
        apply Z.mod_small. lia. }
      unfold store_u8, load_u8.
      destruct (Z.of_nat Q <? 0) eqn:Hneg; [apply Z.ltb_lt in Hneg; lia|].
      rewrite Nat2Z.id, Z.shiftl_1_l.
      split; [now rewrite length_insert|]. split.
      * intros b Hb. rewrite list_lookup_insert_ne by congruence. now apply Hother.
      * intros j Hj.
        erewrite nth_lookup_Some by (apply list_lookup_insert_eq; lia).
        change 256 with (2 ^ 8). rewrite Z.mod_pow2_bits_low by lia.
        rewrite Z.lor_spec, Z.pow2_bits_eqb by lia.
        rewrite Hbits by assumption.
        destruct (Z.eqb_spec (Z.of_nat r) j) as [<-|Hne].
        -- rewrite Ht. assert ((Z.of_nat r <? Z.of_nat (S r)) = true) as ->
             by (apply Z.ltb_lt; lia).
           now rewrite !orb_true_r.
        -- rewrite orb_false_r. f_equal. f_equal.
           destruct (j <? Z.of_nat r) eqn:H1, (j <? Z.of_nat (S r)) eqn:H2;
             try reflexivity;
             [apply Z.ltb_lt in H1; apply Z.ltb_ge in H2
             |apply Z.ltb_ge in H1; apply Z.ltb_lt in H2]; lia.
    + split; [assumption|]. split; [assumption|].
      intros j Hj. rewrite Hbits by assumption. f_equal.
      destruct (Z.eqb_spec (Z.of_nat r) j) as [<-|Hne].
      * rewrite Ht, !andb_false_r. reflexivity.
      * f_equal.
        destruct (j <? Z.of_nat r) eqn:H1, (j <? Z.of_nat (S r)) eqn:H2;
          try reflexivity;
          [apply Z.ltb_lt in H1; apply Z.ltb_ge in H2
          |apply Z.ltb_ge in H1; apply Z.ltb_lt in H2]; lia.
Qed.

(** ** The two loops together *)

Lemma main_range (N : Z) :
  0 <= N ->
  JS.for_range 0 (N - N mod 8) 8
  = map (fun k => 0 + 8 * Z.of_nat k) (seq 0 (Z.to_nat (N / 8))).
Proof.
  intros HN. unfold JS.for_range. do 2 f_equal.
  f_equal. Z.div_mod_to_equations. lia.
Qed.

Lemma tail_range (N : Z) :
  0 <= N ->
  JS.for_range (N - N mod 8) N 1
  = map (fun k => 8 * Z.of_nat (Z.to_nat (N / 8)) + 1 * Z.of_nat k)
        (seq 0 (Z.to_nat (N mod 8))).
Proof.
  intros HN. unfold JS.for_range.
  replace (Z.to_nat ((N - (N - N mod 8) + 1 - 1) / 1)) with (Z.to_nat (N mod 8))
    by (f_equal; rewrite Z.div_1_r; lia).
  apply map_ext. intros k. rewrite Z2Nat.id by (Z.div_mod_to_equations; lia).
  Z.div_mod_to_equations. lia.
Qed.

Lemma packed_length (data : JS.TypedArray) :
  JS.length data < 2 ^ 32 ->
  Z.of_nat (List.length (packBinaryData_bytes data)) = (JS.length data + 7) / 8.
Proof.
  intros Hbound.
  assert (0 <= JS.length data) as HN by (destruct data; simpl; lia).
  set (N := JS.length data) in *.
  assert (0 <= N / 8 /\ 0 <= N mod 8 < 8 /\ (N + 7) / 8 <= N / 8 + 1
          /\ N / 8 <= (N + 7) / 8 /\ N = 8 * (N / 8) + N mod 8
          /\ (0 < N mod 8 -> N / 8 < (N + 7) / 8)) as (H1 & H2 & H3 & H4 & H5 & H6)
    by (Z.div_mod_to_equations; lia).
  unfold packBinaryData_bytes. fold N. cbv zeta.
  rewrite main_range, tail_range by assumption.
  rewrite main_loop by (rewrite ?repeat_length; lia).
  set (P1 := map (fun k => pack_byte data (8 * Z.of_nat k) mod 256)
                 (seq 0 (Z.to_nat (N / 8)))
             ++ drop (Z.to_nat (N / 8)) (repeat 0 (Z.to_nat ((N + 7) / 8)))).
  assert (List.length P1 = Z.to_nat ((N + 7) / 8)) as HP1.
  { subst P1. rewrite length_app, length_map, length_seq, length_drop, repeat_length. lia. }
  destruct (Z.to_nat (N mod 8)) as [|r'] eqn:Hr.
  - simpl. rewrite HP1. lia.
  - destruct (tail_loop data (Z.to_nat (N / 8)) (S r') P1) as (Hlen & _); lia.
Qed.

(** Every bit of every byte: bit [j] of byte [b] is input [8 b + j], and a
    position past the end of the input holds [0]. *)
Lemma packed_bits (data : JS.TypedArray) (b : nat) (j : Z) :
  JS.length data < 2 ^ 32 ->
  (b < List.length (packBinaryData_bytes data))%nat -> 0 <= j < 8 ->
  Z.testbit (nth b (packBinaryData_bytes data) 0) j
  = JS.truthy_at data (8 * Z.of_nat b + j).
Proof.
  intros Hbound Hb Hj.
  pose proof (packed_length data Hbound) as HL.
  assert (0 <= JS.length data) as HN by (destruct data; simpl; lia).
  set (N := JS.length data) in *.
  assert (0 <= N / 8 /\ 0 <= N mod 8 < 8 /\ (N + 7) / 8 <= N / 8 + 1
          /\ N / 8 <= (N + 7) / 8 /\ N = 8 * (N / 8) + N mod 8
          /\ (0 < N mod 8 -> N / 8 < (N + 7) / 8)
          /\ (N mod 8 = 0 -> (N + 7) / 8 = N / 8))
    as (H1 & H2 & H3 & H4 & H5 & H6 & H7)
    by (Z.div_mod_to_equations; lia).
  revert Hb HL. unfold packBinaryData_bytes. fold N. cbv zeta.
  rewrite main_range, tail_range by assumption.
  rewrite main_loop by (rewrite ?repeat_length; lia).
  set (Q := Z.to_nat (N / 8)).
  set (P1 := map (fun k => pack_byte data (8 * Z.of_nat k) mod 256) (seq 0 Q)
             ++ drop Q (repeat 0 (Z.to_nat ((N + 7) / 8)))).
  assert (List.length P1 = Z.to_nat ((N + 7) / 8)) as HP1.
  { subst P1 Q. rewrite length_app, length_map, length_seq, length_drop, repeat_length. lia. }
  assert (forall b', (b' < Q)%nat ->
            P1 !! b' = Some (pack_byte data (8 * Z.of_nat b') mod 256)) as Hmain.
  { intros b' Hb'. subst P1.
    rewrite lookup_app_l by (rewrite length_map, length_seq; lia).
    rewrite list_lookup_fmap, lookup_seq_lt by lia. reflexivity. }
  assert ((Q < List.length P1)%nat -> nth Q P1 0 = 0) as Hzero.
  { intros HQ. subst P1.
    rewrite nth_lookup, lookup_app_r by (rewrite length_map, length_seq; lia).
    rewrite length_map, length_seq, Nat.sub_diag, lookup_drop, Nat.add_0_r.
    destruct (repeat 0 (Z.to_nat ((N + 7) / 8)) !! Q) as [z|] eqn:Hz; [|reflexivity].
    simpl. apply list_elem_of_lookup_2 in Hz. apply list_elem_of_In in Hz.
    now apply repeat_spec in Hz. }
  destruct (Z.to_nat (N mod 8)) as [|r'] eqn:Hr.
  - cbn [seq map fold_left]. intros Hb HL.
    assert (b < Q)%nat as HbQ by (subst Q; lia).
    rewrite (nth_lookup_Some _ _ 0 _ (Hmain b HbQ)).
    change 256 with (2 ^ 8). rewrite Z.mod_pow2_bits_low by lia.
    now apply pack_byte_bits.
  - assert (Q < List.length P1)%nat as HQ by (subst Q; lia).
    destruct (tail_loop data Q (S r') P1) as (Hlen & Hother & Hbits);
      [subst Q; lia | lia | assumption |].
    intros Hb HL. rewrite Hlen in Hb.
    destruct (Nat.eq_dec b Q) as [->|HbQ].
    + rewrite Hbits by assumption. rewrite (Hzero HQ), Z.testbit_0_l. simpl orb.
      replace (8 * Z.of_nat Q) with (N - N mod 8) by (subst Q; lia).
      destruct (j <? Z.of_nat (S r')) eqn:Hjr; [reflexivity|].
      apply Z.ltb_ge in Hjr. symmetry. apply truthy_at_outside. fold N. lia.
    + assert (b < Q)%nat as HbQ' by (subst Q; lia).
      rewrite nth_lookup, (Hother b HbQ), (Hmain b HbQ'). simpl.
      change 256 with (2 ^ 8). rewrite Z.mod_pow2_bits_low by lia.
      now apply pack_byte_bits.
Qed.

(** Each packed byte is an unsigned 8-bit value. *)
Lemma store_u8_range (packed : list Z) (idx v : Z) :
  Forall (fun x => 0 <= x < 256) packed ->
  Forall (fun x => 0 <= x < 256) (store_u8 packed idx v).
Proof.
  intros H. unfold store_u8. destruct (idx <? 0); [assumption|].
  apply Forall_insert; [assumption|]. apply Z.mod_pos_bound. lia.
Qed.

Lemma packed_range (data : JS.TypedArray) :
  Forall (fun x => 0 <= x < 256) (packBinaryData_bytes data).
Proof.
  unfold packBinaryData_bytes. cbv zeta.
  assert (forall (f : list Z -> Z -> list Z) (l : list Z) (p : list Z),
            (forall p i, Forall (fun x => 0 <= x < 256) p ->
                         Forall (fun x => 0 <= x < 256) (f p i)) ->
            Forall (fun x => 0 <= x < 256) p ->
            Forall (fun x => 0 <= x < 256) (fold_left f l p)) as Hfold.
  { intros f l. induction l as [|i l IH]; intros p Hf Hp; simpl; auto. }
  apply Hfold; [|apply Hfold].
  - intros p i Hp. unfold tail_loop_body.
    destruct (JS.truthy_at data i); [now apply store_u8_range | assumption].
  - intros p i Hp. now apply store_u8_range.
  - apply Forall_forall. intros x Hx. apply list_elem_of_In, repeat_spec in Hx. lia.
Qed.

End PackFacts.

(* ===================================================================== *)
(** * Bit packing: the statements *)
(* ===================================================================== *)

Module PackTheorems.
Import PackFacts.

(** On integer arrays "truthy" and "non-zero" agree; on floating arrays
    "truthy" is "non-zero and not [NaN]". *)
Lemma truthy_at_nonzero_at (data : JS.TypedArray) (i : Z) :
  JS.truthy_at data i = true -> nonzero_at data i = true.
Proof.
  unfold JS.truthy_at, nonzero_at. destruct (i <? 0); [discriminate|].
  destruct data as [l|l|l|l|l|l|l|l]; try tauto;
    destruct (nth_error l (Z.to_nat i)) as [[]|]; simpl; congruence.
Qed.

(** C3, corrected statement.  For an input of [N < 2^32] elements,
    [packBinaryData] returns a [Uint8Array] of [ceil(N / 8)] bytes; bit
    [i mod 8] of byte [i / 8] is set exactly when element [i] is truthy (an
    integer other than [0]; a float that is neither a zero nor [NaN]); the
    bits past the end of the input are [0]; and packing
    [1,0,1,1,0,0,0,0,1,1] gives the bytes [13 = 0b00001101] and
    [3 = 0b00000011]. *)
Theorem C3_packBinaryData_layout (data : JS.TypedArray) :
  JS.length data < 2 ^ 32 ->
  let N := JS.length data in
  let bytes := packBinaryData_bytes data in
  packBinaryData data = JS.Uint8Array bytes
  /\ Z.of_nat (List.length bytes) = (N + 7) / 8
  /\ N <= 8 * Z.of_nat (List.length bytes) < N + 8
  /\ (forall i, 0 <= i < N ->
        Z.testbit (nth (Z.to_nat (i / 8)) bytes 0) (i mod 8) = JS.truthy_at data i)
  /\ (forall (b : nat) (j : Z),
        (b < List.length bytes)%nat -> 0 <= j < 8 -> N <= 8 * Z.of_nat b + j ->
        Z.testbit (nth b bytes 0) j = false)
  /\ Forall (fun byte => 0 <= byte < 256) bytes
  /\ packBinaryData (JS.Uint8Array [1; 0; 1; 1; 0; 0; 0; 0; 1; 1])
     = JS.Uint8Array [13; 3].
Proof.
  intros Hbound N bytes.
  pose proof (packed_length data Hbound) as Hlen. fold N bytes in Hlen.
  split; [reflexivity|]. split; [assumption|]. split.
  { rewrite Hlen. Z.div_mod_to_equations. lia. }
  split; [|split; [|split; [apply packed_range | reflexivity]]].
  - intros i Hi. subst bytes.
    rewrite packed_bits; try assumption.
    + f_equal. rewrite Z2Nat.id by (Z.div_mod_to_equations; lia).
      Z.div_mod_to_equations. lia.
    + fold N in Hlen. Z.div_mod_to_equations. lia.
    + Z.div_mod_to_equations. lia.
  - intros b j Hb Hj Hout. subst bytes.
    rewrite packed_bits by assumption. now apply truthy_at_outside.
Qed.

(** C3, where the specification's wording fails: an element [NaN] of a [Float32Array]
    is not zero, yet its bit is left unset. *)
Lemma C3_NaN_is_packed_as_zero :
  ~ (forall (data : JS.TypedArray) (i : Z),
       0 <= i < JS.length data ->
       (Z.testbit (nth (Z.to_nat (i / 8)) (packBinaryData_bytes data) 0) (i mod 8) = true
        <-> nonzero_at data i = true)).
Proof.
  intros Hclaim.
  destruct (Hclaim (JS.Float32Array [S754_nan]) 0) as [_ Hset]; [simpl; lia|].
  specialize (Hset eq_refl). vm_compute in Hset. discriminate.
Qed.

(** Why the bound [N < 2^32]: [i >>> 3] works on the index modulo [2^32].
    With [2^32] zeros followed by a one, the one is input [2^32]; its bit
    lands in byte [0], at the place of input [0]. *)
Lemma packing_wraps (n : nat) :
  Z.of_nat n = 2 ^ 32 ->
  let data := JS.Uint8Array (repeat 0 n ++ [1]) in
  JS.length data = 2 ^ 32 + 1
  /\ JS.truthy_at data 0 = false
  /\ Z.testbit (nth 0 (packBinaryData_bytes data) 0) 0 = true.
Proof.
  intros Hn data.
  assert (JS.length data = 2 ^ 32 + 1) as HN.
  { unfold data, JS.length. rewrite length_app, repeat_length.
    change (List.length [1]) with 1%nat. lia. }
  assert (forall j, 0 <= j < 2 ^ 32 -> JS.truthy_at data j = false) as Hfalse.
  { intros j Hj. unfold JS.truthy_at, data.
    destruct (j <? 0) eqn:Hneg; [reflexivity|].
    rewrite nth_error_app1 by (rewrite repeat_length; lia).
    rewrite nth_error_repeat by lia. reflexivity. }
  assert (JS.truthy_at data (2 ^ 32) = true) as Htrue.
  { unfold JS.truthy_at, data.
    destruct (2 ^ 32 <? 0) eqn:Hneg; [apply Z.ltb_lt in Hneg; lia|].
    rewrite nth_error_app2 by (rewrite repeat_length; lia).
    rewrite repeat_length.
    replace (Z.to_nat (2 ^ 32) - n)%nat with 0%nat by lia. reflexivity. }
  assert (ushr3 (2 ^ 32) = 0) as Hbyte by reflexivity.
  assert (Z.land (2 ^ 32) 7 = 0) as Hbit by reflexivity.
  split; [assumption|]. split; [apply Hfalse; lia|].
  unfold packBinaryData_bytes. cbv zeta.
  set (N := JS.length data) in *. clearbody N.
  assert (N / 8 = 2 ^ 29 /\ N mod 8 = 1 /\ (N + 7) / 8 = 2 ^ 29 + 1)
    as (Hq & Hr & Hl) by (Z.div_mod_to_equations; lia).
  rewrite main_range, tail_range by lia.
  rewrite main_loop by (rewrite ?repeat_length; lia).
  replace (Z.to_nat (N mod 8)) with 1%nat by lia. cbn [seq map fold_left].
  replace (8 * Z.of_nat (Z.to_nat (N / 8)) + 1 * Z.of_nat 0) with (2 ^ 32) by lia.
  unfold tail_loop_body. rewrite Htrue, Hbyte, Hbit.
  unfold store_u8, load_u8. change (0 <? 0) with false. cbv iota.
  change (Z.to_nat 0) with 0%nat.
  match goal with
  | |- context [?A ++ drop ?q ?l] => set (P1 := A ++ drop q l)
  end.
  assert (P1 !! 0%nat = Some 0) as HP1.
  { subst P1. rewrite lookup_app_l by (rewrite length_map, length_seq; lia).
    rewrite list_lookup_fmap, lookup_seq_lt by lia.
    cbn [fmap option_fmap option_map Nat.add Z.of_nat Z.mul].
    unfold pack_byte. rewrite !Hfalse by lia. reflexivity. }
  rewrite (nth_lookup_Some _ _ 0 _ HP1).
  erewrite nth_lookup_Some;
    [|apply list_lookup_insert_eq; eapply lookup_lt_Some; eassumption].
  reflexivity.
Qed.

Lemma packing_wraps_at_2_32 :
  let data := JS.Uint8Array (repeat 0 (Z.to_nat (2 ^ 32)) ++ [1]) in
  JS.length data = 2 ^ 32 + 1
  /\ JS.truthy_at data 0 = false
  /\ Z.testbit (nth 0 (packBinaryData_bytes data) 0) 0 = true.
Proof. apply packing_wraps. apply Z2Nat.id. lia. Qed.

(** A run of C3 on the ten values of the specification: two bytes, and bit
    [1] of byte [1] (input [9]) is set. *)
Lemma C3_packBinaryData_layout_witness :
  let data := JS.Uint8Array [1; 0; 1; 1; 0; 0; 0; 0; 1; 1] in
  Z.of_nat (List.length (packBinaryData_bytes data)) = 2
  /\ Z.testbit (nth (Z.to_nat (9 / 8)) (packBinaryData_bytes data) 0) (9 mod 8) = true.
Proof.
  intros data.
  destruct (C3_packBinaryData_layout data) as (_ & Hlen & _ & Hbit & _).
  - vm_compute. reflexivity.
  - split; [exact Hlen|]. rewrite Hbit; [reflexivity | vm_compute; split; congruence].
Defined.

End PackTheorems.

(* ===================================================================== *)
(** * Pixel time series of the NetCDF dataset *)
(* ===================================================================== *)

Module NetCDFSeries.
Import NetCDFLazyDataset.

Lemma unit_range (n : Z) :
  JS.for_range 0 n 1 = map (fun k => 0 + 1 * Z.of_nat k) (seq 0 (Z.to_nat n)).
Proof.
  unfold JS.for_range. do 3 f_equal. rewrite Z.div_1_r. lia.
Qed.

Lemma length_Array_from (a : JS.TypedArray) :
  Z.of_nat (List.length (JS.Array_from a)) = JS.length a.
Proof. destruct a; simpl; now rewrite ?length_map. Qed.

Lemma at_index_inside (a : JS.TypedArray) (i : Z) :
  0 <= i < JS.length a -> exists v, JS.at_index a i = Some v.
Proof.
  intros Hi. unfold JS.at_index.
  destruct (i <? 0) eqn:Hneg; [apply Z.ltb_lt in Hneg; lia|].
  destruct (nth_error (JS.Array_from a) (Z.to_nat i)) as [v|] eqn:Hv; [eauto|].
  apply nth_error_None in Hv. pose proof (length_Array_from a). lia.
Qed.

(** Filling [new Array(n)] index by index, in ascending order. *)
Lemma fill_in_order {A : Type} (f : Z -> option A) (n k : nat) :
  (k <= n)%nat ->
  fold_left (fun result t => <[Z.to_nat t := f t]> result)
            (map (fun k => 0 + 1 * Z.of_nat k) (seq 0 k))
            (repeat None n)
  = map (fun k => f (Z.of_nat k)) (seq 0 k) ++ repeat None (n - k).
Proof.
  induction k as [|k IH]; intros Hk.
  - simpl. now rewrite Nat.sub_0_r.
  - rewrite seq_S, !map_app, fold_left_app. cbn [Nat.add map fold_left].
    rewrite IH by lia.
    replace (0 + 1 * Z.of_nat k) with (Z.of_nat k) by lia. rewrite Nat2Z.id.
    rewrite insert_app_r_alt by (rewrite length_map, length_seq; lia).
    rewrite length_map, length_seq, Nat.sub_diag.
    replace (n - k)%nat with (S (n - S k)) by lia. simpl.
    now rewrite <- app_assoc.
Qed.

Lemma length_raw_Array_from (rawData : JS.RawData) :
  Z.of_nat (List.length (JS.Raw.Array_from rawData)) = JS.Raw.length rawData.
Proof.
  destruct rawData as [a| |]; simpl; rewrite length_map;
    [apply length_Array_from | reflexivity | reflexivity].
Qed.

Lemma raw_at_index_inside (rawData : JS.RawData) (i : Z) :
  0 <= i < JS.Raw.length rawData -> exists v, JS.Raw.at_index rawData i = Some v.
Proof.
  intros Hi. unfold JS.Raw.at_index.
  destruct (i <? 0) eqn:Hneg; [apply Z.ltb_lt in Hneg; lia|].
  destruct (nth_error (JS.Raw.Array_from rawData) (Z.to_nat i)) as [v|] eqn:Hv; [eauto|].
  apply nth_error_None in Hv. pose proof (length_raw_Array_from rawData). lia.
Qed.

(** On an array of numbers the elements are these numbers. *)
Lemma raw_at_index_Numbers (a : JS.TypedArray) (i : Z) :
  JS.Raw.at_index (JS.Numbers a) i = option_map JS.Number (JS.at_index a i).
Proof.
  unfold JS.Raw.at_index, JS.at_index. destruct (i <? 0); [reflexivity|].
  cbn [JS.Raw.Array_from]. rewrite nth_error_map.
  now destruct (nth_error (JS.Array_from a) (Z.to_nat i)).
Qed.

(** The fallback loop yields, in order, the elements at the strided
    indices. *)
Lemma strided_spec (rawData : JS.RawData) (timeSteps stride offset : Z) :
  strided rawData timeSteps stride offset
  = map (fun k => JS.Raw.at_index rawData (Z.of_nat k * stride + offset))
        (seq 0 (Z.to_nat timeSteps)).
Proof.
  unfold strided. rewrite unit_range.
  rewrite (fill_in_order (fun t => JS.Raw.at_index rawData (t * stride + offset)))
    by apply le_n.
  now rewrite Nat.sub_diag, app_nil_r.
Qed.

(** C5.  The hyperslab read for pixel [(y, x)] returned a buffer whose
    length is not [time].  If the length is [time * height * width],
    [getPixelTimeSeries] returns [time] values, the one at [t] being the
    buffer's element at [t * height * width + y * width + x]; otherwise it
    returns the elements of the buffer as they come.  In both cases it
    returns; it throws only when the read itself throws. *)
Theorem C5_getPixelTimeSeries_fallback
    {E : Type} (ds : NetCDFLazyDataset.t E)
    (time height width y x : Z) (rawData : JS.RawData) :
  shape ds = (time, height, width) ->
  0 <= time -> 0 <= y < height -> 0 <= x < width ->
  slice ds [0; y; x] [time; 1; 1] = Return rawData ->
  JS.Raw.length rawData <> time ->
  (JS.Raw.length rawData = time * height * width ->
   exists result,
     getPixelTimeSeries ds y x = Return result
     /\ Z.of_nat (List.length result) = time
     /\ forall t, 0 <= t < time ->
          exists v,
            result !! Z.to_nat t = Some (Some v)
            /\ JS.Raw.at_index rawData (t * height * width + y * width + x) = Some v)
  /\ (JS.Raw.length rawData <> time * height * width ->
      getPixelTimeSeries ds y x = Return (map Some (JS.Raw.Array_from rawData)))
  /\ (exists result, getPixelTimeSeries ds y x = Return result).
Proof.
  intros Hshape Htime Hy Hx Hread Hlen.
  assert (getPixelTimeSeries ds y x
          = if JS.Raw.length rawData =? time * (height * width)
            then Return (strided rawData time (height * width) (y * width + x))
            else Return (map Some (JS.Raw.Array_from rawData))) as Hcode.
  { unfold getPixelTimeSeries. rewrite Hshape, Hread.
    destruct (Z.eqb_spec (JS.Raw.length rawData) time); [contradiction | reflexivity]. }
  split; [|split].
  - intros Hfull. rewrite Hcode.
    destruct (Z.eqb_spec (JS.Raw.length rawData) (time * (height * width))); [|lia].
    eexists. split; [reflexivity|]. rewrite strided_spec. split.
    + rewrite length_map, length_seq. lia.
    + intros t Ht.
      assert (0 <= y * width + x < height * width) as Hcell by nia.
      assert (0 <= t * (height * width) <= (time - 1) * (height * width)) as Hrow
        by (split; [apply Z.mul_nonneg_nonneg | apply Z.mul_le_mono_nonneg_r]; lia).
      destruct (raw_at_index_inside rawData (t * height * width + y * width + x))
        as [v Hv]; [lia|].
      exists v. split; [|assumption].
      rewrite list_lookup_fmap, lookup_seq_lt by lia. simpl.
      rewrite Z2Nat.id by lia. rewrite <- Hv. do 2 f_equal. lia.
  - intros Hother. rewrite Hcode.
    destruct (Z.eqb_spec (JS.Raw.length rawData) (time * (height * width))); [lia | reflexivity].
  - rewrite Hcode. destruct (JS.Raw.length rawData =? time * (height * width)); eauto.
Qed.

(** A run of C5: a reader that returns the whole [2 x 2 x 2] array
    [0 .. 7] whatever is asked; the series of pixel [(1, 0)] is [2, 6]. *)
Lemma C5_getPixelTimeSeries_fallback_witness :
  let whole := JS.Numbers (JS.Int32Array [0; 1; 2; 3; 4; 5; 6; 7]) in
  let ds : NetCDFLazyDataset.t unit :=
    {| filename := "w.nc"; dataVarName := "elevation"; shape := (2, 2, 2);
       slice := fun _ _ => Return whole |} in
  getPixelTimeSeries ds 1 0
  = Return [Some (JS.Number (JS.number_of_Z 2)); Some (JS.Number (JS.number_of_Z 6))]
  /\ exists result, getPixelTimeSeries ds 1 0 = Return result
                    /\ Z.of_nat (List.length result) = 2.
Proof.
  intros whole ds. split; [reflexivity|].
  destruct (C5_getPixelTimeSeries_fallback ds 2 2 2 1 0 whole)
    as [Hfull _]; try reflexivity; try lia; [discriminate|].
  destruct Hfull as (result & Hres & Hlen & _); [reflexivity|].
  exists result. now split.
Defined.

End NetCDFSeries.

(* ===================================================================== *)
(** * Rounding to a floating-point format *)
(* ===================================================================== *)

Module RoundingFacts.

(** ** The number of binary digits *)

Lemma digits2_size (p : positive) : digits2_pos p = Pos.size p.
Proof. induction p; simpl; congruence. Qed.

Lemma Zdigits2_nonneg (m : Z) : 0 <= Zdigits2 m.
Proof. destruct m; simpl; lia. Qed.

Lemma Zdigits2_bounds (p : positive) :
  2 ^ (Zdigits2 (Zpos p) - 1) <= Zpos p < 2 ^ Zdigits2 (Zpos p).
Proof.
  simpl. rewrite digits2_size. split.
  - pose proof (Pos.size_le p) as Hle.
    assert (Zpos (2 ^ Pos.size p) <= Zpos (p~0)) as Hle' by exact Hle.
    rewrite Pos2Z.inj_pow in Hle'.
    replace (Zpos (Pos.size p)) with (Zpos (Pos.size p) - 1 + 1) in Hle' by lia.
    rewrite Z.pow_add_r in Hle' by lia. lia.
  - pose proof (Pos.size_gt p) as Hgt.
    assert (Zpos p < Zpos (2 ^ Pos.size p)) as Hgt' by exact Hgt.
    now rewrite Pos2Z.inj_pow in Hgt'.
Qed.

Lemma Zdigits2_unique (p : positive) (d : Z) :
  2 ^ (d - 1) <= Zpos p < 2 ^ d -> Zdigits2 (Zpos p) = d.
Proof.
  intros [Hlo Hhi]. pose proof (Zdigits2_bounds p) as [Hlo' Hhi'].
  pose proof (Zdigits2_nonneg (Zpos p)) as Hd.
  assert (0 < Zdigits2 (Zpos p)) as Hpos by (simpl; lia).
  assert (0 < d) as Hdpos.
  { destruct (Z_lt_le_dec 0 d) as [H|H]; [exact H|exfalso].
    destruct (Z.eq_dec d 0) as [->|Hne]; [simpl in Hhi; lia|].
    rewrite Z.pow_neg_r in Hhi by lia. lia. }
  destruct (Z.lt_trichotomy (Zdigits2 (Zpos p)) d) as [Hlt|[Heq|Hgt]]; [|exact Heq|].
  - exfalso.
    assert (2 ^ Zdigits2 (Zpos p) <= 2 ^ (d - 1)) by (apply Z.pow_le_mono_r; lia).
    lia.
  - exfalso.
    assert (2 ^ d <= 2 ^ (Zdigits2 (Zpos p) - 1)) by (apply Z.pow_le_mono_r; lia).
    lia.
Qed.

(** ** Shifting right *)

Lemma shr_1_m (mrs : shr_record) :
  0 <= shr_m mrs -> shr_m (shr_1 mrs) = shr_m mrs / 2.
Proof.
  destruct mrs as [m r s]. simpl. intros Hm.
  destruct m as [|[p|p|]|p]; simpl; try lia; try reflexivity.
  - rewrite Pos2Z.inj_xI. apply (Z.div_unique _ 2 _ 1); lia.
  - rewrite Pos2Z.inj_xO. apply (Z.div_unique _ 2 _ 0); lia.
Qed.

Lemma iter_pos_nat {A : Type} (f : A -> A) (p : positive) (x : A) :
  SpecFloat.iter_pos f p x = Nat.iter (Pos.to_nat p) f x.
Proof.
  revert x. induction p as [p IH|p IH|]; intros x; cbn [SpecFloat.iter_pos].
  - rewrite !IH, Pos2Nat.inj_xI, Nat.iter_succ_r.
    replace (2 * Pos.to_nat p)%nat with (Pos.to_nat p + Pos.to_nat p)%nat by lia.
    now rewrite Nat.iter_add.
  - rewrite !IH, Pos2Nat.inj_xO.
    replace (2 * Pos.to_nat p)%nat with (Pos.to_nat p + Pos.to_nat p)%nat by lia.
    now rewrite Nat.iter_add.
  - reflexivity.
Qed.

Lemma iter_shr_1_m (n : nat) (mrs : shr_record) :
  0 <= shr_m mrs ->
  shr_m (Nat.iter n shr_1 mrs) = shr_m mrs / 2 ^ Z.of_nat n.
Proof.
  intros Hm. induction n as [|n IH].
  - simpl. now rewrite Z.div_1_r.
  - rewrite Nat.iter_succ, shr_1_m.
    + rewrite IH, Z.div_div by lia.
      f_equal. rewrite Nat2Z.inj_succ, Z.pow_succ_r by lia. lia.
    + rewrite IH. apply Z.div_pos; lia.
Qed.

(** [shr] divides the mantissa by [2^n] and adds [n] to the exponent. *)
Lemma shr_m_e (mrs : shr_record) (e n : Z) :
  0 <= shr_m mrs -> 0 <= n ->
  shr_m (fst (shr mrs e n)) = shr_m mrs / 2 ^ n /\ snd (shr mrs e n) = e + n.
Proof.
  intros Hm Hn. destruct n as [|p|p]; simpl; [|  |lia].
  - rewrite Z.div_1_r. split; [reflexivity | lia].
  - split; [|reflexivity].
    rewrite iter_pos_nat, iter_shr_1_m by assumption.
    now rewrite positive_nat_Z.
Qed.

Lemma shr_record_of_loc_m (m : Z) (l : location) : shr_m (shr_record_of_loc m l) = m.
Proof. destruct l as [|[]]; reflexivity. Qed.

(** The digits of a quotient by a power of two. *)
Lemma Zdigits2_div (m n : Z) :
  0 <= m -> 0 <= n -> Zdigits2 (m / 2 ^ n) = Z.max 0 (Zdigits2 m - n).
Proof.
  intros Hm Hn. destruct m as [|p|p]; [|  |lia].
  - rewrite Z.div_0_l by (apply Z.pow_nonzero; lia). simpl. lia.
  - pose proof (Zdigits2_bounds p) as [Hlo Hhi].
    set (d := Zdigits2 (Zpos p)) in *.
    assert (0 < d) as Hd by (unfold d; simpl; lia).
    assert (0 < 2 ^ n) as Hpow by (apply Z.pow_pos_nonneg; lia).
    destruct (Z_lt_le_dec n d) as [Hlt|Hge].
    + assert (2 ^ (d - 1) = 2 ^ (d - 1 - n) * 2 ^ n) as Hsplit1
        by (rewrite <- Z.pow_add_r by lia; f_equal; lia).
      assert (2 ^ d = 2 ^ (d - n) * 2 ^ n) as Hsplit2
        by (rewrite <- Z.pow_add_r by lia; f_equal; lia).
      assert (2 ^ (d - 1 - n) <= Zpos p / 2 ^ n)
        by (apply Z.div_le_lower_bound; lia).
      assert (Zpos p / 2 ^ n < 2 ^ (d - n))
        by (apply Z.div_lt_upper_bound; lia).
      assert (0 < 2 ^ (d - 1 - n)) by (apply Z.pow_pos_nonneg; lia).
      destruct (Zpos p / 2 ^ n) as [|q|q] eqn:Hq; [lia| |lia].
      rewrite (Zdigits2_unique q (d - n)); [lia|].
      replace (d - n - 1) with (d - 1 - n) by lia. lia.
    + assert (2 ^ d <= 2 ^ n) by (apply Z.pow_le_mono_r; lia).
      rewrite Z.div_small by lia. simpl. lia.
Qed.

(** Rounding to nearest keeps the mantissa or adds one to it. *)
Lemma round_nearest_even_cases (m : Z) (l : location) :
  round_nearest_even m l = m \/ round_nearest_even m l = m + 1.
Proof.
  destruct l as [|[]]; simpl; try (now left); try (now right).
  destruct (Z.even m); [now left | now right].
Qed.

Lemma Zdigits2_succ (m : Z) :
  0 <= m -> Zdigits2 m <= Zdigits2 (m + 1) <= Zdigits2 m + 1.
Proof.
  intros Hm. destruct m as [|p|p]; [simpl; lia| |lia].
  pose proof (Zdigits2_bounds p) as [Hlo Hhi].
  set (d := Zdigits2 (Zpos p)) in *.
  assert (0 < d) as Hd by (unfold d; simpl; lia).
  destruct (Zpos p + 1) as [|q|q] eqn:Hq; [lia| |lia].
  destruct (Z.eq_dec (Zpos q) (2 ^ d)) as [Heq|Hne].
  - rewrite (Zdigits2_unique q (d + 1)); [lia|].
    replace (d + 1 - 1) with d by lia.
    rewrite Z.pow_add_r by lia. lia.
  - rewrite (Zdigits2_unique q d); lia.
Qed.

(** ** Rounding yields values of the format *)

Section Format.
Variables prec emax : Z.
Hypothesis prec_pos : 0 < prec.

Let emin : Z := SpecFloat.emin prec emax.
Let fexp : Z -> Z := SpecFloat.fexp prec emax.

Lemma fexp_ge_emin (k : Z) : emin <= fexp k.
Proof. unfold fexp, SpecFloat.fexp, emin. lia. Qed.

(** A mantissa with at least as many digits as its exponent asks for is
    rounded to a value of the format. *)
Lemma binary_round_aux_valid (sx : bool) (mx : positive) (ex : Z) (lx : location) :
  ex <= fexp (Zdigits2 (Zpos mx) + ex) ->
  valid_binary prec emax (binary_round_aux prec emax sx (Zpos mx) ex lx) = true.
Proof.
  intros Hex. unfold binary_round_aux, shr_fexp.
  fold fexp.
  set (d := Zdigits2 (Zpos mx)) in *.
  set (n := fexp (d + ex) - ex).
  assert (0 <= n) as Hn by (unfold n; lia).
  destruct (shr_m_e (shr_record_of_loc (Zpos mx) lx) ex n) as [Hm1 He1];
    [rewrite shr_record_of_loc_m; lia | exact Hn |].
  rewrite shr_record_of_loc_m in Hm1.
  destruct (shr (shr_record_of_loc (Zpos mx) lx) ex n) as [mrs1 e1].
  cbn [fst snd] in Hm1, He1.
  assert (e1 = fexp (d + ex)) as He1' by (unfold n in He1; lia).
  assert (Zdigits2 (shr_m mrs1) = Z.max 0 (d - n)) as Hd1
    by (rewrite Hm1; apply Zdigits2_div; lia).
  assert (0 <= shr_m mrs1) as Hm1pos
    by (rewrite Hm1; apply Z.div_pos; [lia | apply Z.pow_pos_nonneg; lia]).
  assert (0 < d) as Hdpos by (unfold d; simpl; lia).
  (* the digits after the first shift *)
  assert (Zdigits2 (shr_m mrs1) <= prec
          /\ (emin < e1 -> Zdigits2 (shr_m mrs1) = prec)) as [Hd1le Hd1eq].
  { rewrite Hd1, He1'. unfold n.
    unfold fexp, SpecFloat.fexp, emin in *. lia. }
  set (m2 := round_nearest_even (shr_m mrs1) (loc_of_shr_record mrs1)).
  assert (0 <= m2) as Hm2pos
    by (unfold m2;
        destruct (round_nearest_even_cases (shr_m mrs1) (loc_of_shr_record mrs1))
          as [-> | ->]; lia).
  assert (Zdigits2 (shr_m mrs1) <= Zdigits2 m2 <= Zdigits2 (shr_m mrs1) + 1) as Hd2.
  { unfold m2.
    destruct (round_nearest_even_cases (shr_m mrs1) (loc_of_shr_record mrs1))
      as [-> | ->]; [lia | now apply Zdigits2_succ]. }
  set (n2 := fexp (Zdigits2 m2 + e1) - e1).
  assert (emin <= e1) as Hemin by (rewrite He1'; apply fexp_ge_emin).
  assert (n2 = 0 /\ Zdigits2 m2 <= prec \/ n2 = 1 /\ Zdigits2 m2 = prec + 1) as Hn2.
  { unfold n2, fexp, SpecFloat.fexp. fold emin.
    destruct (Z_le_gt_dec (Zdigits2 m2) prec) as [Hle|Hgt].
    - left. split; [|exact Hle].
      destruct (Z.eq_dec e1 emin) as [Heq|Hne]; [lia|].
      assert (Zdigits2 (shr_m mrs1) = prec) by (apply Hd1eq; lia). lia.
    - right. lia. }
  destruct (shr_m_e (shr_record_of_loc m2 loc_Exact) e1 n2) as [Hm3 He3];
    [simpl; lia | lia |].
  simpl shr_m in Hm3 at 2.
  destruct (shr (shr_record_of_loc m2 loc_Exact) e1 n2) as [mrs3 e3].
  cbn [fst snd] in Hm3, He3.
  destruct (shr_m mrs3) as [|m3|m3] eqn:Hm3eq; [reflexivity| |reflexivity].
  destruct (e3 <=? emax - prec) eqn:Hle; [|reflexivity].
  cbn [valid_binary]. unfold bounded, canonical_mantissa. rewrite Hle, andb_true_r.
  apply Z.eqb_eq. fold fexp.
  change (Zpos (digits2_pos m3)) with (Zdigits2 (Zpos m3)). rewrite Hm3.
  rewrite Zdigits2_div by lia.
  unfold fexp, SpecFloat.fexp, emin, SpecFloat.emin in *.
  assert (0 < Zdigits2 m2).
  { destruct m2 as [|q|q]; [|simpl; lia|lia].
    rewrite Z.div_0_l in Hm3 by (apply Z.pow_nonzero; lia). lia. }
  destruct Hn2 as [[Hz Hd2le]|[Hone Hd2eq]].
  - destruct (Z.eq_dec e1 (3 - emax - prec)) as [Heq|Hne]; [lia|].
    assert (Zdigits2 (shr_m mrs1) = prec) by (apply Hd1eq; lia). lia.
  - lia.
Qed.

Lemma iter_xO_digits (p k : positive) :
  Zdigits2 (Zpos (Pos.iter xO p k)) = Zdigits2 (Zpos p) + Zpos k.
Proof.
  cbn [Zdigits2]. rewrite !digits2_size.
  rewrite (Pos.iter_swap_gen _ _ Pos.size xO Pos.succ) by reflexivity.
  enough (Pos.iter Pos.succ (Pos.size p) k = (Pos.size p + k)%positive) as ->
    by apply Pos2Z.inj_add.
  generalize (Pos.size p). intros q.
  induction k using Pos.peano_ind.
  - simpl. lia.
  - rewrite Pos.iter_succ, IHk. lia.
Qed.

Lemma binary_round_valid (sx : bool) (mx : positive) (ex : Z) :
  valid_binary prec emax (binary_round prec emax sx mx ex) = true.
Proof.
  unfold binary_round, shl_align. fold fexp.
  change (Zpos (digits2_pos mx)) with (Zdigits2 (Zpos mx)).
  destruct (fexp (Zdigits2 (Zpos mx) + ex) - ex) as [|n|n] eqn:Hn.
  - apply binary_round_aux_valid. lia.
  - apply binary_round_aux_valid. lia.
  - apply binary_round_aux_valid. rewrite iter_xO_digits.
    replace (Zdigits2 (Zpos mx) + Zpos n + fexp (Zdigits2 (Zpos mx) + ex))
      with (Zdigits2 (Zpos mx) + ex) by lia.
    lia.
Qed.

Lemma binary_normalize_valid (m e : Z) (szero : bool) :
  valid_binary prec emax (binary_normalize prec emax m e szero) = true.
Proof. destruct m; simpl; [reflexivity | apply binary_round_valid..]. Qed.
End Format.

(** [Math.fround] yields a binary32 value. *)
Lemma fround_valid (x : JS.number) : valid_binary 24 128 (JS.fround x) = true.
Proof.
  destruct x as [s|s| |s m e]; try reflexivity.
  unfold JS.fround. apply binary_normalize_valid. lia.
Qed.

End RoundingFacts.

(* ===================================================================== *)
(** * [getSlice]: failure *)
(* ===================================================================== *)

Module GetSliceTheorems.
Import SliceCache JSMap JSMapFacts SliceCacheFacts.

(** ** The quantization rules *)

(** Every rule ends in a constructor that rejects an array of BigInt
    values. *)
Lemma quantize_BigInt {E : Type} {errors : JS.Errors E} (dataVarName : string)
    (rawData : JS.RawData) :
  JS.Raw.holds_BigInt rawData = true ->
  quantize dataVarName rawData = Throw JS.TypeError.
Proof.
  intros Hbig. unfold quantize.
  destruct (String.eqb dataVarName "illumination" || String.eqb dataVarName "orbiter_visibility");
    [|destruct (String.eqb dataVarName "dte_visibility" || String.eqb dataVarName "night_flag");
      [|destruct (String.eqb dataVarName "darkness_duration")]];
    destruct rawData; try discriminate; reflexivity.
Qed.

(** On an array of numbers every rule returns. *)
Lemma quantize_Numbers {E : Type} {errors : JS.Errors E} (dataVarName : string)
    (raw : JS.TypedArray) :
  exists resultData, quantize dataVarName (JS.Numbers raw) = Return resultData.
Proof.
  unfold quantize.
  destruct (String.eqb dataVarName "illumination" || String.eqb dataVarName "orbiter_visibility");
    [|destruct (String.eqb dataVarName "dte_visibility" || String.eqb dataVarName "night_flag");
      [|destruct (String.eqb dataVarName "darkness_duration")]];
    destruct raw; simpl; eauto.
Qed.

Lemma quantize_throws {E : Type} {errors : JS.Errors E} (dataVarName : string)
    (rawData : JS.RawData) (err : E) :
  quantize dataVarName rawData = Throw err ->
  JS.Raw.holds_BigInt rawData = true /\ err = JS.TypeError.
Proof.
  intros Hq. destruct rawData as [raw|l|l].
  - destruct (quantize_Numbers dataVarName raw) as [s Hs]. congruence.
  - rewrite quantize_BigInt in Hq by reflexivity. split; [reflexivity | congruence].
  - rewrite quantize_BigInt in Hq by reflexivity. split; [reflexivity | congruence].
Qed.

(** ** What the cache keeps *)

Lemma evictLRU_keeps (k : string) (e : Entry) (c : SliceCache.t) :
  get k (cache (evictLRU c)) = Some e -> get k (cache c) = Some e.
Proof.
  unfold evictLRU. destruct (key_truthy (oldest (cache c))); [|tauto].
  destruct (oldest (cache c)) as [k'|]; [|tauto].
  destruct (get k' (cache c)); [|tauto]. simpl.
  destruct (String.eqb_spec k' k) as [->|Hne].
  - now rewrite get_delete_eq.
  - now rewrite get_delete_ne.
Qed.

Lemma evict_loop_keeps (fuel : nat) (sizeMB : Z) (k : string) (e : Entry) (c : SliceCache.t) :
  get k (cache (evict_loop fuel sizeMB c)) = Some e -> get k (cache c) = Some e.
Proof.
  revert c. induction fuel as [|fuel IH]; intros c; simpl; [tauto|].
  destruct (must_evict sizeMB c); [|tauto].
  intros H. now apply evictLRU_keeps, IH.
Qed.

Lemma get_hit (f : string) (i now : Z) (c : SliceCache.t) (e : Entry) :
  peek f i c = Some e ->
  fst (SliceCache.get f i now c) = Some (data e).
Proof. unfold peek, SliceCache.get. now intros ->. Qed.

Lemma get_miss (f : string) (i now : Z) (c : SliceCache.t) :
  peek f i c = None -> SliceCache.get f i now c = (None, c).
Proof. unfold peek, SliceCache.get. now intros ->. Qed.

(** ** The ways through [getSlice] *)

Section NetCDF.
Context {E : Type} {errors : JS.Errors E}.
Context (ds : NetCDFLazyDataset.t E) (timeIndex now : Z) (c : SliceCache.t).

Let start : list Z := [timeIndex; 0; 0].
Let count : list Z :=
  [1; snd (fst (NetCDFLazyDataset.shape ds)); snd (NetCDFLazyDataset.shape ds)].
Let fileId : string := NetCDFLazyDataset.filename ds.

Lemma netcdf_hit (e : Entry) :
  peek fileId timeIndex c = Some e ->
  NetCDFLazyDataset.getSlice ds timeIndex now c
  = (Return (data e), snd (SliceCache.get fileId timeIndex now c)).
Proof.
  intros Hhit. unfold NetCDFLazyDataset.getSlice. fold fileId.
  pose proof (get_hit fileId timeIndex now c e Hhit) as Hget.
  destruct (SliceCache.get fileId timeIndex now c) as [[cached|] c']; simpl in *;
    congruence.
Qed.

Lemma netcdf_miss_throw (err : E) :
  peek fileId timeIndex c = None ->
  NetCDFLazyDataset.slice ds start count = Throw err ->
  NetCDFLazyDataset.getSlice ds timeIndex now c = (Throw err, c).
Proof.
  intros Hmiss Hread. unfold NetCDFLazyDataset.getSlice. fold fileId.
  rewrite (get_miss _ _ _ _ Hmiss).
  unfold start, count in Hread.
  destruct (NetCDFLazyDataset.shape ds) as [[time height] width]. simpl in Hread.
  now rewrite Hread.
Qed.

Lemma netcdf_miss_read (rawData : JS.RawData) :
  peek fileId timeIndex c = None ->
  NetCDFLazyDataset.slice ds start count = Return rawData ->
  NetCDFLazyDataset.getSlice ds timeIndex now c
  = match quantize (NetCDFLazyDataset.dataVarName ds) rawData with
    | Throw e => (Throw e, c)
    | Return resultData =>
        (Return resultData, SliceCache.set fileId timeIndex resultData now c)
    end.
Proof.
  intros Hmiss Hread. unfold NetCDFLazyDataset.getSlice. fold fileId.
  rewrite (get_miss _ _ _ _ Hmiss).
  unfold start, count in Hread.
  destruct (NetCDFLazyDataset.shape ds) as [[time height] width]. simpl in Hread.
  now rewrite Hread.
Qed.

Lemma netcdf_miss_return (raw : JS.TypedArray) :
  peek fileId timeIndex c = None ->
  NetCDFLazyDataset.slice ds start count = Return (JS.Numbers raw) ->
  exists resultData,
    quantize (NetCDFLazyDataset.dataVarName ds) (JS.Numbers raw) = Return resultData
    /\ NetCDFLazyDataset.getSlice ds timeIndex now c
       = (Return resultData, SliceCache.set fileId timeIndex resultData now c).
Proof.
  intros Hmiss Hread. rewrite (netcdf_miss_read _ Hmiss Hread).
  destruct (quantize_Numbers (NetCDFLazyDataset.dataVarName ds) raw) as [s Hs].
  exists s. now rewrite Hs.
Qed.

Lemma netcdf_miss_BigInt (rawData : JS.RawData) :
  peek fileId timeIndex c = None ->
  NetCDFLazyDataset.slice ds start count = Return rawData ->
  JS.Raw.holds_BigInt rawData = true ->
  NetCDFLazyDataset.getSlice ds timeIndex now c = (Throw JS.TypeError, c).
Proof.
  intros Hmiss Hread Hbig. rewrite (netcdf_miss_read _ Hmiss Hread).
  now rewrite quantize_BigInt.
Qed.
End NetCDF.

Section Npy.
Context {E File ArrayBuffer DataType : Type} {errors : JS.Errors E}.
Context (io : NpyLazyDataset.Imports E File ArrayBuffer DataType).
Context (ds : NpyLazyDataset.t File DataType) (timeIndex now : Z) (c : SliceCache.t).

Let fileId : string := NpyLazyDataset.fileId ds.
Let load : Result E JS.TypedArray :=
  NpyLazyDataset.loadNpyTimeSlice io (NpyLazyDataset.file ds)
    (NpyLazyDataset.metadata ds) timeIndex.

Lemma npy_hit (e : Entry) :
  peek fileId timeIndex c = Some e ->
  NpyLazyDataset.getSlice io ds timeIndex now c
  = (Return (data e), snd (SliceCache.get fileId timeIndex now c)).
Proof.
  intros Hhit. unfold NpyLazyDataset.getSlice. fold fileId.
  pose proof (get_hit fileId timeIndex now c e Hhit) as Hget.
  destruct (SliceCache.get fileId timeIndex now c) as [[cached|] c']; simpl in *;
    congruence.
Qed.

Lemma npy_miss_throw (err : E) :
  peek fileId timeIndex c = None -> load = Throw err ->
  NpyLazyDataset.getSlice io ds timeIndex now c = (Throw err, c).
Proof.
  intros Hmiss Hread. unfold NpyLazyDataset.getSlice. fold fileId.
  rewrite (get_miss _ _ _ _ Hmiss). unfold load in Hread. now rewrite Hread.
Qed.

Lemma npy_miss_return (data : JS.TypedArray) :
  peek fileId timeIndex c = None -> load = Return data ->
  let floatData :=
    match data with
    | JS.Float32Array _ => data
    | _ => JS.new_Float32Array data
    end in
  NpyLazyDataset.getSlice io ds timeIndex now c
  = (Return floatData, SliceCache.set fileId timeIndex floatData now c).
Proof.
  intros Hmiss Hread. unfold NpyLazyDataset.getSlice. fold fileId.
  rewrite (get_miss _ _ _ _ Hmiss). unfold load in Hread. now rewrite Hread.
Qed.
End Npy.

(** C8, corrected statement.  [getSlice] never looks at the range of
    [timeIndex].  On a cache hit it returns the cached slice and reads
    nothing.  On a miss it passes the index to the reader.  It throws when
    the reader throws, and then throws the reader's own error; the NetCDF
    class also throws when the reader hands out an array of BigInt values, a
    [TypeError] of the typed-array constructor; it throws in no other case,
    and a call that throws leaves the cache as it was.  When the reader
    returns an array of numbers, [getSlice] returns the decoded slice and
    caches it. *)
Theorem C8_getSlice_failure
    {E File ArrayBuffer DataType : Type} {errors : JS.Errors E}
    (nc : NetCDFLazyDataset.t E)
    (io : NpyLazyDataset.Imports E File ArrayBuffer DataType)
    (np : NpyLazyDataset.t File DataType)
    (timeIndex now : Z) (c : SliceCache.t) :
  let start := [timeIndex; 0; 0] in
  let count := [1; snd (fst (NetCDFLazyDataset.shape nc));
                snd (NetCDFLazyDataset.shape nc)] in
  let load := NpyLazyDataset.loadNpyTimeSlice io (NpyLazyDataset.file np)
                (NpyLazyDataset.metadata np) timeIndex in
  (forall e,
     peek (NetCDFLazyDataset.filename nc) timeIndex c = Some e ->
     fst (NetCDFLazyDataset.getSlice nc timeIndex now c) = Return (data e))
  /\ (peek (NetCDFLazyDataset.filename nc) timeIndex c = None ->
      forall err,
        fst (NetCDFLazyDataset.getSlice nc timeIndex now c) = Throw err
        <-> (NetCDFLazyDataset.slice nc start count = Throw err
             \/ exists rawData,
                  NetCDFLazyDataset.slice nc start count = Return rawData
                  /\ JS.Raw.holds_BigInt rawData = true
                  /\ err = JS.TypeError))
  /\ (peek (NetCDFLazyDataset.filename nc) timeIndex c = None ->
      forall err,
        fst (NetCDFLazyDataset.getSlice nc timeIndex now c) = Throw err ->
        snd (NetCDFLazyDataset.getSlice nc timeIndex now c) = c)
  /\ (peek (NetCDFLazyDataset.filename nc) timeIndex c = None ->
      forall raw,
        NetCDFLazyDataset.slice nc start count = Return (JS.Numbers raw) ->
        exists resultData,
          quantize (NetCDFLazyDataset.dataVarName nc) (JS.Numbers raw)
          = Return resultData
          /\ NetCDFLazyDataset.getSlice nc timeIndex now c
             = (Return resultData,
                SliceCache.set (NetCDFLazyDataset.filename nc) timeIndex
                  resultData now c))
  /\ (forall e,
        peek (NpyLazyDataset.fileId np) timeIndex c = Some e ->
        fst (NpyLazyDataset.getSlice io np timeIndex now c) = Return (data e))
  /\ (peek (NpyLazyDataset.fileId np) timeIndex c = None ->
      forall err,
        fst (NpyLazyDataset.getSlice io np timeIndex now c) = Throw err
        <-> load = Throw err)
  /\ (peek (NpyLazyDataset.fileId np) timeIndex c = None ->
      forall err,
        fst (NpyLazyDataset.getSlice io np timeIndex now c) = Throw err ->
        snd (NpyLazyDataset.getSlice io np timeIndex now c) = c)
  /\ (peek (NpyLazyDataset.fileId np) timeIndex c = None ->
      forall data,
        load = Return data ->
        exists floatData,
          NpyLazyDataset.getSlice io np timeIndex now c
          = (Return floatData,
             SliceCache.set (NpyLazyDataset.fileId np) timeIndex floatData now c)).
Proof.
  intros start count load.
  split; [|split; [|split; [|split; [|split; [|split; [|split]]]]]].
  - intros e Hhit. now rewrite (netcdf_hit nc timeIndex now c e Hhit).
  - intros Hmiss err.
    destruct (NetCDFLazyDataset.slice nc start count) as [err'|rawData] eqn:Hread.
    + rewrite (netcdf_miss_throw nc timeIndex now c err' Hmiss Hread). simpl.
      split; [intros [= ->]; now left|].
      intros [[= ->]|(rawData & Hr & _)]; [reflexivity | discriminate].
    + rewrite (netcdf_miss_read nc timeIndex now c rawData Hmiss Hread).
      destruct (quantize (NetCDFLazyDataset.dataVarName nc) rawData) as [e|s] eqn:Hq;
        simpl.
      * destruct (quantize_throws _ _ _ Hq) as [Hbig ->].
        split.
        -- intros [= <-]. right. exists rawData. now split.
        -- intros [Hr|(rawData' & _ & _ & ->)]; [discriminate | reflexivity].
      * split; [discriminate|].
        intros [Hr|(rawData' & [= <-] & Hbig & _)]; [discriminate|].
        rewrite quantize_BigInt in Hq by assumption. discriminate.
  - intros Hmiss err.
    destruct (NetCDFLazyDataset.slice nc start count) as [err'|rawData] eqn:Hread.
    + now rewrite (netcdf_miss_throw nc timeIndex now c err' Hmiss Hread).
    + rewrite (netcdf_miss_read nc timeIndex now c rawData Hmiss Hread).
      now destruct (quantize (NetCDFLazyDataset.dataVarName nc) rawData).
  - intros Hmiss raw Hread. now apply netcdf_miss_return.
  - intros e Hhit. now rewrite (npy_hit io np timeIndex now c e Hhit).
  - intros Hmiss err. destruct load as [err'|data] eqn:Hread.
    + rewrite (npy_miss_throw io np timeIndex now c err' Hmiss Hread). simpl. tauto.
    + rewrite (npy_miss_return io np timeIndex now c data Hmiss Hread). simpl.
      split; discriminate.
  - intros Hmiss err. destruct load as [err'|data] eqn:Hread.
    + now rewrite (npy_miss_throw io np timeIndex now c err' Hmiss Hread).
    + now rewrite (npy_miss_return io np timeIndex now c data Hmiss Hread).
  - intros Hmiss data Hread.
    exists (match data with
            | JS.Float32Array _ => data
            | _ => JS.new_Float32Array data
            end).
    exact (npy_miss_return io np timeIndex now c data Hmiss Hread).
Qed.

(** C8, where the specification's wording fails.  Both datasets have one time step and
    are asked for index [5].  The NetCDF reader returns an empty array for a
    hyperslab outside the variable; the flat file is read past its end, which
    yields no bytes.  In both cases [getSlice] returns an empty
    [Float32Array] instead of failing. *)
Lemma C8_out_of_range_index_returns_data :
  let nc : NetCDFLazyDataset.t unit :=
    {| NetCDFLazyDataset.filename := "e.nc";
       NetCDFLazyDataset.dataVarName := "elevation";
       NetCDFLazyDataset.shape := (1, 1, 1);
       NetCDFLazyDataset.slice :=
         fun start _ =>
           match start with
           | [0; 0; 0] => Return (JS.Numbers (JS.Float32Array [S754_zero false]))
           | _ => Return (JS.Numbers (JS.Float32Array []))
           end |} in
  let np := Int32File.dataset [1; 0; 0; 0] 1 1 1 "e.npy" in
  ~ (0 <= 5 < fst (fst (NetCDFLazyDataset.shape nc)))
  /\ fst (NetCDFLazyDataset.getSlice nc 5 0 SliceCache.empty)
     = Return (JS.Float32Array [])
  /\ ~ (0 <= 5 < NpyLazyDataset.time (NpyLazyDataset.metadata np))
  /\ fst (NpyLazyDataset.getSlice Int32File.io np 5 0 SliceCache.empty)
     = Return (JS.Float32Array []).
Proof.
  intros nc np. split; [simpl; lia|]. split; [reflexivity|].
  split; [simpl; lia | reflexivity].
Qed.

(** C8 at work: a NetCDF reader that throws makes [getSlice] throw the
    same error, and a reader that hands out 64-bit integers makes it throw a
    [TypeError]. *)
Lemma C8_getSlice_failure_witness :
  let failing : NetCDFLazyDataset.t string :=
    {| NetCDFLazyDataset.filename := "t.nc";
       NetCDFLazyDataset.dataVarName := "elevation";
       NetCDFLazyDataset.shape := (1, 1, 1);
       NetCDFLazyDataset.slice := fun _ _ => Throw "read failed"%string |} in
  let wide : NetCDFLazyDataset.t string :=
    {| NetCDFLazyDataset.filename := "w.nc";
       NetCDFLazyDataset.dataVarName := "elevation";
       NetCDFLazyDataset.shape := (1, 1, 1);
       NetCDFLazyDataset.slice := fun _ _ => Return (JS.BigInt64Array [7]) |} in
  fst (NetCDFLazyDataset.getSlice failing 0 0 SliceCache.empty)
  = Throw "read failed"%string
  /\ fst (NetCDFLazyDataset.getSlice wide 0 0 SliceCache.empty)
     = Throw "TypeError"%string.
Proof.
  intros failing wide.
  pose (io := {| NpyLazyDataset.loadNpyTimeSlice :=
                   fun (_ : unit) (_ : NpyLazyDataset.StreamingNpyMetadata unit) (_ : Z) =>
                     @Throw string JS.TypedArray "x"%string;
                 NpyLazyDataset.readFileRange :=
                   fun _ _ _ => @Throw string unit "x"%string;
                 NpyLazyDataset.createTypedArray :=
                   fun _ _ => @Throw string JS.TypedArray "x"%string |}).
  pose (np := {| NpyLazyDataset.file := tt;
                 NpyLazyDataset.metadata := NpyLazyDataset.mkMetadata 1 1 1 0 1 tt;
                 NpyLazyDataset.fileId := "t.npy"%string |}).
  split.
  - destruct (C8_getSlice_failure failing io np 0 0 SliceCache.empty)
      as (_ & Hthrow & _).
    apply (Hthrow eq_refl). now left.
  - destruct (C8_getSlice_failure wide io np 0 0 SliceCache.empty)
      as (_ & Hthrow & _).
    apply (Hthrow eq_refl). right. exists (JS.BigInt64Array [7]). now split.
Defined.

End GetSliceTheorems.

(* ===================================================================== *)
(** * Pixel time series of the NPY dataset *)
(* ===================================================================== *)

Module NpySeries.
Import NpyLazyDataset.

(** ** The batches *)

Lemma batch_loop_spec (fuel : nat) (time i j : Z) :
  batch_loop fuel time i j
  = map (fun k => i + j + Z.of_nat k)
        (seq 0 (Nat.min fuel (Z.to_nat (Z.min (batchSize - j) (time - i - j))))).
Proof.
  revert j. induction fuel as [|fuel IH]; intros j; [reflexivity|].
  cbn [batch_loop].
  destruct ((j <? batchSize) && (i + j <? time)) eqn:Hc.
  - apply andb_true_iff in Hc as [H1 H2].
    apply Z.ltb_lt in H1. apply Z.ltb_lt in H2.
    rewrite IH.
    replace (Nat.min (S fuel) (Z.to_nat (Z.min (batchSize - j) (time - i - j))))
      with (S (Nat.min fuel (Z.to_nat (Z.min (batchSize - (j + 1)) (time - i - (j + 1))))))
      by lia.
    cbn [seq map]. f_equal; [lia|].
    rewrite <- seq_shift, map_map. apply map_ext. intros k. lia.
  - apply andb_false_iff in Hc.
    replace (Nat.min (S fuel) (Z.to_nat (Z.min (batchSize - j) (time - i - j))))
      with 0%nat; [reflexivity|].
    destruct Hc as [H|H]; apply Z.ltb_ge in H; lia.
Qed.

(** The batch that starts at [i]: the next [min(50, time - i)] time
    steps. *)
Lemma batch_spec (time i : Z) :
  batch time i
  = map (fun k => i + Z.of_nat k) (seq 0 (Z.to_nat (Z.min batchSize (time - i)))).
Proof.
  unfold batch. rewrite batch_loop_spec.
  replace (Nat.min (Z.to_nat batchSize) (Z.to_nat (Z.min (batchSize - 0) (time - i - 0))))
    with (Z.to_nat (Z.min batchSize (time - i))) by (unfold batchSize; lia).
  apply map_ext. intros k. lia.
Qed.

Lemma batches_spec (time : Z) :
  batches time
  = map (fun k => batch time (batchSize * Z.of_nat k))
        (seq 0 (Z.to_nat ((time + batchSize - 1) / batchSize))).
Proof.
  unfold batches, JS.for_range. rewrite map_map.
  replace (time - 0 + batchSize - 1) with (time + batchSize - 1) by lia.
  apply map_ext. intros k. f_equal.
Qed.

Lemma batches_lookup (time : Z) (k : nat) (b : list Z) :
  batches time !! k = Some b ->
  batchSize * Z.of_nat k < time
  /\ b = map (fun j => batchSize * Z.of_nat k + Z.of_nat j)
             (seq 0 (Z.to_nat (Z.min batchSize (time - batchSize * Z.of_nat k)))).
Proof.
  rewrite batches_spec, list_lookup_fmap. intros H.
  destruct (seq 0 (Z.to_nat ((time + batchSize - 1) / batchSize)) !! k) as [k'|] eqn:Hk;
    [|discriminate].
  apply lookup_seq in Hk as [-> Hlt]. simpl in H. injection H as <-.
  split; [|apply batch_spec].
  unfold batchSize in *. Z.div_mod_to_equations. lia.
Qed.

Lemma map_of_nat_seq (a n : nat) :
  map Z.of_nat (seq a n) = map (fun k => Z.of_nat a + Z.of_nat k) (seq 0 n).
Proof.
  revert a. induction n as [|n IH]; intros a; [reflexivity|].
  cbn [seq map]. f_equal; [lia|].
  rewrite IH, <- seq_shift, map_map. apply map_ext. intros k. lia.
Qed.

(** The first [m] batches cover the first [min(50 m, time)] time steps, in
    order. *)
Lemma batches_concat_prefix (time : Z) (m : nat) :
  0 <= time ->
  concat (map (fun k => batch time (batchSize * Z.of_nat k)) (seq 0 m))
  = map Z.of_nat (seq 0 (Z.to_nat (Z.min (batchSize * Z.of_nat m) time))).
Proof.
  intros Ht. induction m as [|m IH].
  - cbn [seq map concat].
    replace (Z.to_nat (Z.min (batchSize * Z.of_nat 0) time)) with 0%nat
      by (unfold batchSize; lia).
    reflexivity.
  - rewrite seq_S, map_app, concat_app, IH. cbn [Nat.add map concat].
    rewrite app_nil_r, batch_spec.
    unfold batchSize in *.
    replace (Z.to_nat (Z.min (50 * Z.of_nat (S m)) time))
      with (Z.to_nat (Z.min (50 * Z.of_nat m) time)
            + Z.to_nat (Z.min 50 (time - 50 * Z.of_nat m)))%nat by lia.
    rewrite seq_app, map_app. f_equal. cbn [Nat.add].
    destruct (Z.le_gt_cases time (50 * Z.of_nat m)) as [Hdone|Hmore].
    + replace (Z.to_nat (Z.min 50 (time - 50 * Z.of_nat m))) with 0%nat by lia.
      reflexivity.
    + rewrite map_of_nat_seq. apply map_ext. intros k. lia.
Qed.

(** The batches, one after the other, are the time steps [0 .. time - 1]. *)
Lemma batches_concat (time : Z) :
  0 <= time -> concat (batches time) = map Z.of_nat (seq 0 (Z.to_nat time)).
Proof.
  intros Ht. rewrite batches_spec, batches_concat_prefix by assumption.
  do 2 f_equal. unfold batchSize. Z.div_mod_to_equations. lia.
Qed.

(** ** Running the batches *)

(** Within a batch the reads resolve in no fixed order; each writes its own
    index, so the order does not show in [results]. *)
Lemma store_all_any_order {A : Type} (v : Z -> option A) (ts ts' : list Z)
    (results : list (option A)) :
  NoDup ts -> Forall (fun t => 0 <= t) ts -> Permutation ts ts' ->
  store_all v ts' results = store_all v ts results.
Proof.
  intros Hnd Hpos Hperm. revert results.
  induction Hperm as [|t l l' Hperm IH|t1 t2 l|l1 l2 l3 H12 IH12 H23 IH23];
    intros results.
  - reflexivity.
  - simpl. apply NoDup_cons in Hnd as [_ Hnd]. inversion Hpos; subst. now apply IH.
  - unfold store_all. simpl. f_equal.
    apply NoDup_cons in Hnd as [Hne _].
    inversion Hpos as [|? ? H2 Hpos']; subst. inversion Hpos' as [|? ? H1 _]; subst.
    apply list_insert_insert_ne. intros Heq.
    assert (t2 = t1) as Heq' by lia. apply Hne. rewrite Heq'. left.
  - rewrite IH23, IH12; trivial.
    + now rewrite <- H12.
    + now rewrite <- H12.
Qed.

Section Run.
Context {E File ArrayBuffer DataType : Type} {errors : JS.Errors E}.
Context (io : Imports E File ArrayBuffer DataType) (ds : t File DataType).
Context (y x : Z) (v : Z -> option JS.number).

Lemma run_batch_ok (ts : list Z) (results : list (option JS.number)) :
  (forall t, In t ts -> readValue io ds y x t = Return (v t)) ->
  run_batch io ds y x results ts = Return (store_all v ts results).
Proof.
  unfold run_batch, store_all. revert results.
  induction ts as [|t ts IH]; intros results Hok; [reflexivity|].
  simpl. rewrite (Hok t) by now left. apply IH. intros t' Hin. apply Hok. now right.
Qed.

Lemma run_batches_ok (todo : list (list Z)) (results : list (option JS.number))
    (issued : list (list (Z * Z))) :
  (forall t, In t (concat todo) -> readValue io ds y x t = Return (v t)) ->
  run_batches io ds y x todo results issued
  = (Return (store_all v (concat todo) results),
     issued ++ map (map (request ds y x)) todo).
Proof.
  revert results issued.
  induction todo as [|ts todo IH]; intros results issued Hok; simpl.
  - now rewrite app_nil_r.
  - rewrite run_batch_ok by (intros t Hin; apply Hok; simpl; apply in_or_app; now left).
    rewrite IH by (intros t Hin; apply Hok; simpl; apply in_or_app; now right).
    unfold store_all. rewrite fold_left_app, <- app_assoc. reflexivity.
Qed.

(** Once a read fails, the batch fails whatever the later reads do. *)
Lemma run_batch_thrown (e : E) (ts : list Z) :
  fold_left
    (fun (acc : Result E (list (option JS.number))) t =>
       match acc with
       | Throw e => Throw e
       | Return results =>
           match readValue io ds y x t with
           | Throw e => Throw e
           | Return val => Return (<[Z.to_nat t := val]> results)
           end
       end) ts (Throw e)
  = Throw e.
Proof. induction ts as [|t ts IH]; simpl; [reflexivity | assumption]. Qed.

(** A batch with a failing read ends the function: the batches after it
    are never issued. *)
Lemma failed_batch_stops (ts : list Z) (todo : list (list Z))
    (results : list (option JS.number)) (issued : list (list (Z * Z))) (e : E) :
  run_batch io ds y x results ts = Throw e ->
  run_batches io ds y x (ts :: todo) results issued
  = (Throw e, issued ++ [map (request ds y x) ts]).
Proof. intros Hfail. simpl. now rewrite Hfail. Qed.

Lemma store_all_in_order (n : nat) :
  store_all v (map Z.of_nat (seq 0 n)) (repeat None n)
  = map (fun k => v (Z.of_nat k)) (seq 0 n).
Proof.
  unfold store_all.
  rewrite (map_ext Z.of_nat (fun k => 0 + 1 * Z.of_nat k)) by (intros; lia).
  rewrite (NetCDFSeries.fill_in_order v n n) by apply le_n.
  now rewrite Nat.sub_diag, app_nil_r.
Qed.

(** [new Array(time)] and what follows it. *)
Lemma getPixelTimeSeries_RangeError :
  time (metadata ds) < 0 \/ 2 ^ 32 <= time (metadata ds) ->
  getPixelTimeSeries io ds y x = (Throw JS.RangeError, []).
Proof.
  intros Htime. unfold getPixelTimeSeries.
  destruct ((time (metadata ds) <? 0) || (2 ^ 32 <=? time (metadata ds))) eqn:Hc;
    [reflexivity|].
  apply orb_false_iff in Hc as [H1 H2].
  apply Z.ltb_ge in H1. apply Z.leb_gt in H2. lia.
Qed.

Lemma getPixelTimeSeries_run :
  0 <= time (metadata ds) < 2 ^ 32 ->
  getPixelTimeSeries io ds y x
  = run_batches io ds y x (batches (time (metadata ds)))
      (repeat None (Z.to_nat (time (metadata ds)))) [].
Proof.
  intros Htime. unfold getPixelTimeSeries.
  destruct ((time (metadata ds) <? 0) || (2 ^ 32 <=? time (metadata ds))) eqn:Hc;
    [|reflexivity].
  apply orb_true_iff in Hc as [Hc|Hc];
    [apply Z.ltb_lt in Hc | apply Z.leb_le in Hc]; lia.
Qed.

(** When every read succeeds, the series is the values read, in ascending
    time order, and the requests went out batch by batch. *)
Lemma getPixelTimeSeries_ok :
  0 <= time (metadata ds) < 2 ^ 32 ->
  (forall t, 0 <= t < time (metadata ds) -> readValue io ds y x t = Return (v t)) ->
  getPixelTimeSeries io ds y x
  = (Return (map (fun k => v (Z.of_nat k)) (seq 0 (Z.to_nat (time (metadata ds))))),
     map (map (request ds y x)) (batches (time (metadata ds)))).
Proof.
  intros Ht Hok. rewrite getPixelTimeSeries_run by assumption.
  rewrite run_batches_ok.
  - rewrite batches_concat by lia. now rewrite store_all_in_order.
  - intros t Hin. rewrite batches_concat in Hin by lia.
    apply in_map_iff in Hin as (k & <- & Hk). apply in_seq in Hk. apply Hok. lia.
Qed.
End Run.

Lemma at_index_new_Float32Array (data : JS.TypedArray) (i : Z) :
  JS.at_index (JS.new_Float32Array data) i
  = option_map (fun n => JS.number_of_float32 (JS.fround n)) (JS.at_index data i).
Proof.
  unfold JS.at_index, JS.new_Float32Array. destruct (i <? 0); [reflexivity|].
  cbn [JS.Array_from]. rewrite !nth_error_map.
  now destruct (nth_error (JS.Array_from data) (Z.to_nat i)).
Qed.

(** ** A flat file of 32-bit integers *)

Lemma decode_take (n : nat) (bytes : list Z) :
  Int32File.decode (take (4 * n) bytes) = take n (Int32File.decode bytes).
Proof.
  revert bytes. induction n as [|n IH]; intros bytes; [reflexivity|].
  replace (4 * S n)%nat with (S (S (S (S (4 * n))))) by lia.
  destruct bytes as [|b0 [|b1 [|b2 [|b3 rest]]]]; try reflexivity.
  cbn [take Int32File.decode]. now rewrite IH.
Qed.

Lemma decode_drop (n : nat) (bytes : list Z) :
  Int32File.decode (drop (4 * n) bytes) = drop n (Int32File.decode bytes).
Proof.
  revert bytes. induction n as [|n IH]; intros bytes; [reflexivity|].
  replace (4 * S n)%nat with (S (S (S (S (4 * n))))) by lia.
  destruct bytes as [|b0 [|b1 [|b2 [|b3 rest]]]]; try reflexivity.
  cbn [drop Int32File.decode]. apply IH.
Qed.

Section Flat.
Variables (headerSize : Z) (file : list Z) (time height width : Z) (fileId : string).
Hypothesis header_nonneg : 0 <= headerSize.

Let flat : NpyLazyDataset.t (list Z) unit :=
  Int32File.dataset_at headerSize file time height width fileId.
Let whole : JS.TypedArray := JS.Int32Array (Int32File.elements headerSize file).

(** The bytes of [n] elements from element [k] on decode to these
    elements. *)
Lemma decode_range (k n : Z) :
  0 <= k -> 0 <= n ->
  Int32File.decode
    (take (Z.to_nat (4 * n)) (drop (Z.to_nat (headerSize + 4 * k)) file))
  = take (Z.to_nat n) (drop (Z.to_nat k) (Int32File.elements headerSize file)).
Proof.
  intros Hk Hn. unfold Int32File.elements.
  replace (Z.to_nat (headerSize + 4 * k))
    with (Z.to_nat headerSize + 4 * Z.to_nat k)%nat by lia.
  replace (Z.to_nat (4 * n)) with (4 * Z.to_nat n)%nat by lia.
  now rewrite <- drop_drop, decode_take, decode_drop.
Qed.

(** [readValue(t)] yields the element of the file at [(t, y, x)]. *)
Lemma flat_readValue (y x t : Z) :
  0 <= t * (height * width) + y * width + x ->
  readValue Int32File.io flat y x t
  = Return (JS.at_index whole (t * (height * width) + y * width + x)).
Proof.
  intros Hidx. unfold readValue, pixel_offset, flat. cbn.
  unfold Int32File.readFileRange, Int32File.createTypedArray.
  replace (headerSize + t * height * width * 4 + y * width * 4 + x * 4)
    with (headerSize + 4 * (t * (height * width) + y * width + x)) by lia.
  change (Z.to_nat 4) with (Z.to_nat (4 * 1)).
  rewrite decode_range by lia.
  f_equal. unfold JS.at_index, whole. cbn [JS.Array_from Z.ltb Z.compare Z.to_nat].
  destruct (t * (height * width) + y * width + x <? 0) eqn:Hneg;
    [apply Z.ltb_lt in Hneg; lia|].
  rewrite !nth_error_map, nth_error_firstn, nth_error_skipn, Nat.add_0_r.
  reflexivity.
Qed.

(** [loadNpyTimeSlice(t)] yields the [height * width] elements of time
    step [t]. *)
Lemma flat_loadNpyTimeSlice (t : Z) :
  0 <= t -> 0 <= height * width ->
  loadNpyTimeSlice Int32File.io (NpyLazyDataset.file flat) (metadata flat) t
  = Return (JS.Int32Array
              (take (Z.to_nat (height * width))
                 (drop (Z.to_nat (t * (height * width)))
                    (Int32File.elements headerSize file)))).
Proof.
  intros Ht Hhw. unfold flat. cbn.
  unfold Int32File.loadNpyTimeSlice, Int32File.readFileRange,
    Int32File.createTypedArray. cbn.
  replace (headerSize + t * (height * width * 4))
    with (headerSize + 4 * (t * (height * width))) by lia.
  replace (height * width * 4) with (4 * (height * width)) by lia.
  rewrite decode_range; [reflexivity | | assumption].
  apply Z.mul_nonneg_nonneg; assumption.
Qed.

(** The slice of time step [t] holds at [(y, x)] the element of the file
    at [(t, y, x)]. *)
Lemma flat_slice_at (t i : Z) :
  0 <= t -> 0 <= i < height * width ->
  JS.at_index
    (JS.Int32Array
       (take (Z.to_nat (height * width))
          (drop (Z.to_nat (t * (height * width)))
             (Int32File.elements headerSize file)))) i
  = JS.at_index whole (t * (height * width) + i).
Proof.
  intros Ht Hi.
  assert (0 <= t * (height * width)) by (apply Z.mul_nonneg_nonneg; lia).
  unfold JS.at_index, whole. cbn [JS.Array_from].
  destruct (i <? 0) eqn:Hneg; [apply Z.ltb_lt in Hneg; lia|].
  destruct (t * (height * width) + i <? 0) eqn:Hneg';
    [apply Z.ltb_lt in Hneg'; lia|].
  rewrite !nth_error_map, nth_error_firstn, nth_error_skipn.
  destruct (Nat.ltb_spec (Z.to_nat i) (Z.to_nat (height * width))); [|lia].
  do 2 f_equal. lia.
Qed.

Lemma flat_series (y x : Z) :
  0 <= time < 2 ^ 32 -> 0 <= y < height -> 0 <= x < width ->
  getPixelTimeSeries Int32File.io flat y x
  = (Return (map (fun k => JS.at_index whole
                             (Z.of_nat k * (height * width) + y * width + x))
                 (seq 0 (Z.to_nat time))),
     map (map (request flat y x)) (batches time)).
Proof.
  intros Htime Hy Hx.
  apply (getPixelTimeSeries_ok Int32File.io flat y x
           (fun t => JS.at_index whole (t * (height * width) + y * width + x)));
    [exact Htime|].
  intros t Ht. apply flat_readValue.
  assert (0 <= t * (height * width)) by (apply Z.mul_nonneg_nonneg; nia).
  nia.
Qed.

Lemma flat_getSlice (y x t now : Z) (c : SliceCache.t) :
  0 <= t -> 0 <= y < height -> 0 <= x < width ->
  SliceCache.peek fileId t c = None ->
  exists sl,
    fst (getSlice Int32File.io flat t now c) = Return sl
    /\ JS.at_index sl (y * width + x)
       = option_map (fun n => JS.number_of_float32 (JS.fround n))
           (JS.at_index whole (t * (height * width) + y * width + x)).
Proof.
  intros Ht Hy Hx Hmiss.
  assert (0 <= height * width) as Hhw by nia.
  rewrite (GetSliceTheorems.npy_miss_return Int32File.io flat t now c _ Hmiss
             (flat_loadNpyTimeSlice t Ht Hhw)).
  eexists. split; [reflexivity|].
  rewrite at_index_new_Float32Array, flat_slice_at by nia.
  do 2 f_equal. lia.
Qed.
End Flat.




End NpySeries.

(* ===================================================================== *)
(** * The cache: round trips, eviction order, accounting *)
(* ===================================================================== *)

Module CacheProperties.
Import SliceCache JSMap JSMapFacts KeyFacts SliceCacheFacts.

Implicit Types (c : SliceCache.t) (m : list (string * Entry)) (k f : string).

(** ** What the eviction loop leaves *)

(** An entry found after the loop was there before it, unchanged. *)
Lemma evict_loop_get (fuel : nat) (sizeMB : Z) k c :
  get k (cache (evict_loop fuel sizeMB c)) = None
  \/ get k (cache (evict_loop fuel sizeMB c)) = get k (cache c).
Proof.
  destruct (get k (cache (evict_loop fuel sizeMB c))) as [e|] eqn:Hget;
    [right | now left].
  symmetry. now apply (GetSliceTheorems.evict_loop_keeps fuel sizeMB).
Qed.

(** Eviction lowers the running total by what it removes: the difference
    between the running total and the stored size is constant. *)
Lemma evictLRU_drift c :
  wf c ->
  currentSizeMB (evictLRU c) - storedBytes (cache (evictLRU c))
  = currentSizeMB c - storedBytes (cache c).
Proof.
  intros Hwf.
  assert (cache c = [] \/ cache c <> []) as [Hc|Hne]
    by (destruct (cache c); [now left | now right]).
  - unfold evictLRU. rewrite Hc. cbn. rewrite ?Hc. reflexivity.
  - destruct (evictLRU_spec c Hwf Hne) as (k & e & _ & Hget & _ & ->).
    simpl. rewrite (storedBytes_delete k e); [lia | apply Hwf | assumption].
Qed.

Lemma evict_loop_drift (fuel : nat) (sizeMB : Z) c :
  wf c ->
  currentSizeMB (evict_loop fuel sizeMB c)
  - storedBytes (cache (evict_loop fuel sizeMB c))
  = currentSizeMB c - storedBytes (cache c).
Proof.
  revert c. induction fuel as [|fuel IH]; intros c Hwf; simpl; [reflexivity|].
  destruct (must_evict sizeMB c); [|reflexivity].
  rewrite IH by now apply evictLRU_wf. now apply evictLRU_drift.
Qed.

(** The loop evicts in the order of [lastAccess]: an entry it removed was
    used no later than an entry it kept. *)
Lemma evict_loop_order (fuel : nat) (sizeMB : Z) c k k' (e e' : Entry) :
  wf c ->
  get k (cache c) = Some e -> get k' (cache c) = Some e' ->
  get k (cache (evict_loop fuel sizeMB c)) = None ->
  get k' (cache (evict_loop fuel sizeMB c)) <> None ->
  lastAccess e <= lastAccess e'.
Proof.
  revert c. induction fuel as [|fuel IH]; intros c Hwf Hk Hk' Hgone Hkept; simpl in *.
  - congruence.
  - destruct (must_evict sizeMB c) eqn:Hm; [|congruence].
    assert (cache c <> []) as Hne by (destruct (cache c); [discriminate | discriminate]).
    destruct (evictLRU_spec c Hwf Hne) as (k0 & e0 & _ & Hget0 & Hmin & Hev).
    assert (k' <> k0) as Hk'0.
    { intros ->. destruct (evict_loop_get fuel sizeMB k0 (evictLRU c)) as [H|H];
        [congruence|].
      rewrite Hev in H at 2. simpl in H. rewrite get_delete_eq in H. congruence. }
    destruct (String.eqb_spec k k0) as [->|Hk0].
    + assert (e = e0) as -> by congruence.
      apply (Hmin k'). now apply get_Some_In.
    + apply (IH (evictLRU c)); try assumption.
      * now apply evictLRU_wf.
      * rewrite Hev. simpl. rewrite get_delete_ne by congruence. assumption.
      * rewrite Hev. simpl. rewrite get_delete_ne by congruence. assumption.
Qed.


(** ** [set] and [get] *)

(** X1.  A slice that was just [set] is in the cache, whatever its size and
    whatever the cache held: the next [get] for the same file and time index
    returns it.  [set] changes no other entry; at most it evicts it. *)
Theorem X1_set_then_get (f : string) (i : Z) (d : SliceData) (now now' : Z) c :
  let c' := SliceCache.set f i d now c in
  peek f i c' = Some {| data := d; lastAccess := now |}
  /\ fst (SliceCache.get f i now' c') = Some d
  /\ (forall f' i', (f', i') <> (f, i) ->
        peek f' i' c' = None \/ peek f' i' c' = peek f' i' c).
Proof.
  intros c'.
  assert (peek f i c' = Some {| data := d; lastAccess := now |}) as Hpeek.
  { unfold c', peek, SliceCache.set. simpl. apply get_set_eq. }
  split; [exact Hpeek|]. split.
  - unfold SliceCache.get. unfold peek in Hpeek. now rewrite Hpeek.
  - intros f' i' Hne. apply CacheTheorems.getKey_ne in Hne.
    unfold c', peek, SliceCache.set. simpl.
    rewrite get_set_ne by congruence.
    apply evict_loop_get.
Qed.

(** X2.  A [set] that fits the budget, or that finds the cache empty,
    evicts nothing: every other entry stays, with its timestamp; a new key
    goes to the end of the iteration order, a key already present keeps its
    place; the running total grows by the size of the slice. *)
Theorem X2_set_that_fits_evicts_nothing
    (f : string) (i : Z) (d : SliceData) (now : Z) c :
  currentSizeMB c + JS.byteLength d <= SLICE_CACHE_SIZE_MB * MB \/ cache c = [] ->
  let c' := SliceCache.set f i d now c in
  (forall f' i', (f', i') <> (f, i) -> peek f' i' c' = peek f' i' c)
  /\ keys (cache c')
     = match peek f i c with
       | Some _ => keys (cache c)
       | None => keys (cache c) ++ [getKey f i]
       end
  /\ currentSizeMB c' = currentSizeMB c + JS.byteLength d.
Proof.
  intros Hfits c'.
  assert (must_evict (sizeMB_of d) c = false) as Hm.
  { unfold must_evict. destruct Hfits as [Hfits| ->].
    - unfold sizeMB_of. apply andb_false_iff. left. apply Z.ltb_ge. exact Hfits.
    - apply andb_false_r. }
  unfold c'. rewrite (CacheTheorems.set_fits f i d now c Hm). simpl.
  split; [|split].
  - intros f' i' Hne. apply CacheTheorems.getKey_ne in Hne.
    unfold peek. simpl. apply get_set_ne. congruence.
  - unfold peek. destruct (get (getKey f i) (cache c)) as [old|] eqn:Hget.
    + apply keys_set_present. apply get_Some_In in Hget.
      now apply (in_map fst) in Hget.
    + rewrite keys_set_absent by now apply get_None_keys.
      unfold keys. now rewrite map_app.
  - reflexivity.
Qed.

(** X3.  Eviction follows the last access: when a [set] removes one entry
    and keeps another, the removed one was used no later than the kept
    one. *)
Theorem X3_set_evicts_least_recently_used
    (f fa fb : string) (i ia ib : Z) (d : SliceData) (now : Z) c (ea eb : Entry) :
  wf c ->
  peek fa ia c = Some ea -> peek fb ib c = Some eb ->
  (fb, ib) <> (f, i) ->
  let c' := SliceCache.set f i d now c in
  peek fa ia c' = None -> peek fb ib c' <> None ->
  lastAccess ea <= lastAccess eb.
Proof.
  intros Hwf Ha Hb Hne c' Hgone Hkept.
  apply CacheTheorems.getKey_ne in Hne.
  unfold c', peek, SliceCache.set in Hgone, Hkept. simpl in Hgone, Hkept.
  assert (getKey fa ia <> getKey f i) as Hna.
  { intros Heq. rewrite Heq, get_set_eq in Hgone. discriminate. }
  rewrite get_set_ne in Hgone by congruence.
  rewrite get_set_ne in Hkept by congruence.
  now apply (evict_loop_order (List.length (cache c)) (sizeMB_of d) c
               (getKey fa ia) (getKey fb ib)).
Qed.

(** X4.  A slice larger than the whole budget is cached all the same: the
    loop evicts every entry and the slice is stored alone. *)
Theorem X4_oversized_slice_is_stored_alone
    (f : string) (i : Z) (d : SliceData) (now : Z) c :
  wf c ->
  SLICE_CACHE_SIZE_MB * MB < JS.byteLength d ->
  SliceCache.set f i d now c
  = {| cache := [(getKey f i, {| data := d; lastAccess := now |})];
       currentSizeMB := currentSizeMB c - storedBytes (cache c) + JS.byteLength d |}.
Proof.
  intros Hwf Hbig. unfold SliceCache.set.
  destruct (evict_loop_exits (List.length (cache c)) (sizeMB_of d) c Hwf (le_n _))
    as [Hwf1 Hstop].
  pose proof (evict_loop_drift (List.length (cache c)) (sizeMB_of d) c Hwf) as Hdrift.
  set (c1 := evict_loop (List.length (cache c)) (sizeMB_of d) c) in *.
  assert (cache c1 = []) as Hempty.
  { unfold must_evict in Hstop. apply andb_false_iff in Hstop as [Hstop|Hstop].
    - apply Z.ltb_ge in Hstop. pose proof (wf_size c1 Hwf1).
      pose proof (storedBytes_nonneg (cache c1)). unfold sizeMB_of in Hstop. lia.
    - apply Z.ltb_ge in Hstop. unfold size in Hstop.
      destruct (cache c1); [reflexivity | simpl in Hstop; lia]. }
  rewrite Hempty in *. simpl in *. unfold sizeMB_of. f_equal. lia.
Qed.

(** X22.  The eviction loop of [set] terminates.  On every cache that
    [set], [get] and [clearForFile] can build from the empty one, each round
    of the loop removes an entry, so the loop is left within [cache.size]
    rounds, and it is left because its condition fails: the slice fits, or
    the cache is empty.  Further rounds would change nothing. *)
Theorem X22_eviction_loop_terminates (ops : list History.Op) (sizeMB : Z) :
  let c := History.run ops SliceCache.empty in
  let rounds := List.length (cache c) in
  must_evict sizeMB (evict_loop rounds sizeMB c) = false
  /\ (forall more : nat, evict_loop (rounds + more) sizeMB c = evict_loop rounds sizeMB c)
  /\ (cache c <> [] -> S (List.length (cache (evictLRU c))) = List.length (cache c)).
Proof.
  intros c rounds.
  assert (wf c) as Hwf by (apply run_wf, wf_empty).
  split; [|split].
  - now apply evict_loop_exits.
  - intros more. apply evict_loop_fuel; [assumption | unfold rounds; lia].
  - now apply evictLRU_length.
Qed.

(** ** [evictLRU] *)

(** From a first candidate on, the scan of [evictLRU] ends on the first
    entry whose [lastAccess] is least. *)
Lemma fold_oldest_first m k0 (t0 : Z) :
  (fold_left oldest_step m (Some k0, Some t0) = (Some k0, Some t0)
   /\ forall k' e', In (k', e') m -> t0 <= lastAccess e')
  \/ exists pre k e post,
       m = pre ++ (k, e) :: post
       /\ fold_left oldest_step m (Some k0, Some t0) = (Some k, Some (lastAccess e))
       /\ lastAccess e < t0
       /\ (forall k' e', In (k', e') pre -> lastAccess e < lastAccess e')
       /\ (forall k' e', In (k', e') post -> lastAccess e <= lastAccess e').
Proof.
  revert k0 t0. induction m as [|[k1 e1] m IH]; intros k0 t0.
  - left. split; [reflexivity | intros ? ? []].
  - simpl. destruct (lastAccess e1 <? t0) eqn:Hlt.
    + apply Z.ltb_lt in Hlt. right.
      destruct (IH k1 (lastAccess e1)) as [[Hfold Hmin]|(pre & k & e & post & -> & Hfold & Hlt' & Hpre & Hpost)].
      * exists [], k1, e1, m. split; [reflexivity|]. split; [exact Hfold|].
        split; [exact Hlt|]. split; [intros ? ? []|exact Hmin].
      * exists ((k1, e1) :: pre), k, e, post. split; [reflexivity|].
        split; [exact Hfold|]. split; [lia|]. split; [|exact Hpost].
        intros k' e' [[= <- <-]|Hin]; [exact Hlt' | now apply (Hpre k')].
    + apply Z.ltb_ge in Hlt.
      destruct (IH k0 t0) as [[Hfold Hmin]|(pre & k & e & post & -> & Hfold & Hlt' & Hpre & Hpost)].
      * left. split; [exact Hfold|].
        intros k' e' [[= <- <-]|Hin]; [exact Hlt | now apply (Hmin k')].
      * right. exists ((k1, e1) :: pre), k, e, post. split; [reflexivity|].
        split; [exact Hfold|]. split; [exact Hlt'|]. split; [|exact Hpost].
        intros k' e' [[= <- <-]|Hin]; [lia | now apply (Hpre k')].
Qed.

(** X6.  [evictLRU] removes exactly one entry: the first one, in the order
    of insertion, among those whose [lastAccess] is least.  Every entry
    before it is strictly younger; the running total drops by its size. *)
Theorem X6_evictLRU_removes_first_oldest c :
  wf c -> cache c <> [] ->
  exists pre k e post,
    cache c = pre ++ (k, e) :: post
    /\ (forall k' e', In (k', e') pre -> lastAccess e < lastAccess e')
    /\ (forall k' e', In (k', e') post -> lastAccess e <= lastAccess e')
    /\ evictLRU c = {| cache := pre ++ post;
                       currentSizeMB := currentSizeMB c - JS.byteLength (data e) |}.
Proof.
  intros Hwf Hne.
  assert (exists pre k e post,
            cache c = pre ++ (k, e) :: post
            /\ oldest (cache c) = Some k
            /\ (forall k' e', In (k', e') pre -> lastAccess e < lastAccess e')
            /\ (forall k' e', In (k', e') post -> lastAccess e <= lastAccess e'))
    as (pre & k & e & post & Hsplit & Hold & Hpre & Hpost).
  { destruct (cache c) as [|[k1 e1] m]; [congruence|].
    unfold oldest. simpl.
    destruct (fold_oldest_first m k1 (lastAccess e1))
      as [[Hfold Hmin]|(pre & k & e & post & -> & Hfold & Hlt & Hpre & Hpost)].
    - exists [], k1, e1, m. rewrite Hfold. repeat split; [intros ? ? []|exact Hmin].
    - exists ((k1, e1) :: pre), k, e, post. rewrite Hfold.
      split; [reflexivity|]. split; [reflexivity|]. split; [|exact Hpost].
      intros k' e' [[= <- <-]|Hin]; [exact Hlt | now apply (Hpre k')]. }
  exists pre, k, e, post. split; [exact Hsplit|]. split; [exact Hpre|].
  split; [exact Hpost|].
  destruct Hwf as [Hnd Hkeys _].
  assert (In (k, e) (cache c)) as Hin by (rewrite Hsplit; apply in_elt).
  unfold evictLRU. rewrite Hold.
  rewrite key_truthy_nonempty by (apply Hkeys; now apply (in_map fst) in Hin).
  rewrite (NoDup_keys_get k e _ Hnd Hin).
  rewrite Hsplit in Hnd |- *. now rewrite delete_middle.
Qed.


(** ** [clearForFile] and [getStatsForFile] *)

(** [getStatsForFile] counts and sums the entries that [clearForFile]
    deletes. *)
Lemma getStatsForFile_spec f c :
  getStatsForFile f c
  = (Z.of_nat (List.length (List.filter (of_file f) (cache c))),
     storedBytes (List.filter (of_file f) (cache c))).
Proof.
  unfold getStatsForFile.
  assert (forall m (n s : Z),
            fold_left
              (fun '(count, sizeMB) '(key, entry) =>
                 if key_of_file f key
                 then (count + 1, sizeMB + sizeMB_of (data entry))
                 else (count, sizeMB)) m (n, s)
            = (n + Z.of_nat (List.length (List.filter (of_file f) m)),
               s + storedBytes (List.filter (of_file f) m))) as Hfold.
  { induction m as [|[k e] m IH]; intros n s; simpl.
    - f_equal; lia.
    - change (of_file f (k, e)) with (key_of_file f k).
      destruct (key_of_file f k); rewrite IH; simpl; f_equal; lia. }
  rewrite Hfold. f_equal.
Qed.

Lemma filter_twice (p q : string * Entry -> bool) m :
  List.filter p (List.filter q m) = List.filter q (List.filter p m).
Proof.
  induction m as [|kv m IH]; simpl; [reflexivity|].
  destruct (p kv) eqn:Hp, (q kv) eqn:Hq; simpl; rewrite ?Hp, ?Hq, IH; reflexivity.
Qed.

Lemma storedBytes_two_files (f g : string) m :
  storedBytes (List.filter (of_file g) m)
  + storedBytes (List.filter (of_file f) (List.filter (fun kv => negb (of_file g kv)) m))
  = storedBytes (List.filter (of_file f) m)
    + storedBytes (List.filter (of_file g) (List.filter (fun kv => negb (of_file f kv)) m)).
Proof.
  induction m as [|kv m IH]; simpl; [reflexivity|].
  destruct (of_file f kv) eqn:Hf, (of_file g kv) eqn:Hg; simpl;
    rewrite ?Hf, ?Hg; simpl; lia.
Qed.

Lemma filter_none (p : string * Entry -> bool) m :
  List.filter p (List.filter (fun kv => negb (p kv)) m) = [].
Proof.
  induction m as [|kv m IH]; simpl; [reflexivity|].
  destruct (p kv) eqn:Hp; simpl; rewrite ?Hp; assumption.
Qed.

Lemma filter_same (p : string * Entry -> bool) m :
  List.filter p (List.filter p m) = List.filter p m.
Proof.
  induction m as [|kv m IH]; simpl; [reflexivity|].
  destruct (p kv) eqn:Hp; simpl; rewrite ?Hp, IH; reflexivity.
Qed.

(** A key made for [f] starts with [f] and a colon. *)
Lemma key_of_file_own f (i : Z) : key_of_file f (getKey f i) = true.
Proof.
  unfold key_of_file, getKey. generalize (pretty i). intros s.
  induction f as [|a f IH]; simpl.
  - destruct (ascii_dec ":" ":"); [apply prefix_nil | congruence].
  - destruct (ascii_dec a a); [exact IH | congruence].
Qed.

(** After [clearForFile(f)] the cache holds nothing for [f]. *)
Lemma clearForFile_leaves_nothing f c :
  wf c ->
  getStatsForFile f (clearForFile f c) = (0, 0)
  /\ forall (i now : Z),
       SliceCache.get f i now (clearForFile f c) = (None, clearForFile f c).
Proof.
  intros Hwf. split.
  - rewrite getStatsForFile_spec.
    rewrite clearForFile_spec by apply Hwf. simpl.
    now rewrite filter_none.
  - intros i now. apply GetSliceTheorems.get_miss.
    rewrite CacheTheorems.clearForFile_peek by assumption.
    now rewrite key_of_file_own.
Qed.

(** X8.  [clearForFile(f)] releases exactly what [getStatsForFile(f)]
    reports: the number of entries drops by [cacheSize], the running total and
    the stored size by [totalSizeMB]. *)
Theorem X8_clearForFile_releases_what_getStatsForFile_reports f c :
  wf c ->
  let stats := getStatsForFile f c in
  size (cache (clearForFile f c)) = size (cache c) - fst stats
  /\ currentSizeMB (clearForFile f c) = currentSizeMB c - snd stats
  /\ storedBytes (cache (clearForFile f c)) = storedBytes (cache c) - snd stats.
Proof.
  intros Hwf stats. unfold stats.
  rewrite getStatsForFile_spec, clearForFile_spec by apply Hwf. simpl.
  split; [|split].
  - unfold size.
    pose proof (filter_length (of_file f) (cache c)) as Hlen. lia.
  - reflexivity.
  - rewrite (storedBytes_filter_split (of_file f) (cache c)). lia.
Qed.

(** X9.  Clearing is idempotent, and clearing two files gives the same
    cache in either order. *)
Theorem X9_clearForFile_idempotent_and_commutative (f g : string) c :
  wf c ->
  clearForFile f (clearForFile f c) = clearForFile f c
  /\ clearForFile f (clearForFile g c) = clearForFile g (clearForFile f c).
Proof.
  intros Hwf.
  pose proof (clearForFile_wf f c Hwf) as Hwff.
  pose proof (clearForFile_wf g c Hwf) as Hwfg.
  split.
  - rewrite (clearForFile_spec f (clearForFile f c)) by apply Hwff.
    rewrite (clearForFile_spec f c) by apply Hwf. simpl.
    rewrite filter_none, filter_same. simpl. f_equal. lia.
  - rewrite (clearForFile_spec f (clearForFile g c)) by apply Hwfg.
    rewrite (clearForFile_spec g (clearForFile f c)) by apply Hwff.
    rewrite (clearForFile_spec f c), (clearForFile_spec g c) by apply Hwf. simpl.
    f_equal; [apply filter_twice|].
    pose proof (storedBytes_two_files f g (cache c)). lia.
Qed.

(** ** [getKey] *)

(** X10.  Two keys are equal only for the same file and the same time
    index: entries of different slices never share a key, also when a file
    name contains a colon. *)
Theorem X10_getKey_injective (f f' : string) (i i' : Z) :
  getKey f i = getKey f' i' <-> f = f' /\ i = i'.
Proof.
  split.
  - intros Heq. unfold getKey in Heq.
    apply colon_split in Heq as [Hf Hi]; try apply pretty_Z_colon_free.
    split; [exact Hf|]. now apply (inj pretty).
  - intros [-> ->]. reflexivity.
Qed.


(** ** Runs *)

(** A run of X2: a second slice of the same file, well within the
    budget. *)
Lemma X2_set_that_fits_evicts_nothing_witness :
  let c := SliceCache.set "a.npy" 0 (JS.Uint8Array [1; 2]) 1 SliceCache.empty in
  let c' := SliceCache.set "a.npy" 1 (JS.Uint8Array [3]) 2 c in
  peek "a.npy" 0 c' = Some {| data := JS.Uint8Array [1; 2]; lastAccess := 1 |}
  /\ keys (cache c') = [getKey "a.npy" 0; getKey "a.npy" 1]
  /\ currentSizeMB c' = 3.
Proof.
  intros c c'.
  destruct (X2_set_that_fits_evicts_nothing "a.npy" 1 (JS.Uint8Array [3]) 2 c)
    as (Hframe & Hkeys & Htotal).
  - left. vm_compute. discriminate.
  - fold c' in Hframe, Hkeys, Htotal. split; [|split].
    + rewrite Hframe by congruence. reflexivity.
    + rewrite Hkeys. reflexivity.
    + rewrite Htotal. reflexivity.
Defined.

(** A run of X3: three slices of 80 MiB used at times 1, 2 and 3; a
    fourth one evicts the first and keeps the second. *)
Lemma X3_set_evicts_least_recently_used_witness :
  let d := zeros (80 * (1024 * 1024)) in
  let c :=
    SliceCache.set "f" 2 d 3
      (SliceCache.set "f" 1 d 2 (SliceCache.set "f" 0 d 1 SliceCache.empty)) in
  let c' := SliceCache.set "f" 3 d 5 c in
  peek "f" 0 c' = None
  /\ peek "f" 1 c' <> None
  /\ lastAccess {| data := d; lastAccess := 1 |}
     <= lastAccess {| data := d; lastAccess := 2 |}.
Proof.
  intros d c c'.
  assert (sizeMB_of d = 80 * (1024 * 1024)) as Hd
    by (apply CacheTheorems.sizeMB_of_zeros; lia).
  assert (forall i j : Z, i <> j -> getKey "f" i <> getKey "f" j) as Hk.
  { intros i j Hij. apply CacheTheorems.getKey_ne. congruence. }
  assert (cache c =
          [(getKey "f" 0, {| data := d; lastAccess := 1 |});
           (getKey "f" 1, {| data := d; lastAccess := 2 |});
           (getKey "f" 2, {| data := d; lastAccess := 3 |})]) as Hc.
  { unfold c. rewrite CacheTheorems.three_inserted;
      [reflexivity | try (apply Hk; lia) ..]. rewrite ?Hd. lia. }
  assert (cache c' =
          [(getKey "f" 1, {| data := d; lastAccess := 2 |});
           (getKey "f" 2, {| data := d; lastAccess := 3 |});
           (getKey "f" 3, {| data := d; lastAccess := 5 |})]) as Hc'.
  { unfold c', c. apply CacheTheorems.forcing_set_evicts_first;
      try (apply Hk; lia); rewrite ?Hd; lia. }
  assert (peek "f" 0 c' = None) as Hgone.
  { unfold peek. rewrite Hc'. cbn -[String.eqb getKey].
    rewrite !(proj2 (String.eqb_neq _ _)) by (apply Hk; lia). reflexivity. }
  assert (peek "f" 1 c' <> None) as Hkept.
  { unfold peek. rewrite Hc'. cbn -[String.eqb getKey].
    rewrite String.eqb_refl. discriminate. }
  split; [exact Hgone|]. split; [exact Hkept|].
  apply (X3_set_evicts_least_recently_used "f" "f" "f" 3 0 1 d 5 c).
  - unfold c. apply set_wf, set_wf, set_wf, wf_empty.
  - unfold peek. rewrite Hc. cbn -[String.eqb getKey].
    now rewrite String.eqb_refl.
  - unfold peek. rewrite Hc. cbn -[String.eqb getKey].
    rewrite (proj2 (String.eqb_neq _ _)) by (apply Hk; lia).
    now rewrite String.eqb_refl.
  - congruence.
  - exact Hgone.
  - exact Hkept.
Defined.

(** A run of X4: a slice of 256 MiB and one byte put into a cache that
    holds one small slice. *)
Lemma X4_oversized_slice_is_stored_alone_witness :
  let d := zeros (256 * (1024 * 1024) + 1) in
  let c := SliceCache.set "f" 0 (JS.Uint8Array [1]) 1 SliceCache.empty in
  SliceCache.set "g" 0 d 2 c
  = {| cache := [(getKey "g" 0, {| data := d; lastAccess := 2 |})];
       currentSizeMB := currentSizeMB c - storedBytes (cache c) + JS.byteLength d |}.
Proof.
  intros d c. apply X4_oversized_slice_is_stored_alone.
  - unfold c. apply set_wf, wf_empty.
  - change (JS.byteLength d) with (sizeMB_of d). unfold d.
    rewrite CacheTheorems.sizeMB_of_zeros by lia.
    unfold SLICE_CACHE_SIZE_MB, MB. lia.
Defined.

(** A run of X6: entries used at times 2, 1, 1 in the order of
    insertion. *)
Lemma X6_evictLRU_removes_first_oldest_witness :
  let c :=
    SliceCache.set "f" 2 (JS.Uint8Array [3]) 1
      (SliceCache.set "f" 1 (JS.Uint8Array [2]) 1
         (SliceCache.set "f" 0 (JS.Uint8Array [1]) 2 SliceCache.empty)) in
  exists pre k e post,
    cache c = pre ++ (k, e) :: post
    /\ (forall k' e', In (k', e') pre -> lastAccess e < lastAccess e')
    /\ (forall k' e', In (k', e') post -> lastAccess e <= lastAccess e')
    /\ evictLRU c = {| cache := pre ++ post;
                       currentSizeMB := currentSizeMB c - JS.byteLength (data e) |}.
Proof.
  intros c. apply X6_evictLRU_removes_first_oldest.
  - unfold c. apply set_wf, set_wf, set_wf, wf_empty.
  - vm_compute. discriminate.
Defined.

(** A run of X8 on a cache with slices of two files. *)
Lemma X8_clearForFile_releases_what_getStatsForFile_reports_witness :
  let c :=
    SliceCache.set "b.npy" 0 (JS.Uint8Array [4; 5; 6]) 2
      (SliceCache.set "a.npy" 0 (JS.Uint8Array [1; 2]) 1 SliceCache.empty) in
  getStatsForFile "a.npy" c = (1, 2)
  /\ size (cache (clearForFile "a.npy" c)) = size (cache c) - 1
  /\ currentSizeMB (clearForFile "a.npy" c) = currentSizeMB c - 2.
Proof.
  intros c.
  destruct (X8_clearForFile_releases_what_getStatsForFile_reports "a.npy" c)
    as (Hsize & Htotal & _).
  - unfold c. apply set_wf, set_wf, wf_empty.
  - assert (getStatsForFile "a.npy" c = (1, 2)) as Hstats by (vm_compute; reflexivity).
    rewrite Hstats in Hsize, Htotal. now split.
Defined.

(** A run of X9 on the same cache. *)
Lemma X9_clearForFile_idempotent_and_commutative_witness :
  let c :=
    SliceCache.set "b.npy" 0 (JS.Uint8Array [4; 5; 6]) 2
      (SliceCache.set "a.npy" 0 (JS.Uint8Array [1; 2]) 1 SliceCache.empty) in
  clearForFile "a.npy" (clearForFile "a.npy" c) = clearForFile "a.npy" c
  /\ clearForFile "a.npy" (clearForFile "b.npy" c)
     = clearForFile "b.npy" (clearForFile "a.npy" c).
Proof.
  intros c. apply X9_clearForFile_idempotent_and_commutative.
  unfold c. apply set_wf, set_wf, wf_empty.
Defined.

End CacheProperties.

(* ===================================================================== *)
(** * The datasets on the shared cache *)
(* ===================================================================== *)

Module DatasetProperties.
Import SliceCache JSMap JSMapFacts KeyFacts SliceCacheFacts CacheProperties.

Implicit Types (c : SliceCache.t) (m : list (string * Entry)) (k f : string).

Section Datasets.
Context {E File ArrayBuffer DataType : Type} {errors : JS.Errors E}.
Context (io : NpyLazyDataset.Imports E File ArrayBuffer DataType).
Implicit Types (d : Session.Dataset E File DataType).

(** ** The ways through [getSlice] *)

(** What [getSlice(t)] returns and leaves behind: a hit; a failed read
    after a miss; a read after a miss, stored under the key that missed. *)
Lemma getSlice_cases d (t now : Z) c :
  let f := Session.fileId d in
  let r := Session.getSlice io d t now c in
  (exists e, peek f t c = Some e
             /\ r = (Return (data e), snd (SliceCache.get f t now c)))
  \/ (peek f t c = None /\ exists err, r = (Throw err, c))
  \/ (peek f t c = None /\ exists s, r = (Return s, SliceCache.set f t s now c)).
Proof.
  intros f r. destruct (peek f t c) as [e|] eqn:Hpeek.
  - left. exists e. split; [reflexivity|]. unfold r, f in *.
    destruct d as [ds|ds]; simpl in *;
      [now apply GetSliceTheorems.netcdf_hit | now apply GetSliceTheorems.npy_hit].
  - right. unfold r, f in *. destruct d as [ds|ds]; simpl in *.
    + destruct (NetCDFLazyDataset.slice ds [t; 0; 0]
                  [1; snd (fst (NetCDFLazyDataset.shape ds));
                   snd (NetCDFLazyDataset.shape ds)]) as [err|raw] eqn:Hread.
      * left. split; [reflexivity|]. exists err.
        now apply GetSliceTheorems.netcdf_miss_throw.
      * rewrite (GetSliceTheorems.netcdf_miss_read ds t now c raw Hpeek Hread).
        destruct (quantize (NetCDFLazyDataset.dataVarName ds) raw) as [err|s].
        -- left. split; [reflexivity|]. now exists err.
        -- right. split; [reflexivity|]. now exists s.
    + destruct (NpyLazyDataset.loadNpyTimeSlice io (NpyLazyDataset.file ds)
                  (NpyLazyDataset.metadata ds) t) as [err|raw] eqn:Hread.
      * left. split; [reflexivity|]. exists err.
        now apply GetSliceTheorems.npy_miss_throw.
      * right. split; [reflexivity|].
        exists (match raw with
                | JS.Float32Array _ => raw
                | _ => JS.new_Float32Array raw
                end).
        exact (GetSliceTheorems.npy_miss_return io ds t now c raw Hpeek Hread).
Qed.

Lemma getCachedSlice_get d (t now : Z) c :
  Session.getCachedSlice d t now c = SliceCache.get (Session.fileId d) t now c.
Proof. now destruct d. Qed.

Lemma clearCache_clearForFile d c :
  Session.clearCache d c = clearForFile (Session.fileId d) c.
Proof. now destruct d. Qed.

Lemma dispose_clearForFile d c :
  Session.dispose d c = clearForFile (Session.fileId d) c.
Proof. now destruct d. Qed.

Lemma getStats_getStatsForFile d c :
  Session.getStats d c = getStatsForFile (Session.fileId d) c.
Proof. now destruct d. Qed.

(** ** The running total under calls that do not overlap *)

(** A [set] for a key that is absent keeps the running total equal to the
    stored size, and leaves the cache within the budget or with the new
    slice alone. *)
Lemma set_absent_settled f (i : Z) (s : SliceData) (now : Z) c :
  wf c -> currentSizeMB c = storedBytes (cache c) -> peek f i c = None ->
  let c' := SliceCache.set f i s now c in
  currentSizeMB c' = storedBytes (cache c')
  /\ (currentSizeMB c' <= SLICE_CACHE_SIZE_MB * MB \/ List.length (cache c') = 1%nat).
Proof.
  intros Hwf Hexact Hmiss c'. unfold c', SliceCache.set.
  destruct (evict_loop_exits (List.length (cache c)) (sizeMB_of s) c Hwf (le_n _))
    as [Hwf1 Hstop].
  pose proof (evict_loop_drift (List.length (cache c)) (sizeMB_of s) c Hwf) as Hdrift.
  assert (get (getKey f i) (cache (evict_loop (List.length (cache c)) (sizeMB_of s) c))
          = None) as Hmiss1.
  { destruct (evict_loop_get (List.length (cache c)) (sizeMB_of s) (getKey f i) c)
      as [H|H]; [exact H | now rewrite H]. }
  set (c1 := evict_loop (List.length (cache c)) (sizeMB_of s) c) in *.
  simpl. rewrite storedBytes_set, Hmiss1. simpl. split; [lia|].
  unfold must_evict in Hstop. apply andb_false_iff in Hstop as [Hstop|Hstop].
  - left. apply Z.ltb_ge in Hstop. exact Hstop.
  - right. apply Z.ltb_ge in Hstop. unfold size in Hstop.
    destruct (cache c1); [reflexivity | simpl in Hstop; lia].
Qed.

Lemma get_settled f (i now : Z) c :
  currentSizeMB c = storedBytes (cache c) ->
  currentSizeMB c <= SLICE_CACHE_SIZE_MB * MB \/ List.length (cache c) = 1%nat ->
  let c' := snd (SliceCache.get f i now c) in
  currentSizeMB c' = storedBytes (cache c')
  /\ (currentSizeMB c' <= SLICE_CACHE_SIZE_MB * MB \/ List.length (cache c') = 1%nat).
Proof.
  intros Hexact Hbudget c'. unfold c'.
  rewrite get_currentSizeMB, get_cache.
  destruct (get (getKey f i) (cache c)) as [e|] eqn:Hget; [|now split].
  rewrite storedBytes_touch by assumption.
  rewrite length_set, Hget. now split.
Qed.

Lemma clearForFile_settled f c :
  wf c -> currentSizeMB c = storedBytes (cache c) ->
  currentSizeMB c <= SLICE_CACHE_SIZE_MB * MB \/ List.length (cache c) = 1%nat ->
  let c' := clearForFile f c in
  currentSizeMB c' = storedBytes (cache c')
  /\ (currentSizeMB c' <= SLICE_CACHE_SIZE_MB * MB \/ List.length (cache c') = 1%nat).
Proof.
  intros Hwf Hexact Hbudget c'. unfold c'.
  rewrite clearForFile_spec by apply Hwf. simpl.
  pose proof (storedBytes_filter_split (of_file f) (cache c)) as Hsplit.
  pose proof (storedBytes_nonneg (List.filter (of_file f) (cache c))) as Hpos.
  split; [lia|].
  destruct Hbudget as [Hle|Hone]; [left; lia|].
  revert Hexact Hsplit Hpos Hone.
  destruct (cache c) as [|kv [|kv' m]]; try discriminate.
  simpl. destruct (of_file f kv); simpl; intros; [left | now right].
  unfold SLICE_CACHE_SIZE_MB, MB. lia.
Qed.

Lemma step_settled (call : Session.Call E File DataType) c :
  wf c -> currentSizeMB c = storedBytes (cache c) ->
  currentSizeMB c <= SLICE_CACHE_SIZE_MB * MB \/ List.length (cache c) = 1%nat ->
  let c' := Session.step io c call in
  wf c'
  /\ currentSizeMB c' = storedBytes (cache c')
  /\ (currentSizeMB c' <= SLICE_CACHE_SIZE_MB * MB \/ List.length (cache c') = 1%nat).
Proof.
  intros Hwf Hexact Hbudget c'. unfold c'.
  destruct call as [d t now|d t now|d|d]; simpl.
  - destruct (getSlice_cases d t now c)
      as [(e & _ & ->)|[(_ & err & ->)|(Hmiss & s & ->)]]; simpl.
    + split; [now apply get_wf | now apply get_settled].
    + now split.
    + split; [now apply set_wf | now apply set_absent_settled].
  - rewrite getCachedSlice_get. split; [now apply get_wf | now apply get_settled].
  - rewrite clearCache_clearForFile.
    split; [now apply clearForFile_wf | now apply clearForFile_settled].
  - rewrite dispose_clearForFile.
    split; [now apply clearForFile_wf | now apply clearForFile_settled].
Qed.
End Datasets.

(** X5.  Through calls that do not overlap the running total of the cache
    is exact.  A dataset writes to the cache only in [getSlice], and only
    after its own [get] missed; so no key is set while it is present, and
    after any sequence of [getSlice], [getCachedSlice], [clearCache] and
    [dispose] on any datasets [currentSizeMB] is the sum of the sizes of the
    slices stored.  The cache is then within the budget, or holds one slice
    alone. *)
Theorem X5_running_total_exact_when_calls_do_not_overlap
    {E File ArrayBuffer DataType : Type} {errors : JS.Errors E}
    (io : NpyLazyDataset.Imports E File ArrayBuffer DataType)
    (calls : list (Session.Call E File DataType)) :
  let c := Session.run io calls SliceCache.empty in
  currentSizeMB c = storedBytes (cache c)
  /\ (currentSizeMB c <= SLICE_CACHE_SIZE_MB * MB \/ List.length (cache c) = 1%nat).
Proof.
  intros c.
  assert (forall calls c0,
            wf c0 -> currentSizeMB c0 = storedBytes (cache c0) ->
            currentSizeMB c0 <= SLICE_CACHE_SIZE_MB * MB
            \/ List.length (cache c0) = 1%nat ->
            currentSizeMB (Session.run io calls c0)
            = storedBytes (cache (Session.run io calls c0))
            /\ (currentSizeMB (Session.run io calls c0) <= SLICE_CACHE_SIZE_MB * MB
                \/ List.length (cache (Session.run io calls c0)) = 1%nat)) as Hrun.
  { clear calls c. induction calls as [|call calls IH]; intros c0 Hwf Hexact Hbudget.
    - now split.
    - destruct (step_settled io call c0 Hwf Hexact Hbudget) as (Hwf' & Hexact' & Hbudget').
      now apply (IH (Session.step io c0 call)). }
  apply Hrun; [apply wf_empty | reflexivity |].
  left. simpl. unfold SLICE_CACHE_SIZE_MB, MB. lia.
Qed.

(** X7.  [clearCache] and [dispose] make the cache forget the dataset:
    afterwards [getStats] reports no slice and no byte, every
    [getCachedSlice] returns [undefined] and leaves the cache as it is. *)
Theorem X7_clearCache_forgets_the_dataset
    {E File DataType : Type} (d : Session.Dataset E File DataType) c :
  wf c ->
  let c' := Session.clearCache d c in
  Session.dispose d c = c'
  /\ Session.getStats d c' = (0, 0)
  /\ forall t now, Session.getCachedSlice d t now c' = (None, c').
Proof.
  intros Hwf c'. unfold c'.
  rewrite dispose_clearForFile, clearCache_clearForFile, getStats_getStatsForFile.
  destruct (clearForFile_leaves_nothing (Session.fileId d) c Hwf) as [Hstats Hget].
  split; [reflexivity|]. split; [exact Hstats|].
  intros t now. rewrite getCachedSlice_get. apply Hget.
Qed.


(** ** [getStats] along [getSlice] *)

(** Stamping an entry changes neither the count nor the size reported for
    any file. *)
Lemma getStatsForFile_touch f k (e : Entry) (now : Z) m (total total' : Z) :
  get k m = Some e ->
  getStatsForFile f {| cache := set k (touch now e) m; currentSizeMB := total |}
  = getStatsForFile f {| cache := m; currentSizeMB := total' |}.
Proof.
  intros Hget. rewrite !getStatsForFile_spec. simpl.
  induction m as [|[k0 e0] m IH]; simpl in *; [discriminate|].
  destruct (String.eqb k0 k) eqn:Hk.
  - injection Hget as ->. simpl.
    change (of_file f (k0, touch now e)) with (of_file f (k0, e)).
    destruct (of_file f (k0, e)); reflexivity.
  - simpl. specialize (IH Hget). injection IH as Hlen Hsize.
    destruct (of_file f (k0, e0)); simpl; f_equal; lia.
Qed.

(** A new key that fits adds one entry and its size to the file it belongs
    to. *)
Lemma getStatsForFile_set_new f (i : Z) (s : SliceData) (now : Z) c :
  peek f i c = None ->
  currentSizeMB c + JS.byteLength s <= SLICE_CACHE_SIZE_MB * MB ->
  getStatsForFile f (SliceCache.set f i s now c)
  = (fst (getStatsForFile f c) + 1, snd (getStatsForFile f c) + JS.byteLength s).
Proof.
  intros Hmiss Hfits.
  rewrite CacheTheorems.set_fits by now apply CacheTheorems.must_evict_fits.
  rewrite !getStatsForFile_spec. simpl.
  rewrite keys_set_absent by now apply get_None_keys.
  rewrite List.filter_app. simpl.
  change (of_file f (getKey f i, {| data := s; lastAccess := now |}))
    with (key_of_file f (getKey f i)).
  rewrite key_of_file_own, length_app, storedBytes_app. simpl.
  unfold sizeMB_of. f_equal; lia.
Qed.

(** X11.  [getStats] follows [getSlice]: a call that is served from the
    cache leaves the statistics of every dataset as they are; a call that
    reads a slice and stores it within the budget adds one slice and its
    [byteLength] to the statistics of the dataset. *)
Theorem X11_getStats_follows_getSlice
    {E File ArrayBuffer DataType : Type} {errors : JS.Errors E}
    (io : NpyLazyDataset.Imports E File ArrayBuffer DataType)
    (d : Session.Dataset E File DataType) (t now : Z) c (s : SliceData) c' :
  Session.getSlice io d t now c = (Return s, c') ->
  (peek (Session.fileId d) t c <> None ->
   forall d' : Session.Dataset E File DataType,
     Session.getStats d' c' = Session.getStats d' c)
  /\ (peek (Session.fileId d) t c = None ->
      currentSizeMB c + JS.byteLength s <= SLICE_CACHE_SIZE_MB * MB ->
      Session.getStats d c'
      = (fst (Session.getStats d c) + 1, snd (Session.getStats d c) + JS.byteLength s)).
Proof.
  intros Hcall.
  destruct (getSlice_cases io d t now c)
    as [(e & Hhit & Hr)|[(Hmiss & err & Hr)|(Hmiss & s' & Hr)]];
    rewrite Hr in Hcall; injection Hcall as <- <- || discriminate Hcall.
  - split; [|congruence]. intros _ d'. rewrite !getStats_getStatsForFile.
    unfold SliceCache.get. unfold peek in Hhit. rewrite Hhit. simpl.
    destruct c as [m total]. simpl in *. now apply getStatsForFile_touch.
  - split; [congruence|]. intros _ Hfits. rewrite !getStats_getStatsForFile.
    now apply getStatsForFile_set_new.
Qed.

(** ** [getSlice] twice *)

(** X15.  Once [getSlice(t)] has returned a slice, the next [getSlice(t)]
    on any dataset with the same file name returns that very slice from the
    cache: it does what [getCachedSlice(t)] does and reads nothing.  The
    second dataset may be of the other class, have another reader or another
    variable name: the key holds the file name and the time index only. *)
Theorem X15_getSlice_again_is_served_from_the_cache
    {E File ArrayBuffer DataType : Type} {errors : JS.Errors E}
    (io io' : NpyLazyDataset.Imports E File ArrayBuffer DataType)
    (d d' : Session.Dataset E File DataType) (t now now' : Z) c (s : SliceData) c' :
  Session.fileId d' = Session.fileId d ->
  Session.getSlice io d t now c = (Return s, c') ->
  fst (Session.getCachedSlice d' t now' c') = Some s
  /\ Session.getSlice io' d' t now' c'
     = (Return s, snd (Session.getCachedSlice d' t now' c')).
Proof.
  intros Hname Hcall.
  assert (exists e, peek (Session.fileId d) t c' = Some e /\ data e = s)
    as (e' & Hpeek & Hdata).
  { destruct (getSlice_cases io d t now c)
      as [(e & Hhit & Hr)|[(Hmiss & err & Hr)|(Hmiss & s' & Hr)]];
      rewrite Hr in Hcall; injection Hcall as <- <- || discriminate Hcall.
    - exists (touch now e). split; [|reflexivity].
      unfold SliceCache.get. unfold peek in *. rewrite Hhit. simpl.
      apply get_set_eq.
    - exists {| data := s'; lastAccess := now |}. split; [|reflexivity].
      unfold peek, SliceCache.set. simpl. apply get_set_eq. }
  rewrite <- Hname in Hpeek.
  assert (SliceCache.get (Session.fileId d') t now' c'
          = (Some s, snd (SliceCache.get (Session.fileId d') t now' c'))) as Hget.
  { unfold SliceCache.get. unfold peek in Hpeek. rewrite Hpeek. simpl. now rewrite Hdata. }
  rewrite getCachedSlice_get. split; [now rewrite Hget|].
  destruct (getSlice_cases io' d' t now' c')
    as [(e & Hhit & Hr)|[(Hmiss & _)|(Hmiss & _)]]; [|congruence..].
  rewrite Hr. f_equal. congruence.
Qed.

(** X16.  A [getSlice] that fails changes nothing: the cache after the call
    is the cache before it, with no entry for the slice, so the next call
    for the same slice goes to the reader again. *)
Theorem X16_failed_getSlice_leaves_the_cache_unchanged
    {E File ArrayBuffer DataType : Type} {errors : JS.Errors E}
    (io : NpyLazyDataset.Imports E File ArrayBuffer DataType)
    (d : Session.Dataset E File DataType) (t now : Z) c (err : E) c' :
  Session.getSlice io d t now c = (Throw err, c') ->
  c' = c
  /\ peek (Session.fileId d) t c' = None
  /\ forall now', Session.getCachedSlice d t now' c' = (None, c').
Proof.
  intros Hcall.
  destruct (getSlice_cases io d t now c)
    as [(e & Hhit & Hr)|[(Hmiss & err' & Hr)|(Hmiss & s' & Hr)]];
    rewrite Hr in Hcall; try discriminate Hcall.
  injection Hcall as <- <-. split; [reflexivity|]. split; [exact Hmiss|].
  intros now'. rewrite getCachedSlice_get. now apply GetSliceTheorems.get_miss.
Qed.


(** ** Runs *)

Section Runs.

(** A NetCDF dataset of one time step whose reader returns two cells, and
    one whose reader fails. *)
Let cells : NetCDFLazyDataset.t unit :=
  {| NetCDFLazyDataset.filename := "a.nc";
     NetCDFLazyDataset.dataVarName := "illumination";
     NetCDFLazyDataset.shape := (1, 1, 2);
     NetCDFLazyDataset.slice := fun _ _ => Return (JS.Numbers (JS.Uint8Array [5; 6])) |}.

Let broken : NetCDFLazyDataset.t unit :=
  {| NetCDFLazyDataset.filename := "a.nc";
     NetCDFLazyDataset.dataVarName := "elevation";
     NetCDFLazyDataset.shape := (1, 1, 2);
     NetCDFLazyDataset.slice := fun _ _ => Throw tt |}.

Let D (ds : NetCDFLazyDataset.t unit) : Session.Dataset unit (list Z) unit :=
  Session.NetCDF ds.

(** A run of X7: the slice read is forgotten by [clearCache]. *)
Lemma X7_clearCache_forgets_the_dataset_witness :
  let c := snd (Session.getSlice Int32File.io (D cells) 0 1 SliceCache.empty) in
  Session.getStats (D cells) c = (1, 2)
  /\ Session.getStats (D cells) (Session.clearCache (D cells) c) = (0, 0)
  /\ Session.getCachedSlice (D cells) 0 2 (Session.clearCache (D cells) c)
     = (None, Session.clearCache (D cells) c).
Proof.
  intros c.
  destruct (X7_clearCache_forgets_the_dataset (D cells) c) as (_ & Hstats & Hprobe).
  - unfold c. simpl. apply set_wf, wf_empty.
  - split; [vm_compute; reflexivity|]. split; [exact Hstats | apply Hprobe].
Defined.

(** A run of X11: the first [getSlice] adds one slice of two bytes. *)
Lemma X11_getStats_follows_getSlice_witness :
  let c := snd (Session.getSlice Int32File.io (D cells) 0 1 SliceCache.empty) in
  Session.getStats (D cells) SliceCache.empty = (0, 0)
  /\ Session.getStats (D cells) c = (0 + 1, 0 + 2).
Proof.
  intros c.
  destruct (X11_getStats_follows_getSlice Int32File.io (D cells) 0 1 SliceCache.empty
              (JS.Uint8Array [5; 6]) c) as [_ Hmiss].
  - reflexivity.
  - split; [reflexivity|]. apply Hmiss; [reflexivity|].
    vm_compute. discriminate.
Defined.

(** A run of X15: the dataset whose reader fails and whose variable has
    another rule is served the slice cached under the same file name. *)
Lemma X15_getSlice_again_is_served_from_the_cache_witness :
  let c := snd (Session.getSlice Int32File.io (D cells) 0 1 SliceCache.empty) in
  fst (Session.getSlice Int32File.io (D broken) 0 2 SliceCache.empty) = Throw tt
  /\ fst (Session.getSlice Int32File.io (D broken) 0 2 c) = Return (JS.Uint8Array [5; 6]).
Proof.
  intros c.
  destruct (X15_getSlice_again_is_served_from_the_cache Int32File.io Int32File.io
              (D cells) (D broken) 0 1 2 SliceCache.empty (JS.Uint8Array [5; 6]) c)
    as [_ Hagain].
  - reflexivity.
  - reflexivity.
  - split; [reflexivity|]. now rewrite Hagain.
Defined.

(** A run of X16: a failed read into the empty cache leaves it empty. *)
Lemma X16_failed_getSlice_leaves_the_cache_unchanged_witness :
  snd (Session.getSlice Int32File.io (D broken) 0 1 SliceCache.empty) = SliceCache.empty
  /\ peek "a.nc" 0 (snd (Session.getSlice Int32File.io (D broken) 0 1 SliceCache.empty))
     = None.
Proof.
  destruct (X16_failed_getSlice_leaves_the_cache_unchanged Int32File.io (D broken) 0 1
              SliceCache.empty tt
              (snd (Session.getSlice Int32File.io (D broken) 0 1 SliceCache.empty)))
    as (Hsame & Hmiss & _).
  - reflexivity.
  - split; [exact Hsame | exact Hmiss].
Defined.
End Runs.

End DatasetProperties.

(* ===================================================================== *)
(** * [packBinaryData]: what the packed bytes depend on *)
(* ===================================================================== *)

Module PackProperties.
Import PackFacts.

(** A byte is its eight low bits. *)
Lemma byte_bits_above (x j : Z) : 0 <= x < 256 -> 8 <= j -> Z.testbit x j = false.
Proof.
  intros Hx Hj. destruct (Z.eq_dec x 0) as [->|Hne]; [apply Z.bits_0|].
  apply Z.bits_above_log2; [lia|].
  assert (Z.log2 x < 8) by (apply Z.log2_lt_pow2; lia). lia.
Qed.

Lemma bytes_ext (l1 l2 : list Z) :
  List.length l1 = List.length l2 ->
  Forall (fun x => 0 <= x < 256) l1 -> Forall (fun x => 0 <= x < 256) l2 ->
  (forall (b : nat) (j : Z), (b < List.length l1)%nat -> 0 <= j < 8 ->
     Z.testbit (nth b l1 0) j = Z.testbit (nth b l2 0) j) ->
  l1 = l2.
Proof.
  intros Hlen H1 H2 Hbits. apply (nth_ext l1 l2 0 0 Hlen). intros b Hb.
  rewrite List.Forall_forall in H1, H2.
  assert (0 <= nth b l1 0 < 256) as Hr1 by (apply H1, nth_In; lia).
  assert (0 <= nth b l2 0 < 256) as Hr2 by (apply H2, nth_In; lia).
  apply Z.bits_inj'. intros j Hj.
  destruct (Z_lt_le_dec j 8) as [Hlt|Hge].
  - apply Hbits; [assumption | lia].
  - now rewrite !byte_bits_above.
Qed.

(** Inputs that are truthy at the same indices pack to the same bytes. *)
Lemma packBinaryData_ext (data data' : JS.TypedArray) :
  JS.length data < 2 ^ 32 ->
  JS.length data' = JS.length data ->
  (forall i, 0 <= i < JS.length data -> JS.truthy_at data' i = JS.truthy_at data i) ->
  packBinaryData data' = packBinaryData data.
Proof.
  intros Hsmall Hlen Hsame. unfold packBinaryData. f_equal.
  assert (JS.length data' < 2 ^ 32) as Hsmall' by lia.
  pose proof (packed_length data Hsmall) as Hl.
  pose proof (packed_length data' Hsmall') as Hl'.
  apply bytes_ext; try apply packed_range.
  - rewrite Hlen in Hl'. lia.
  - intros b j Hb Hj.
    rewrite (packed_bits data' b j Hsmall' Hb Hj).
    rewrite (packed_bits data b j Hsmall) by (rewrite Hlen in Hl'; lia || assumption).
    destruct (Z_lt_le_dec (8 * Z.of_nat b + j) (JS.length data)) as [Hin|Hout].
    + apply Hsame. lia.
    + rewrite !truthy_at_outside by lia. reflexivity.
Qed.

(** X12.  [packBinaryData] looks at nothing but the truthiness of the
    elements: two inputs of the same length whose elements are truthy at the
    same indices pack to the same bytes, whatever the element types and the
    values.  The bits of the result give that truthiness back, so the two
    inputs cannot be told apart from their packed forms. *)
Theorem X12_packBinaryData_depends_on_truthiness_only (data data' : JS.TypedArray) :
  JS.length data < 2 ^ 32 ->
  JS.length data' = JS.length data ->
  (forall i, 0 <= i < JS.length data -> JS.truthy_at data' i = JS.truthy_at data i)
  <-> packBinaryData data' = packBinaryData data.
Proof.
  intros Hsmall Hlen. split; [now apply packBinaryData_ext|].
  intros Hpack i Hi.
  assert (JS.length data' < 2 ^ 32) as Hsmall' by lia.
  pose proof (packed_length data Hsmall) as Hl.
  assert (Z.to_nat (i / 8) < List.length (packBinaryData_bytes data))%nat as Hb.
  { assert (0 <= i / 8) by (apply Z.div_pos; lia).
    assert (i / 8 < (JS.length data + 7) / 8).
    { apply Z.div_lt_upper_bound; [lia|].
      pose proof (Z.mul_div_le (JS.length data + 7) 8).
      pose proof (Z.mod_pos_bound (JS.length data + 7) 8).
      pose proof (Z.div_mod (JS.length data + 7) 8). lia. }
    lia. }
  assert (0 <= i mod 8 < 8) as Hj by (apply Z.mod_pos_bound; lia).
  assert (8 * Z.of_nat (Z.to_nat (i / 8)) + i mod 8 = i) as Hi8.
  { rewrite Z2Nat.id by (apply Z.div_pos; lia). pose proof (Z.div_mod i 8). lia. }
  pose proof (packed_bits data (Z.to_nat (i / 8)) (i mod 8) Hsmall Hb Hj) as Hbit.
  assert (packBinaryData_bytes data' = packBinaryData_bytes data) as Hbytes
    by (unfold packBinaryData in Hpack; congruence).
  pose proof (packed_bits data' (Z.to_nat (i / 8)) (i mod 8) Hsmall') as Hbit'.
  rewrite Hbytes in Hbit'. rewrite Hi8 in *.
  rewrite <- Hbit, <- Hbit' by assumption. reflexivity.
Qed.


(** A run of X12: bytes [1, 0, 2] and signed bytes [-1, 0, 5] pack to the
    same byte. *)
Lemma X12_packBinaryData_depends_on_truthiness_only_witness :
  packBinaryData (JS.Int8Array [-1; 0; 5]) = packBinaryData (JS.Uint8Array [1; 0; 2])
  /\ packBinaryData (JS.Uint8Array [1; 0; 2]) = JS.Uint8Array [5].
Proof.
  split; [|reflexivity].
  apply (X12_packBinaryData_depends_on_truthiness_only
           (JS.Uint8Array [1; 0; 2]) (JS.Int8Array [-1; 0; 5])).
  - simpl. lia.
  - reflexivity.
  - intros i Hi. simpl in Hi.
    assert (i = 0 \/ i = 1 \/ i = 2) as [->|[->| ->]] by lia; reflexivity.
Defined.

End PackProperties.

(* ===================================================================== *)
(** * Integers as doubles and as binary32 values *)
(* ===================================================================== *)

Module NumberFacts.

Lemma digits2_pos_size (p : positive) : digits2_pos p = Pos.size p.
Proof. induction p; simpl; congruence. Qed.

Lemma iter_xO_Z (p k : positive) : Zpos (Pos.iter xO p k) = Zpos p * 2 ^ Zpos k.
Proof.
  rewrite <- Z.shiftl_mul_pow2 by lia. simpl Z.shiftl.
  apply (Pos.iter_swap_gen _ _ Zpos xO (Z.mul 2)). reflexivity.
Qed.

Lemma iter_xO_size (p k : positive) :
  Pos.size (Pos.iter xO p k) = (Pos.size p + k)%positive.
Proof.
  rewrite (Pos.iter_swap_gen _ _ Pos.size xO Pos.succ) by reflexivity.
  revert p. induction k using Pos.peano_ind; intros p.
  - simpl. lia.
  - rewrite Pos.iter_succ, IHk. lia.
Qed.


(** A mantissa of 53 bits with an exponent in range is kept as it is. *)
Lemma binary_round_aux_exact (s : bool) (mz : positive) (ez : Z) :
  Zpos (Pos.size mz) = 53 -> -1074 <= ez <= 971 ->
  binary_round_aux 53 1024 s (Zpos mz) ez loc_Exact = S754_finite s mz ez.
Proof.
  intros Hsize He. unfold binary_round_aux, shr_fexp, fexp, emin. simpl Zdigits2.
  rewrite digits2_pos_size, Hsize.
  replace (Z.max (53 + ez - 53) (3 - 1024 - 53) - ez) with 0 by lia.
  simpl. rewrite digits2_pos_size, Hsize.
  replace (Z.max (53 + ez - 53) (3 - 1024 - 53) - ez) with 0 by lia.
  simpl. change (1024 - 53) with 971.
  destruct (ez <=? 971) eqn:Hle; [reflexivity|].
  apply Z.leb_gt in Hle. lia.
Qed.

Lemma binary_round_integer (s : bool) (p : positive) :
  Zpos p < 2 ^ 53 ->
  exists m e,
    binary_round 53 1024 s p 0 = S754_finite s m e
    /\ -52 <= e <= 0 /\ Zpos m = Zpos p * 2 ^ (- e).
Proof.
  intros Hp.
  assert (Zpos (Pos.size p) <= 53) as Hd.
  { pose proof (Pos.size_le p) as Hle.
    destruct (Z_le_gt_dec (Zpos (Pos.size p)) 53) as [H|H]; [exact H|exfalso].
    assert (2 ^ 54 <= 2 ^ Zpos (Pos.size p)) by (apply Z.pow_le_mono_r; lia).
    assert (Zpos (2 ^ Pos.size p) = 2 ^ Zpos (Pos.size p)) as Hpow
      by (now rewrite Pos2Z.inj_pow).
    assert (Zpos (2 ^ Pos.size p) <= Zpos (p~0)) as Hle' by exact Hle.
    rewrite Hpow in Hle'. lia. }
  unfold binary_round. rewrite digits2_pos_size.
  unfold fexp, emin.
  replace (Z.max (Zpos (Pos.size p) + 0 - 53) (3 - 1024 - 53))
    with (Zpos (Pos.size p) - 53) by lia.
  unfold shl_align.
  destruct (Zpos (Pos.size p) - 53 - 0) as [|d|d] eqn:Hshift; [|lia|].
  - exists p, 0. split; [|split; [lia|simpl; lia]].
    apply binary_round_aux_exact; lia.
  - exists (Pos.iter xO p d), (Zpos (Pos.size p) - 53).
    split; [|split; [lia|]].
    + apply binary_round_aux_exact; [|lia].
      rewrite iter_xO_size. lia.
    + rewrite iter_xO_Z. f_equal. f_equal. lia.
Qed.

Lemma trunc_number_of_Z (z : Z) :
  - 2 ^ 53 < z < 2 ^ 53 -> JS.trunc (JS.number_of_Z z) = z.
Proof.
  intros Hz. unfold JS.number_of_Z, binary_normalize.
  destruct z as [|p|p]; [reflexivity| |].
  - destruct (binary_round_integer false p) as (m & e & -> & He & Hm); [lia|].
    unfold JS.trunc. simpl cond_Zopp. rewrite Hm.
    destruct (0 <=? e) eqn:H0.
    + apply Z.leb_le in H0. assert (e = 0) as -> by lia. simpl. lia.
    + apply Z.div_mul. apply Z.pow_nonzero; lia.
  - destruct (binary_round_integer true p) as (m & e & -> & He & Hm); [lia|].
    unfold JS.trunc. simpl cond_Zopp.
    destruct (0 <=? e) eqn:H0.
    + apply Z.leb_le in H0. assert (e = 0) as -> by lia. simpl in *. lia.
    + rewrite Hm, Z.div_mul by (apply Z.pow_nonzero; lia). reflexivity.
Qed.


(** Twenty-nine shifts of a mantissa whose twenty-nine low bits are zero
    lose nothing. *)
Lemma shr_29_exact (q : positive) (e : Z) :
  shr (Build_shr_record (Zpos (Pos.iter xO q 29)) false false) e 29
  = (Build_shr_record (Zpos q) false false, e + 29).
Proof. reflexivity. Qed.

Lemma iter_xO_split (p k : positive) :
  (29 < k)%positive -> Pos.iter xO p k = Pos.iter xO (Pos.iter xO p (k - 29)) 29.
Proof.
  intros Hk. rewrite <- Pos.iter_add. f_equal. lia.
Qed.

(** A double of 53 bits whose 29 low bits are zero is a binary32 value:
    [Math.fround] keeps it, and reading it back gives the same double. *)
Lemma fround_exact (s : bool) (q : positive) (e : Z) :
  Zpos (Pos.size q) = 24 -> -52 <= e <= 0 ->
  let x := S754_finite s (Pos.iter xO q 29) e in
  JS.number_of_float32 (JS.fround x) = x.
Proof.
  intros Hsize He x.
  assert (JS.fround x = S754_finite s q (e + 29)) as ->.
  { unfold x, JS.fround, binary_normalize.
    assert (binary_round 24 128 s (Pos.iter xO q 29) e = S754_finite s q (e + 29)) as Hr.
    { unfold binary_round. rewrite digits2_pos_size, iter_xO_size.
      unfold fexp, emin.
      replace (Z.max (Zpos (Pos.size q + 29) + e - 24) (3 - 128 - 24)) with (e + 29) by lia.
      unfold shl_align. replace (e + 29 - e) with 29 by lia.
      unfold binary_round_aux, shr_fexp, fexp, emin.
      unfold Zdigits2 at 1. unfold shr_record_of_loc at 1.
      rewrite digits2_pos_size, iter_xO_size.
      replace (Z.max (Zpos (Pos.size q + 29) + e - 24) (3 - 128 - 24) - e) with 29 by lia.
      rewrite shr_29_exact. simpl. rewrite digits2_pos_size, Hsize.
      replace (Z.max (24 + (e + 29) - 24) (3 - 128 - 24) - (e + 29)) with 0 by lia.
      simpl. change (128 - 24) with 104.
      destruct (e + 29 <=? 104) eqn:Hle; [reflexivity|].
      apply Z.leb_gt in Hle. lia. }
    destruct s; simpl; exact Hr. }
  unfold x, JS.number_of_float32, binary_normalize.
  assert (binary_round 53 1024 s q (e + 29) = S754_finite s (Pos.iter xO q 29) e) as Hr.
  { unfold binary_round. rewrite digits2_pos_size, Hsize.
    unfold fexp, emin.
    replace (Z.max (24 + (e + 29) - 53) (3 - 1024 - 53)) with e by lia.
    unfold shl_align. replace (e - (e + 29)) with (-29) by lia.
    apply binary_round_aux_exact; [|lia].
    rewrite iter_xO_size. lia. }
  destruct s; simpl; exact Hr.
Qed.

(** Integers up to [2^24] in absolute value pass through a [Float32Array]
    unchanged. *)
Lemma fround_number_of_Z (z : Z) :
  - 2 ^ 24 <= z <= 2 ^ 24 ->
  JS.number_of_float32 (JS.fround (JS.number_of_Z z)) = JS.number_of_Z z.
Proof.
  intros Hz.
  destruct (Z.eq_dec z (2 ^ 24)) as [->|Hhi]; [reflexivity|].
  destruct (Z.eq_dec z (- 2 ^ 24)) as [->|Hlo]; [reflexivity|].
  destruct z as [|p|p]; [reflexivity| |].
  all: unfold JS.number_of_Z, binary_normalize.
  all: assert (Zpos p < 2 ^ 24) as Hp by lia.
  all: assert (Zpos (Pos.size p) <= 24) as Hd.
  1,3: pose proof (Pos.size_le p) as Hle;
    destruct (Z_le_gt_dec (Zpos (Pos.size p)) 24) as [H|H]; [exact H|exfalso];
    assert (2 ^ 25 <= 2 ^ Zpos (Pos.size p)) by (apply Z.pow_le_mono_r; lia);
    assert (Zpos (2 ^ Pos.size p) = 2 ^ Zpos (Pos.size p)) as Hpow
      by (now rewrite Pos2Z.inj_pow);
    assert (Zpos (2 ^ Pos.size p) <= Zpos (p~0)) as Hle' by exact Hle;
    rewrite Hpow in Hle'; lia.
  all: unfold binary_round; rewrite digits2_pos_size; unfold fexp, emin.
  all: replace (Z.max (Zpos (Pos.size p) + 0 - 53) (3 - 1024 - 53))
         with (Zpos (Pos.size p) - 53) by lia.
  all: unfold shl_align.
  all: destruct (Zpos (Pos.size p) - 53 - 0) as [|d|d] eqn:Hshift; [lia|lia|].
  all: rewrite binary_round_aux_exact by (rewrite ?iter_xO_size; lia).
  all: assert (29 <= Zpos d) as Hd29 by lia.
  all: destruct (Z.eq_dec (Zpos d) 29) as [Heq|Hne].
  1,3: injection Heq as ->; apply (fround_exact _ p); lia.
  all: rewrite iter_xO_split by lia.
  all: apply (fround_exact _ (Pos.iter xO p (d - 29))); [rewrite iter_xO_size|]; lia.
Qed.

End NumberFacts.

(* ===================================================================== *)
(** * The quantization rules on integer slices *)
(* ===================================================================== *)

Module QuantizeProperties.
Import NumberFacts PackProperties.

(** X14.  Rules 1 and 3 wrap, they do not clamp.  An integer slice stored
    under Rule 1 keeps each value modulo 256, under Rule 3 modulo 65536 in
    two's complement: values within the range of the target type are kept as
    they are, values outside come back as other values of the type. *)
Theorem X14_integer_slices_wrap_around
    {E : Type} {errors : JS.Errors E} (l : list Z) :
  Forall (fun z => - 2 ^ 53 < z < 2 ^ 53) l ->
  (forall raw name,
     In raw [JS.Int8Array l; JS.Int16Array l; JS.Uint16Array l;
             JS.Int32Array l; JS.Uint32Array l] ->
     In name ["illumination"; "orbiter_visibility"]%string ->
     quantize (E := E) name (JS.Numbers raw)
     = Return (JS.Uint8Array (map (fun z => z mod 256) l))
     /\ (Forall (fun z => 0 <= z < 256) l ->
         quantize (E := E) name (JS.Numbers raw) = Return (JS.Uint8Array l)))
  /\ (forall raw,
        In raw [JS.Int8Array l; JS.Uint8Array l; JS.Uint16Array l;
                JS.Int32Array l; JS.Uint32Array l] ->
        quantize (E := E) "darkness_duration" (JS.Numbers raw)
        = Return (JS.Int16Array (map (fun z => (z + 32768) mod 65536 - 32768) l))
        /\ (Forall (fun z => - 32768 <= z < 32768) l ->
            quantize (E := E) "darkness_duration" (JS.Numbers raw)
            = Return (JS.Int16Array l))).
Proof.
  intros Hrange. rewrite List.Forall_forall in Hrange.
  assert (map JS.ToUint8 (map JS.number_of_Z l) = map (fun z => z mod 256) l) as H8.
  { rewrite map_map. apply map_ext_in. intros z Hz.
    unfold JS.ToUint8. now rewrite trunc_number_of_Z by now apply Hrange. }
  assert (map JS.ToInt16 (map JS.number_of_Z l)
          = map (fun z => (z + 32768) mod 65536 - 32768) l) as H16.
  { rewrite map_map. apply map_ext_in. intros z Hz.
    unfold JS.ToInt16. now rewrite trunc_number_of_Z by now apply Hrange. }
  assert (Forall (fun z => 0 <= z < 256) l -> map (fun z => z mod 256) l = l) as Hid8.
  { intros Hsmall. rewrite List.Forall_forall in Hsmall.
    rewrite <- (map_id l) at 2. apply map_ext_in. intros z Hz.
    apply Z.mod_small. now apply Hsmall. }
  assert (Forall (fun z => - 32768 <= z < 32768) l ->
          map (fun z => (z + 32768) mod 65536 - 32768) l = l) as Hid16.
  { intros Hsmall. rewrite List.Forall_forall in Hsmall.
    rewrite <- (map_id l) at 2. apply map_ext_in. intros z Hz.
    specialize (Hsmall z Hz). rewrite Z.mod_small; lia. }
  split.
  - intros raw name Hraw Hname.
    assert (quantize (E := E) name (JS.Numbers raw)
            = Return (JS.Uint8Array (map (fun z => z mod 256) l))) as Hq.
    { simpl in Hraw, Hname.
      destruct Hname as [<-|[<-|[]]];
        destruct Hraw as [<-|[<-|[<-|[<-|[<-|[]]]]]];
        unfold quantize, new_from; simpl; unfold JS.new_Uint8Array; simpl;
        now rewrite H8. }
    split; [exact Hq|]. intros Hsmall. now rewrite Hq, Hid8.
  - intros raw Hraw.
    assert (quantize (E := E) "darkness_duration" (JS.Numbers raw)
            = Return (JS.Int16Array (map (fun z => (z + 32768) mod 65536 - 32768) l)))
      as Hq.
    { simpl in Hraw.
      destruct Hraw as [<-|[<-|[<-|[<-|[<-|[]]]]]];
        unfold quantize, new_from; simpl; unfold JS.new_Int16Array; simpl;
        now rewrite H16. }
    split; [exact Hq|]. intros Hsmall. now rewrite Hq, Hid16.
Qed.


(** ** Integers through a [Float32Array] *)

Lemma truthy_fround_number_of_Z (z : Z) :
  - 2 ^ 24 <= z <= 2 ^ 24 ->
  JS.truthy (JS.fround (JS.number_of_Z z)) = negb (z =? 0).
Proof.
  intros Hz. pose proof (fround_number_of_Z z Hz) as Hback.
  destruct z as [|p|p]; [reflexivity| |]; simpl negb.
  - unfold JS.number_of_Z, binary_normalize in *.
    destruct (binary_round_integer false p) as (m & e & Hr & _); [lia|].
    rewrite Hr in *.
    destruct (JS.fround (S754_finite false m e)); simpl in *; congruence.
  - unfold JS.number_of_Z, binary_normalize in *.
    destruct (binary_round_integer true p) as (m & e & Hr & _); [lia|].
    rewrite Hr in *.
    destruct (JS.fround (S754_finite true m e)); simpl in *; congruence.
Qed.

Lemma truthy_at_new_Float32Array (l : list Z) (raw : JS.TypedArray) (i : Z) :
  Forall (fun z => - 2 ^ 24 <= z <= 2 ^ 24) l ->
  In raw [JS.Int8Array l; JS.Uint8Array l; JS.Int16Array l; JS.Uint16Array l;
          JS.Int32Array l; JS.Uint32Array l] ->
  JS.truthy_at (JS.new_Float32Array raw) i = JS.truthy_at raw i.
Proof.
  intros Hrange Hraw. rewrite List.Forall_forall in Hrange.
  assert (JS.truthy_at (JS.Float32Array (map JS.fround (map JS.number_of_Z l))) i
          = JS.truthy_at (JS.Int16Array l) i) as Heq.
  { unfold JS.truthy_at. destruct (i <? 0); [reflexivity|].
    rewrite map_map, nth_error_map.
    destruct (nth_error l (Z.to_nat i)) as [z|] eqn:Hnth; [|reflexivity]. simpl.
    apply truthy_fround_number_of_Z, Hrange. now apply nth_error_In in Hnth. }
  simpl in Hraw.
  destruct Hraw as [<-|[<-|[<-|[<-|[<-|[<-|[]]]]]]]; exact Heq.
Qed.

Lemma length_new_Float32Array (raw : JS.TypedArray) :
  JS.length (JS.new_Float32Array raw) = JS.length raw.
Proof.
  unfold JS.new_Float32Array. simpl. rewrite length_map.
  apply NetCDFSeries.length_Array_from.
Qed.

(** X13.  Rule 2 loses no flag of an integer slice.  A slice of 16-bit or
    32-bit integers is first copied into a [Float32Array]; for values up to
    [2^24] in absolute value, which covers every 16-bit value, the packed bits
    are those of the slice itself: bit [i] is set exactly when value [i] is not
    [0]. *)
Theorem X13_rule_2_keeps_the_flags_of_an_integer_slice
    {E : Type} {errors : JS.Errors E}
    (l : list Z) (raw : JS.TypedArray) (name : string) :
  Forall (fun z => - 2 ^ 24 <= z <= 2 ^ 24) l ->
  Z.of_nat (List.length l) < 2 ^ 32 ->
  In raw [JS.Int16Array l; JS.Uint16Array l; JS.Int32Array l; JS.Uint32Array l] ->
  In name ["dte_visibility"; "night_flag"]%string ->
  quantize (E := E) name (JS.Numbers raw) = Return (packBinaryData raw).
Proof.
  intros Hrange Hlen Hraw Hname.
  assert (quantize (E := E) name (JS.Numbers raw)
          = Return (packBinaryData (JS.new_Float32Array raw))) as ->.
  { simpl in Hraw, Hname.
    destruct Hname as [<-|[<-|[]]]; destruct Hraw as [<-|[<-|[<-|[<-|[]]]]];
      reflexivity. }
  assert (JS.length raw = Z.of_nat (List.length l)) as Hl.
  { simpl in Hraw. destruct Hraw as [<-|[<-|[<-|[<-|[]]]]]; reflexivity. }
  f_equal. apply packBinaryData_ext.
  - lia.
  - apply length_new_Float32Array.
  - intros i _. apply (truthy_at_new_Float32Array l); [assumption|].
    simpl in *. tauto.
Qed.



(** ** Runs *)

(** A run of X14: [256] and [300] wrap to [0] and [44], [-1] to [255]. *)
Lemma X14_integer_slices_wrap_around_witness :
  quantize (E := string) "illumination"
    (JS.Numbers (JS.Int16Array [0; 255; 256; -1; 300]))
  = Return (JS.Uint8Array [0; 255; 0; 255; 44])
  /\ quantize (E := string) "darkness_duration"
       (JS.Numbers (JS.Int32Array [32767; 32768; -32769]))
     = Return (JS.Int16Array [32767; -32768; 32767]).
Proof.
  split.
  - destruct (X14_integer_slices_wrap_around (E := string) [0; 255; 256; -1; 300])
      as [Hrule1 _].
    + repeat constructor; lia.
    + destruct (Hrule1 (JS.Int16Array [0; 255; 256; -1; 300]) "illumination"%string)
        as [Hq _]; [simpl; tauto | simpl; tauto | exact Hq].
  - destruct (X14_integer_slices_wrap_around (E := string) [32767; 32768; -32769])
      as [_ Hrule3].
    + repeat constructor; lia.
    + destruct (Hrule3 (JS.Int32Array [32767; 32768; -32769])) as [Hq _];
        [simpl; tauto | exact Hq].
Defined.

(** A run of X13: five 16-bit flags. *)
Lemma X13_rule_2_keeps_the_flags_of_an_integer_slice_witness :
  quantize (E := string) "night_flag" (JS.Numbers (JS.Int16Array [0; 5; -3; 0; 1]))
  = Return (packBinaryData (JS.Int16Array [0; 5; -3; 0; 1]))
  /\ packBinaryData (JS.Int16Array [0; 5; -3; 0; 1]) = JS.Uint8Array [22].
Proof.
  split; [|reflexivity].
  apply (X13_rule_2_keeps_the_flags_of_an_integer_slice [0; 5; -3; 0; 1]).
  - repeat constructor; lia.
  - simpl. lia.
  - simpl. tauto.
  - simpl. tauto.
Defined.


End QuantizeProperties.

(* ===================================================================== *)
(** * The representation of the decoded slices *)
(* ===================================================================== *)

Module RepresentationTheorems.
Import SliceCache JSMap JSMapFacts KeyFacts SliceCacheFacts.

(** ** The results of the conversions are arrays that exist *)

Lemma ToUint8_within (x : JS.number) : JS.within 0 256 (JS.ToUint8 x) = true.
Proof.
  unfold JS.within, JS.ToUint8.
  pose proof (Z.mod_pos_bound (JS.trunc x) 256 ltac:(lia)).
  apply andb_true_iff. split; [apply Z.leb_le | apply Z.ltb_lt]; lia.
Qed.

Lemma ToInt16_within (x : JS.number) :
  JS.within (-32768) 32768 (JS.ToInt16 x) = true.
Proof.
  unfold JS.within, JS.ToInt16.
  pose proof (Z.mod_pos_bound (JS.trunc x + 32768) 65536 ltac:(lia)).
  apply andb_true_iff. split; [apply Z.leb_le | apply Z.ltb_lt]; lia.
Qed.

Lemma forallb_map {A B : Type} (p : B -> bool) (f : A -> B) (l : list A) :
  (forall a, p (f a) = true) -> forallb p (map f l) = true.
Proof. intros Hp. induction l as [|a l IH]; simpl; [reflexivity|]. now rewrite Hp. Qed.

Lemma represents_new_Uint8Array (raw : JS.TypedArray) :
  represents Uint8PerCell (JS.length raw) (JS.new_Uint8Array raw) = true.
Proof.
  unfold represents, JS.new_Uint8Array. apply andb_true_iff. split.
  - apply forallb_map, ToUint8_within.
  - apply Z.eqb_eq. cbn [JS.length]. rewrite length_map.
    apply NetCDFSeries.length_Array_from.
Qed.

Lemma represents_new_Int16Array (raw : JS.TypedArray) :
  represents Int16PerCell (JS.length raw) (JS.new_Int16Array raw) = true.
Proof.
  unfold represents, JS.new_Int16Array. apply andb_true_iff. split.
  - apply forallb_map, ToInt16_within.
  - apply Z.eqb_eq. cbn [JS.length]. rewrite length_map.
    apply NetCDFSeries.length_Array_from.
Qed.

Lemma represents_new_Float32Array (raw : JS.TypedArray) :
  represents Float32PerCell (JS.length raw) (JS.new_Float32Array raw) = true.
Proof.
  unfold represents, JS.new_Float32Array. apply andb_true_iff. split.
  - apply forallb_map, RoundingFacts.fround_valid.
  - apply Z.eqb_eq. cbn [JS.length]. rewrite length_map.
    apply NetCDFSeries.length_Array_from.
Qed.

(** The loops of [packBinaryData] store into the array and never resize
    it. *)
Lemma length_store_u8 (packed : list Z) (idx v : Z) :
  List.length (store_u8 packed idx v) = List.length packed.
Proof. unfold store_u8. destruct (idx <? 0); [reflexivity | apply length_insert]. Qed.

Lemma packed_length_any (data : JS.TypedArray) :
  List.length (packBinaryData_bytes data) = Z.to_nat ((JS.length data + 7) / 8).
Proof.
  unfold packBinaryData_bytes. cbv zeta.
  assert (forall (f : list Z -> Z -> list Z) (l : list Z) (p : list Z),
            (forall p i, List.length (f p i) = List.length p) ->
            List.length (fold_left f l p) = List.length p) as Hfold.
  { intros f l. induction l as [|i l IH]; intros p Hf; simpl; [reflexivity|].
    now rewrite IH, Hf. }
  rewrite !Hfold, repeat_length; [reflexivity| |].
  - intros p i. apply length_store_u8.
  - intros p i. unfold tail_loop_body.
    destruct (JS.truthy_at data i); [apply length_store_u8 | reflexivity].
Qed.

Lemma represents_packBinaryData (input : JS.TypedArray) :
  represents BitPacked (JS.length input) (packBinaryData input) = true.
Proof.
  unfold represents, packBinaryData. apply andb_true_iff. split.
  - cbn [JS.well_formed]. apply forallb_forall. intros byte Hin.
    pose proof (PackFacts.packed_range input) as Hrange.
    rewrite List.Forall_forall in Hrange. specialize (Hrange byte Hin).
    unfold JS.within. apply andb_true_iff.
    split; [apply Z.leb_le | apply Z.ltb_lt]; lia.
  - apply Z.eqb_eq. cbn [JS.length]. rewrite packed_length_any.
    assert (0 <= JS.length input) by (destruct input; simpl; lia).
    rewrite Z2Nat.id; [reflexivity|]. apply Z.div_pos; lia.
Qed.

(** ** The conversions, element by element *)

Lemma at_index_new_Uint8Array (raw : JS.TypedArray) (i : Z) :
  JS.at_index (JS.new_Uint8Array raw) i
  = option_map (fun v => JS.number_of_Z (JS.ToUint8 v)) (JS.at_index raw i).
Proof.
  unfold JS.at_index, JS.new_Uint8Array. destruct (i <? 0); [reflexivity|].
  cbn [JS.Array_from]. rewrite !nth_error_map.
  now destruct (nth_error (JS.Array_from raw) (Z.to_nat i)).
Qed.

Lemma at_index_new_Int16Array (raw : JS.TypedArray) (i : Z) :
  JS.at_index (JS.new_Int16Array raw) i
  = option_map (fun v => JS.number_of_Z (JS.ToInt16 v)) (JS.at_index raw i).
Proof.
  unfold JS.at_index, JS.new_Int16Array. destruct (i <? 0); [reflexivity|].
  cbn [JS.Array_from]. rewrite !nth_error_map.
  now destruct (nth_error (JS.Array_from raw) (Z.to_nat i)).
Qed.

Lemma truthy_at_rounded (raw : JS.TypedArray) (i : Z) :
  JS.truthy_at (JS.new_Float32Array raw) i
  = match JS.at_index raw i with
    | Some v => JS.truthy (JS.fround v)
    | None => false
    end.
Proof.
  unfold JS.truthy_at, JS.at_index, JS.new_Float32Array.
  destruct (i <? 0); [reflexivity|]. rewrite nth_error_map.
  now destruct (nth_error (JS.Array_from raw) (Z.to_nat i)).
Qed.

(** Bit [i] of the packed bytes is the truthiness of input [i]. *)
Lemma bit_at_packBinaryData (input : JS.TypedArray) (i : Z) :
  JS.length input < 2 ^ 32 -> 0 <= i < JS.length input ->
  bit_at (packBinaryData input) i = JS.truthy_at input i.
Proof.
  intros Hbound Hi. unfold bit_at, packBinaryData.
  pose proof (PackFacts.packed_length input Hbound) as Hlen.
  replace i with (8 * Z.of_nat (Z.to_nat (i / 8)) + i mod 8) at 3
    by (rewrite Z2Nat.id by (apply Z.div_pos; lia);
        pose proof (Z.div_mod i 8 ltac:(lia)); lia).
  apply PackFacts.packed_bits; [assumption| |apply Z.mod_pos_bound; lia].
  assert (i / 8 < (JS.length input + 7) / 8)
    by (apply Z.div_lt_upper_bound; [lia|];
        pose proof (Z.div_mod (JS.length input + 7) 8 ltac:(lia));
        pose proof (Z.mod_pos_bound (JS.length input + 7) 8 ltac:(lia)); lia).
  assert (0 <= i / 8) by (apply Z.div_pos; lia).
  lia.
Qed.

(** ** The rules on an array of numbers *)

(** What the rule of the variable kind makes of an array of numbers. *)
Lemma quantize_represents {E : Type} {errors : JS.Errors E}
    (dataVarName : string) (raw : JS.TypedArray) :
  JS.well_formed raw = true ->
  let r := representation_of dataVarName in
  exists s,
    quantize (E := E) dataVarName (JS.Numbers raw) = Return s
    /\ represents r (JS.length raw) s = true
    /\ (already_in r raw = true -> s = raw)
    /\ (already_in r raw = false -> JS.length raw < 2 ^ 32 -> converted r raw s).
Proof.
  intros Hwf r. unfold r, quantize, representation_of, new_from.
  destruct (String.eqb dataVarName "illumination");
    [|destruct (String.eqb dataVarName "orbiter_visibility")];
    [| |destruct (String.eqb dataVarName "dte_visibility");
         [|destruct (String.eqb dataVarName "night_flag");
           [|destruct (String.eqb dataVarName "darkness_duration")]]];
    cbn [orb].
  1, 2: destruct raw; eexists; (split; [reflexivity|]);
    (split; [first [apply represents_new_Uint8Array
                   | unfold represents; rewrite Hwf; cbn; apply Z.eqb_refl]|]);
    (split; [cbn; congruence|]); intros Hnot _;
    first [discriminate Hnot | intros i; apply at_index_new_Uint8Array].
  1, 2: destruct raw; eexists; (split; [reflexivity|]);
    (split; [first [apply represents_packBinaryData
                   | rewrite <- QuantizeProperties.length_new_Float32Array;
                     apply represents_packBinaryData]|]);
    (split; [cbn; congruence|]); intros _ Hbound i Hi; cbn [packed_directly];
    first [apply bit_at_packBinaryData; assumption
          | rewrite bit_at_packBinaryData
              by (rewrite QuantizeProperties.length_new_Float32Array; assumption);
            apply truthy_at_rounded].
  - destruct raw; eexists; (split; [reflexivity|]);
      (split; [first [apply represents_new_Int16Array
                     | unfold represents; rewrite Hwf; cbn; apply Z.eqb_refl]|]);
      (split; [cbn; congruence|]); intros Hnot _;
      first [discriminate Hnot | intros i; apply at_index_new_Int16Array].
  - destruct raw; eexists; (split; [reflexivity|]);
      (split; [first [apply represents_new_Float32Array
                     | unfold represents; rewrite Hwf; cbn; apply Z.eqb_refl]|]);
      (split; [cbn; congruence|]); intros Hnot _;
      first [discriminate Hnot | intros i; apply NpySeries.at_index_new_Float32Array].
Qed.

(** The conversion of [NpyLazyDataset.getSlice]. *)
Lemma floatData_represents (data : JS.TypedArray) :
  JS.well_formed data = true ->
  let floatData :=
    match data with
    | JS.Float32Array _ => data
    | _ => JS.new_Float32Array data
    end in
  represents Float32PerCell (JS.length data) floatData = true
  /\ (already_in Float32PerCell data = true -> floatData = data)
  /\ (already_in Float32PerCell data = false -> converted Float32PerCell data floatData).
Proof.
  intros Hwf floatData. unfold floatData.
  destruct data;
    (split; [first [apply represents_new_Float32Array
                   | unfold represents; rewrite Hwf; cbn; apply Z.eqb_refl]|]);
    (split; [cbn; congruence|]); intros Hnot;
    first [discriminate Hnot | intros i; apply NpySeries.at_index_new_Float32Array].
Qed.

(** ** What the cache holds under a file name *)

Lemma peek_set (f f' : string) (i i' now : Z) (s : SliceData) (c : SliceCache.t)
    (e : Entry) :
  peek f i (SliceCache.set f' i' s now c) = Some e ->
  (f' = f /\ i' = i /\ data e = s) \/ peek f i c = Some e.
Proof.
  unfold peek, SliceCache.set. simpl.
  destruct (String.eqb_spec (getKey f' i') (getKey f i)) as [Heq|Hne].
  - rewrite Heq, get_set_eq. intros [= <-]. left.
    apply getKey_inj in Heq as [-> ->]. now split.
  - rewrite get_set_ne by assumption. intros Hget. right.
    now apply GetSliceTheorems.evict_loop_keeps in Hget.
Qed.

Lemma peek_get (f f' : string) (i i' now : Z) (c : SliceCache.t) (e : Entry) :
  peek f i (snd (SliceCache.get f' i' now c)) = Some e ->
  exists e0, peek f i c = Some e0 /\ data e0 = data e.
Proof.
  unfold peek. rewrite get_cache.
  destruct (get (getKey f' i') (cache c)) as [e1|] eqn:Hhit; [|eauto].
  destruct (String.eqb_spec (getKey f' i') (getKey f i)) as [Heq|Hne].
  - rewrite Heq in *. rewrite get_set_eq. intros [= <-]. exists e1. now split.
  - rewrite get_set_ne by assumption. eauto.
Qed.

Lemma peek_clearForFile (f f' : string) (i : Z) (c : SliceCache.t) (e : Entry) :
  wf c -> peek f i (clearForFile f' c) = Some e -> peek f i c = Some e.
Proof.
  intros Hwf. rewrite CacheTheorems.clearForFile_peek by assumption.
  now destruct (key_of_file f' (getKey f i)).
Qed.

Lemma cached_in_get (r : Representation) (n : Z) (f f' : string) (i now : Z)
    (c : SliceCache.t) :
  cached_in r n f c -> cached_in r n f (snd (SliceCache.get f' i now c)).
Proof.
  intros Hc i' e Hpeek. apply peek_get in Hpeek as (e0 & Hpeek & <-).
  now apply (Hc i').
Qed.

Lemma cached_in_clearForFile (r : Representation) (n : Z) (f f' : string)
    (c : SliceCache.t) :
  wf c -> cached_in r n f c -> cached_in r n f (clearForFile f' c).
Proof.
  intros Hwf Hc i e Hpeek. apply peek_clearForFile in Hpeek; [|assumption].
  now apply (Hc i).
Qed.

Section Histories.
Context {E File ArrayBuffer DataType : Type} {errors : JS.Errors E}.
Context (io : NpyLazyDataset.Imports E File ArrayBuffer DataType).
Implicit Types (d : Session.Dataset E File DataType).

(** A slice read after a miss holds the cells of the dataset in the
    representation of its kind, and is what the call caches. *)
Lemma getSlice_miss_represents d (t now : Z) (c : SliceCache.t) (s : SliceData)
    (c' : SliceCache.t) :
  peek (Session.fileId d) t c = None ->
  Session.reads_slices io d ->
  Session.getSlice io d t now c = (Return s, c') ->
  represents (Session.representation d) (Session.cells d) s = true
  /\ c' = SliceCache.set (Session.fileId d) t s now c.
Proof.
  intros Hmiss Hreads Hcall. destruct d as [ds|ds]; simpl in *.
  - destruct (NetCDFLazyDataset.slice ds [t; 0; 0]
                [1; snd (fst (NetCDFLazyDataset.shape ds));
                 snd (NetCDFLazyDataset.shape ds)]) as [err|rawData] eqn:Hread.
    + rewrite (GetSliceTheorems.netcdf_miss_throw ds t now c err Hmiss Hread) in Hcall.
      discriminate.
    + rewrite (GetSliceTheorems.netcdf_miss_read ds t now c rawData Hmiss Hread)
        in Hcall.
      specialize (Hreads t rawData).
      destruct (NetCDFLazyDataset.shape ds) as [[time height] width]. simpl in *.
      destruct (Hreads Hread) as (raw & -> & Hwf & Hlen).
      destruct (quantize_represents (E := E) (NetCDFLazyDataset.dataVarName ds) raw Hwf)
        as (s0 & Hq & Hrep & _).
      rewrite Hq in Hcall. injection Hcall as <- <-.
      split; [now rewrite <- Hlen | reflexivity].
  - destruct (NpyLazyDataset.loadNpyTimeSlice io (NpyLazyDataset.file ds)
                (NpyLazyDataset.metadata ds) t) as [err|data] eqn:Hread.
    + rewrite (GetSliceTheorems.npy_miss_throw io ds t now c err Hmiss Hread) in Hcall.
      discriminate.
    + rewrite (GetSliceTheorems.npy_miss_return io ds t now c data Hmiss Hread)
        in Hcall.
      injection Hcall as <- <-.
      destruct (Hreads t data Hread) as [Hwf Hlen].
      destruct (floatData_represents data Hwf) as [Hrep _].
      split; [now rewrite <- Hlen | reflexivity].
Qed.

(** Where every dataset that uses the file name [f] is of one kind, a call
    keeps the slices cached under [f] in the representation of that kind. *)
Lemma step_cached_in (call : Session.Call E File DataType) (c : SliceCache.t)
    (r : Representation) (n : Z) (f : string) :
  wf c -> cached_in r n f c ->
  (Session.fileId (Session.dataset_of call) = f ->
   Session.representation (Session.dataset_of call) = r
   /\ Session.cells (Session.dataset_of call) = n) ->
  Session.reads_slices io (Session.dataset_of call) ->
  wf (Session.step io c call) /\ cached_in r n f (Session.step io c call).
Proof.
  intros Hwf Hc Hkind Hreads.
  destruct call as [d t now|d t now|d|d]; simpl in *.
  - destruct (DatasetProperties.getSlice_cases io d t now c)
      as [(e & _ & Hr)|[(_ & err & Hr)|(Hmiss & s & Hr)]]; rewrite Hr; simpl.
    + split; [now apply get_wf | now apply cached_in_get].
    + now split.
    + split; [now apply set_wf|].
      destruct (getSlice_miss_represents d t now c s _ Hmiss Hreads Hr) as [Hrep _].
      intros i e Hpeek. apply peek_set in Hpeek as [(Hf & _ & <-)|Hpeek].
      * destruct (Hkind Hf) as [<- <-]. exact Hrep.
      * now apply (Hc i).
  - rewrite DatasetProperties.getCachedSlice_get.
    split; [now apply get_wf | now apply cached_in_get].
  - rewrite DatasetProperties.clearCache_clearForFile.
    split; [now apply clearForFile_wf | now apply cached_in_clearForFile].
  - rewrite DatasetProperties.dispose_clearForFile.
    split; [now apply clearForFile_wf | now apply cached_in_clearForFile].
Qed.

Lemma run_cached_in (calls : list (Session.Call E File DataType)) (c : SliceCache.t)
    (r : Representation) (n : Z) (f : string) :
  wf c -> cached_in r n f c ->
  (forall call, In call calls ->
     Session.fileId (Session.dataset_of call) = f ->
     Session.representation (Session.dataset_of call) = r
     /\ Session.cells (Session.dataset_of call) = n) ->
  (forall call, In call calls -> Session.reads_slices io (Session.dataset_of call)) ->
  cached_in r n f (Session.run io calls c).
Proof.
  revert c. induction calls as [|call calls IH]; intros c Hwf Hc Hkind Hreads;
    [exact Hc|].
  destruct (step_cached_in call c r n f Hwf Hc) as [Hwf' Hc'].
  - apply Hkind. now left.
  - apply Hreads. now left.
  - apply (IH (Session.step io c call) Hwf' Hc').
    + intros call' Hin. apply Hkind. now right.
    + intros call' Hin. apply Hreads. now right.
Qed.

(** After calls on datasets that share no file name across kinds, every
    slice [getSlice] returns is in the representation of the dataset. *)
Lemma getSlice_after_run (calls : list (Session.Call E File DataType)) d
    (t now : Z) (s : SliceData) (c' : SliceCache.t) :
  (forall call, In call calls ->
     Session.fileId (Session.dataset_of call) = Session.fileId d ->
     Session.representation (Session.dataset_of call) = Session.representation d
     /\ Session.cells (Session.dataset_of call) = Session.cells d) ->
  (forall call, In call calls -> Session.reads_slices io (Session.dataset_of call)) ->
  Session.reads_slices io d ->
  Session.getSlice io d t now (Session.run io calls SliceCache.empty) = (Return s, c') ->
  represents (Session.representation d) (Session.cells d) s = true.
Proof.
  intros Hkind Hreads Hd Hcall.
  pose proof (run_cached_in calls SliceCache.empty (Session.representation d)
                (Session.cells d) (Session.fileId d) wf_empty) as Hinv.
  assert (cached_in (Session.representation d) (Session.cells d) (Session.fileId d)
            (Session.run io calls SliceCache.empty)) as Hc
    by (apply Hinv; [intros i e; discriminate | assumption | assumption]).
  destruct (DatasetProperties.getSlice_cases io d t now
              (Session.run io calls SliceCache.empty))
    as [(e & Hhit & Hr)|[(_ & err & Hr)|(Hmiss & s' & Hr)]].
  - rewrite Hr in Hcall. injection Hcall as <- _. now apply (Hc t).
  - rewrite Hr in Hcall. discriminate.
  - now destruct (getSlice_miss_represents d t now _ s c' Hmiss Hd Hcall).
Qed.
End Histories.




End RepresentationTheorems.

(* ===================================================================== *)
(** * The value range of a new layer *)
(* ===================================================================== *)

Module RangeProperties.
Import JSNumber AppContext.

(** ** The order of the numbers *)

Lemma SFcompare_swap (x y : JS.number) :
  SFcompare y x = option_map CompOpp (SFcompare x y).
Proof.
  destruct x as [sx|sx| |sx mx ex], y as [sy|sy| |sy my ey]; simpl;
    try reflexivity; try (destruct sx; reflexivity); try (destruct sy; reflexivity);
    try (destruct sx, sy; reflexivity).
  destruct sx, sy; simpl; try reflexivity.
  - rewrite (Z.compare_antisym ex ey).
    destruct (ex ?= ey); simpl; try reflexivity.
    rewrite (Pos.compare_cont_antisym mx my Eq). simpl.
    now destruct (Pos.compare_cont Eq mx my).
  - rewrite (Z.compare_antisym ex ey).
    destruct (ex ?= ey); simpl; try reflexivity.
    rewrite (Pos.compare_cont_antisym mx my Eq). simpl.
    now destruct (Pos.compare_cont Eq mx my).
Qed.

Lemma SFcompare_refl (x : JS.number) : x <> NaN -> SFcompare x x = Some Eq.
Proof.
  unfold NaN. intros Hx.
  destruct x as [s|s| |s m e]; simpl; try reflexivity; try congruence.
  - now destruct s.
  - destruct s; rewrite Z.compare_refl;
      change (Pos.compare_cont Eq m m) with (Pos.compare m m);
      now rewrite Pos.compare_refl.
Qed.

(** What is not below is above or equal, [NaN] apart. *)
Lemma not_lt_le (x y : JS.number) :
  x <> NaN -> y <> NaN -> lt x y = false -> SFleb y x = true.
Proof.
  unfold NaN. intros Hx Hy. unfold lt, SFltb, SFleb. rewrite (SFcompare_swap x y).
  destruct x as [sx|sx| |sx mx ex], y as [sy|sy| |sy my ey]; try congruence;
    destruct (SFcompare _ _) as [[| |]|] eqn:Hc; simpl; try congruence;
    simpl in Hc; try discriminate Hc;
    try (destruct sx; discriminate Hc); try (destruct sy; discriminate Hc).
Qed.

Lemma lt_not_NaN (x y : JS.number) : lt x y = true -> x <> NaN /\ y <> NaN.
Proof.
  unfold lt, SFltb. destruct x, y; simpl; try discriminate; split; discriminate.
Qed.

Lemma le_neq_lt (x y : JS.number) :
  SFleb x y = true -> strict_eq x y = false -> lt x y = true.
Proof.
  unfold SFleb, strict_eq, SFeqb, lt, SFltb.
  destruct (SFcompare x y) as [[| |]|]; congruence.
Qed.


Lemma lt_irrefl (x : JS.number) : lt x x = false.
Proof.
  unfold lt, SFltb. destruct x as [s|s| |s m e]; simpl; try reflexivity.
  - now destruct s.
  - destruct s; rewrite Z.compare_refl;
      change (Pos.compare_cont Eq m m) with (Pos.compare m m);
      now rewrite Pos.compare_refl.
Qed.

Lemma lex_lt_trans (e1 e2 e3 : Z) (m1 m2 m3 : positive) :
  match e1 ?= e2 with Lt => Lt | Gt => Gt | Eq => Pos.compare_cont Eq m1 m2 end = Lt ->
  match e2 ?= e3 with Lt => Lt | Gt => Gt | Eq => Pos.compare_cont Eq m2 m3 end = Lt ->
  match e1 ?= e3 with Lt => Lt | Gt => Gt | Eq => Pos.compare_cont Eq m1 m3 end = Lt.
Proof.
  change (Pos.compare_cont Eq m1 m2) with (Pos.compare m1 m2).
  change (Pos.compare_cont Eq m2 m3) with (Pos.compare m2 m3).
  change (Pos.compare_cont Eq m1 m3) with (Pos.compare m1 m3).
  destruct (Z.compare_spec e1 e2), (Z.compare_spec e2 e3), (Z.compare_spec e1 e3);
    try discriminate; try lia; try reflexivity; intros H12 H23.
  rewrite Pos.compare_lt_iff in *. now apply (Pos.lt_trans m1 m2 m3).
Qed.

Lemma lex_gt_trans (e1 e2 e3 : Z) (m1 m2 m3 : positive) :
  match e1 ?= e2 with Lt => Gt | Gt => Lt | Eq => CompOpp (Pos.compare_cont Eq m1 m2) end = Lt ->
  match e2 ?= e3 with Lt => Gt | Gt => Lt | Eq => CompOpp (Pos.compare_cont Eq m2 m3) end = Lt ->
  match e1 ?= e3 with Lt => Gt | Gt => Lt | Eq => CompOpp (Pos.compare_cont Eq m1 m3) end = Lt.
Proof.
  change (Pos.compare_cont Eq m1 m2) with (Pos.compare m1 m2).
  change (Pos.compare_cont Eq m2 m3) with (Pos.compare m2 m3).
  change (Pos.compare_cont Eq m1 m3) with (Pos.compare m1 m3).
  destruct (Z.compare_spec e1 e2), (Z.compare_spec e2 e3), (Z.compare_spec e1 e3);
    try discriminate; try lia; try reflexivity; intros H12 H23.
  destruct (Pos.compare_spec m1 m2), (Pos.compare_spec m2 m3), (Pos.compare_spec m1 m3);
    simpl in *; try discriminate; try lia; reflexivity.
Qed.

Lemma lt_trans (x y z : JS.number) : lt x y = true -> lt y z = true -> lt x z = true.
Proof.
  unfold lt, SFltb.
  destruct x as [sx|sx| |sx mx ex], y as [sy|sy| |sy my ey], z as [sz|sz| |sz mz ez];
    simpl; try discriminate; try reflexivity;
    try (destruct sx; discriminate); try (destruct sy; discriminate);
    try (destruct sz; discriminate);
    try (destruct sx, sy; discriminate || reflexivity);
    try (destruct sx, sz; discriminate || reflexivity);
    try (destruct sy, sz; discriminate || reflexivity);
    try (destruct sx, sy, sz; discriminate || reflexivity).
  destruct sx, sy, sz; try discriminate; try reflexivity; intros H12 H23.
  - pose proof (lex_gt_trans ex ey ez mx my mz) as Ht.
    destruct (match ex ?= ey with Lt => Gt | Gt => Lt | Eq => CompOpp (Pos.compare_cont Eq mx my) end);
      try discriminate.
    destruct (match ey ?= ez with Lt => Gt | Gt => Lt | Eq => CompOpp (Pos.compare_cont Eq my mz) end);
      try discriminate.
    now rewrite Ht.
  - pose proof (lex_lt_trans ex ey ez mx my mz) as Ht.
    destruct (match ex ?= ey with Lt => Lt | Gt => Gt | Eq => Pos.compare_cont Eq mx my end);
      try discriminate.
    destruct (match ey ?= ez with Lt => Lt | Gt => Gt | Eq => Pos.compare_cont Eq my mz end);
      try discriminate.
    now rewrite Ht.
Qed.

(** Only [Infinity] is not below [Infinity]; only [-Infinity] is not above
    [-Infinity]. *)
Lemma not_lt_Infinity (x : JS.number) :
  x <> NaN -> lt x Infinity = false -> x = Infinity.
Proof.
  unfold NaN, lt, SFltb, Infinity.
  destruct x as [s|s| |s m e]; simpl; try congruence; destruct s; congruence.
Qed.

Lemma not_gt_neg_Infinity (x : JS.number) :
  x <> NaN -> gt x neg_Infinity = false -> x = neg_Infinity.
Proof.
  unfold NaN, gt, lt, SFltb, neg_Infinity.
  destruct x as [s|s| |s m e]; simpl; try congruence; destruct s; congruence.
Qed.

Lemma lt_NaN_l (y : JS.number) : lt NaN y = false.
Proof. reflexivity. Qed.

Lemma lt_NaN_r (x : JS.number) : lt x NaN = false.
Proof. unfold lt, SFltb. now destruct x. Qed.


(** ** The scan of [handleAddNetCdf4Layer] *)

(** The two ends never hold [NaN], and once a value has been taken they are
    in order. *)
Lemma widen_ordered (min max val : JS.number) :
  min <> NaN -> max <> NaN ->
  (min = Infinity /\ max = neg_Infinity) \/ SFleb min max = true ->
  fst (widen (min, max) val) <> NaN
  /\ snd (widen (min, max) val) <> NaN
  /\ ((fst (widen (min, max) val) = Infinity /\ snd (widen (min, max) val) = neg_Infinity)
      \/ SFleb (fst (widen (min, max) val)) (snd (widen (min, max) val)) = true).
Proof.
  intros Hmin Hmax Hinv. unfold widen, gt. simpl.
  destruct (lt val min) eqn:Hlo, (lt max val) eqn:Hhi; simpl.
  - destruct (lt_not_NaN _ _ Hlo) as [Hval _].
    split; [assumption|]. split; [assumption|]. right.
    unfold SFleb. now rewrite SFcompare_refl.
  - destruct (lt_not_NaN _ _ Hlo) as [Hval _].
    split; [assumption|]. split; [assumption|]. right.
    now apply not_lt_le.
  - destruct (lt_not_NaN _ _ Hhi) as [_ Hval].
    split; [assumption|]. split; [assumption|]. right.
    now apply not_lt_le.
  - now split.
Qed.

Lemma sampled_ordered (firstSlice : SliceData) (indices : list Z) (min max : JS.number) :
  min <> NaN -> max <> NaN ->
  (min = Infinity /\ max = neg_Infinity) \/ SFleb min max = true ->
  let r :=
    fold_left
      (fun range i =>
         match JS.at_index firstSlice i with
         | Some val => widen range val
         | None => range
         end) indices (min, max) in
  fst r <> NaN /\ snd r <> NaN
  /\ ((fst r = Infinity /\ snd r = neg_Infinity) \/ SFleb (fst r) (snd r) = true).
Proof.
  revert min max. induction indices as [|i indices IH]; intros min max Hmin Hmax Hinv.
  - now split.
  - cbn [fold_left]. destruct (JS.at_index firstSlice i) as [val|]; [|now apply IH].
    destruct (widen_ordered min max val Hmin Hmax Hinv) as (Hmin' & Hmax' & Hinv').
    destruct (widen (min, max) val) as [min' max']. now apply IH.
Qed.

(** ** The scan of the first slice *)

Section Scan.

(** What holds of the two ends after the values [seen]. *)
Let scanned (seen : list JS.number) (min max : JS.number) : Prop :=
  min <> NaN /\ max <> NaN
  /\ (forall v, In v seen -> v <> NaN -> lt v min = false /\ gt v max = false)
  /\ (min = Infinity \/ In min seen)
  /\ (max = neg_Infinity \/ In max seen)
  /\ ((forall v, In v seen -> v = NaN) -> min = Infinity /\ max = neg_Infinity).

Lemma widen_scanned (seen : list JS.number) (min max val : JS.number) :
  scanned seen min max ->
  scanned (seen ++ [val]) (fst (widen (min, max) val)) (snd (widen (min, max) val)).
Proof.
  intros (Hmin & Hmax & Hbound & Hlo & Hhi & Hnone).
  assert (val = NaN \/ val <> NaN) as [->|Hval]
    by (unfold NaN; destruct val; (now left) || (right; discriminate)).
  - unfold widen, gt. rewrite lt_NaN_l, lt_NaN_r. simpl.
    split; [assumption|]. split; [assumption|]. split; [|split; [|split]].
    + intros v Hin Hv. apply in_app_or in Hin as [Hin|[<-|[]]]; [now apply Hbound|].
      now contradict Hv.
    + destruct Hlo as [Hlo|Hlo]; [now left | right; apply in_or_app; now left].
    + destruct Hhi as [Hhi|Hhi]; [now left | right; apply in_or_app; now left].
    + intros Hall. apply Hnone. intros v Hin. apply Hall, in_or_app. now left.
  - assert (In val (seen ++ [val])) as Hinval by (apply in_or_app; right; now left).
    unfold widen, gt. simpl.
    split; [now destruct (lt val min)|]. split; [now destruct (lt max val)|].
    split; [|split; [|split]].
    + intros v Hin Hv. unfold gt. apply in_app_or in Hin as [Hin|[<-|[]]].
      * destruct (Hbound v Hin Hv) as [Hvlo Hvhi]. unfold gt in Hvhi. split.
        -- destruct (lt val min) eqn:Hnew; [|assumption].
           destruct (lt v val) eqn:Hvv; [|reflexivity].
           now rewrite (lt_trans v val min) in Hvlo.
        -- destruct (lt max val) eqn:Hnew; [|assumption].
           destruct (lt val v) eqn:Hvv; [|reflexivity].
           now rewrite (lt_trans max val v) in Hvhi.
      * split.
        -- destruct (lt val min) eqn:Hnew; [apply lt_irrefl | assumption].
        -- destruct (lt max val) eqn:Hnew; [apply lt_irrefl | assumption].
    + destruct (lt val min); [now right|].
      destruct Hlo as [Hlo|Hlo]; [now left | right; apply in_or_app; now left].
    + destruct (lt max val); [now right|].
      destruct Hhi as [Hhi|Hhi]; [now left | right; apply in_or_app; now left].
    + intros Hall. now contradict Hval; apply Hall.
Qed.

Lemma fold_scanned (todo seen : list JS.number) (min max : JS.number) :
  scanned seen min max ->
  scanned (seen ++ todo) (fst (fold_left widen todo (min, max)))
          (snd (fold_left widen todo (min, max))).
Proof.
  revert seen min max. induction todo as [|val todo IH]; intros seen min max Hinv.
  - now rewrite app_nil_r.
  - cbn [fold_left]. apply (widen_scanned seen min max val) in Hinv.
    destruct (widen (min, max) val) as [min' max'].
    replace (seen ++ val :: todo) with ((seen ++ [val]) ++ todo)
      by (now rewrite <- app_assoc).
    now apply IH.
Qed.
End Scan.

(** ** Equal numbers *)

(** Numbers that are [===] compare alike with every number. *)
Lemma strict_eq_compare (a b x : JS.number) :
  strict_eq a b = true ->
  SFcompare a x = SFcompare b x /\ SFcompare x a = SFcompare x b.
Proof.
  unfold strict_eq, SFeqb.
  destruct a as [sa|sa| |sa ma ea], b as [sb|sb| |sb mb eb]; simpl;
    try discriminate; try (destruct sa; discriminate);
    try (destruct sb; discriminate); try (destruct sa, sb; discriminate).
  - intros _. now destruct x.
  - destruct sa, sb; try discriminate; intros _; now destruct x.
  - assert (ea = eb /\ ma = mb -> S754_finite sa ma ea = S754_finite sa mb eb)
      as Hsame by (intros [-> ->]; reflexivity).
    destruct sa, sb; try discriminate;
      destruct (Z.compare_spec ea eb) as [->| |]; try discriminate;
      change (Pos.compare_cont Eq ma mb) with (Pos.compare ma mb);
      destruct (Pos.compare_spec ma mb) as [->| |]; try discriminate;
      intros _; now split.
Qed.

(** Two numbers neither of which is below the other are equal. *)
Lemma not_lt_eq (x y : JS.number) :
  x <> NaN -> y <> NaN -> lt x y = false -> lt y x = false -> strict_eq x y = true.
Proof.
  intros Hx Hy Hxy Hyx. unfold lt, SFltb, strict_eq, SFeqb in *.
  rewrite (SFcompare_swap x y) in Hyx.
  destruct (SFcompare x y) as [[| |]|] eqn:Hc; simpl in *; try congruence.
  exfalso. unfold NaN in *.
  destruct x as [sx|sx| |sx mx ex], y as [sy|sy| |sy my ey]; simpl in Hc;
    congruence.
Qed.

Lemma strict_eq_trans (x y z : JS.number) :
  strict_eq x y = true -> strict_eq z y = true -> strict_eq x z = true.
Proof.
  intros Hxy Hzy. unfold strict_eq, SFeqb.
  destruct (strict_eq_compare x y z Hxy) as [-> _].
  rewrite (SFcompare_swap z y).
  unfold strict_eq, SFeqb in Hzy.
  now destruct (SFcompare z y) as [[| |]|].
Qed.

(** ** The indices the scan of [handleAddNetCdf4Layer] visits *)

Lemma In_for_range (n step i : Z) :
  0 < step ->
  In i (JS.for_range 0 n step) <-> exists k, 0 <= k /\ i = k * step /\ i < n.
Proof.
  intros Hstep. unfold JS.for_range. rewrite in_map_iff. split.
  - intros (k & <- & Hk). apply in_seq in Hk. exists (Z.of_nat k).
    split; [lia|]. split; [lia|].
    assert (Z.of_nat k < (n - 0 + step - 1) / step) as Hlt by lia.
    assert (Z.of_nat k + 1 <= (n - 0 + step - 1) / step) as Hle by lia.
    pose proof (Z.mul_div_le (n - 0 + step - 1) step Hstep).
    nia.
  - intros (k & Hk & -> & Hlt). exists (Z.to_nat k). split; [lia|].
    apply in_seq. split; [lia|]. simpl.
    assert (k < (n - 0 + step - 1) / step); [|lia].
    apply Z.div_le_lower_bound with (q := k + 1) (a := n - 0 + step - 1) in Hstep as Hdiv;
      [lia | nia].
Qed.

(** The scan folds [widen] over the values it looks at. *)
Lemma scan_values (firstSlice : SliceData) (indices : list Z)
    (range : JS.number * JS.number) :
  fold_left
    (fun range i =>
       match JS.at_index firstSlice i with
       | Some val => widen range val
       | None => range
       end) indices range
  = fold_left widen (omap (JS.at_index firstSlice) indices) range.
Proof.
  revert range. induction indices as [|i indices IH]; intros range; [reflexivity|].
  cbn [fold_left omap list_omap]. simpl.
  destruct (JS.at_index firstSlice i) as [val|]; simpl; apply IH.
Qed.

Lemma In_scanned_values (firstSlice : SliceData) (v : JS.number) :
  In v (omap (JS.at_index firstSlice)
          (JS.for_range 0 (JS.length firstSlice)
             ((JS.length firstSlice + 9999) / 10000)))
  <-> sampled firstSlice v.
Proof.
  set (n := JS.length firstSlice). set (step := (n + 9999) / 10000).
  assert (0 <= n) as Hn by (unfold n; destruct firstSlice; simpl; lia).
  rewrite <- list_elem_of_In, list_elem_of_omap. unfold sampled. fold n step.
  destruct (Z.eq_dec n 0) as [Hzero|Hpos].
  - assert (step = 0) as -> by (unfold step; rewrite Hzero; reflexivity).
    rewrite Hzero. split.
    + intros (i & Hin & _). apply list_elem_of_In in Hin. destruct Hin.
    + intros (k & _ & Hat). exfalso. rewrite Z.mul_0_r in Hat.
      pose proof (NetCDFSeries.length_Array_from firstSlice) as Hlen.
      fold n in Hlen. rewrite Hzero in Hlen.
      unfold JS.at_index in Hat.
      destruct (JS.Array_from firstSlice); [discriminate Hat | simpl in Hlen; lia].
  - assert (0 < step) as Hstep.
    { unfold step. apply Z.div_str_pos. lia. }
    split.
    + intros (i & Hin & Hat). apply list_elem_of_In, In_for_range in Hin; [|assumption].
      destruct Hin as (k & Hk & -> & _). now exists k.
    + intros (k & Hk & Hat). exists (k * step). split; [|assumption].
      apply list_elem_of_In, In_for_range; [assumption|].
      exists k. split; [assumption|]. split; [reflexivity|].
      unfold JS.at_index in Hat.
      destruct (k * step <? 0); [discriminate|].
      assert (nth_error (JS.Array_from firstSlice) (Z.to_nat (k * step)) <> None)
        as Hsome by congruence.
      apply nth_error_Some in Hsome.
      pose proof (NetCDFSeries.length_Array_from firstSlice) as Hlen.
      fold n in Hlen.
      assert (0 <= k * step) by (apply Z.mul_nonneg_nonneg; lia). lia.
Qed.

(** X18.  The range given to a new NetCDF layer is always a proper
    interval: both ends are finite and [min < max].  It is [0 .. 1] when
    [getSlice(0)] fails, when no sampled value is a number, when a sampled
    value is infinite and when all sampled values are equal.  In every other
    case its ends are the least and the greatest of the sampled values. *)
Theorem X18_netcdf_range_is_a_proper_interval
    {E : Type} (firstSlice : Result E SliceData) :
  let range := netcdf_range firstSlice in
  let default := (JS.number_of_Z 0, JS.number_of_Z 1) in
  (isFinite (fst range) = true
   /\ isFinite (snd range) = true
   /\ lt (fst range) (snd range) = true)
  /\ (forall e, firstSlice = Throw e -> range = default)
  /\ (forall slice,
        firstSlice = Return slice ->
        ((forall v, sampled slice v -> v = NaN) -> range = default)
        /\ ((exists v, sampled slice v /\ (v = Infinity \/ v = neg_Infinity)) ->
            range = default)
        /\ ((forall v w, sampled slice v -> sampled slice w ->
                         v <> NaN -> w <> NaN -> strict_eq v w = true) ->
            range = default)
        /\ ((forall v, sampled slice v -> v <> NaN -> isFinite v = true) ->
            (exists v w, sampled slice v /\ sampled slice w
                         /\ v <> NaN /\ w <> NaN /\ strict_eq v w = false) ->
            sampled slice (fst range) /\ sampled slice (snd range)
            /\ forall v, sampled slice v -> v <> NaN ->
                         lt v (fst range) = false /\ gt v (snd range) = false)).
Proof.
  intros range default.
  assert (isFinite (fst default) = true /\ isFinite (snd default) = true
          /\ lt (fst default) (snd default) = true) as Hdefault
    by (repeat split; reflexivity).
  destruct firstSlice as [e|slice].
  { split; [exact Hdefault|]. split; [reflexivity|]. intros slice [=]. }
  set (values := omap (JS.at_index slice)
                   (JS.for_range 0 (JS.length slice)
                      ((JS.length slice + 9999) / 10000))).
  pose proof (fold_scanned values [] Infinity neg_Infinity) as Hscan.
  change ([] ++ values) with values in Hscan.
  destruct Hscan as (Hmin & Hmax & Hbound & Hlo & Hhi & Hnone).
  { split; [discriminate|]. split; [discriminate|].
    split; [intros v []|]. split; [now left|]. split; [now left|]. now split. }
  assert (range
          = let '(min, max) := fold_left widen values (Infinity, neg_Infinity) in
            if negb (isFinite min) || negb (isFinite max) || strict_eq min max
            then default else (min, max)) as Hrange.
  { unfold range, netcdf_range. now rewrite scan_values. }
  destruct (fold_left widen values (Infinity, neg_Infinity)) as [min max] eqn:Hfold.
  cbn [fst snd] in *.
  assert (forall v, sampled slice v <-> In v values) as Hsampled
    by (intros v; symmetry; apply In_scanned_values).
  assert ((exists v, In v values /\ v <> NaN) -> In min values /\ In max values)
    as Hends.
  { intros (v & Hin & Hv). destruct (Hbound v Hin Hv) as [Hvlo Hvhi]. split.
    - destruct Hlo as [Hlo|Hlo]; [|exact Hlo].
      rewrite Hlo in Hvlo |- *. now rewrite <- (not_lt_Infinity v Hv Hvlo).
    - destruct Hhi as [Hhi|Hhi]; [|exact Hhi].
      rewrite Hhi in Hvhi |- *. now rewrite <- (not_gt_neg_Infinity v Hv Hvhi). }
  assert (forall v, In v values -> v = NaN \/ v <> NaN) as Hdec
    by (intros v _; unfold NaN; destruct v; (now left) || (now right)).
  split; [|split; [intros e [=]|]].
  - rewrite Hrange.
    destruct (isFinite min) eqn:Hfmin; [|exact Hdefault].
    destruct (isFinite max) eqn:Hfmax; [|exact Hdefault].
    destruct (strict_eq min max) eqn:Heq; [exact Hdefault|].
    simpl. split; [assumption|]. split; [assumption|].
    apply le_neq_lt; [|assumption].
    pose proof (sampled_ordered slice
                  (JS.for_range 0 (JS.length slice) ((JS.length slice + 9999) / 10000))
                  Infinity neg_Infinity) as Hord.
    simpl in Hord. rewrite scan_values in Hord. fold values in Hord.
    rewrite Hfold in Hord. cbn [fst snd] in Hord.
    destruct Hord as (_ & _ & [[-> _]|Hle]); try discriminate; [now left|exact Hle].
  - intros slice' [= <-]. split; [|split; [|split]].
    + intros Hall. destruct Hnone as [-> _].
      { intros v Hin. apply Hall. now apply Hsampled. }
      now rewrite Hrange.
    + intros (v & Hv & Hinf). apply Hsampled in Hv.
      assert (v <> NaN) as Hnum by (destruct Hinf as [-> | ->]; discriminate).
      destruct (Hbound v Hv Hnum) as [Hvlo Hvhi]. rewrite Hrange.
      destruct Hinf as [-> | ->].
      * unfold gt in Hvhi. rewrite (not_lt_Infinity max Hmax Hvhi).
        simpl. now rewrite orb_true_r.
      * assert (gt min neg_Infinity = false) as Hgt by exact Hvlo.
        now rewrite (not_gt_neg_Infinity min Hmin Hgt).
    + intros Hequal. rewrite Hrange.
      destruct (isFinite min) eqn:Hfmin; [|reflexivity].
      destruct (isFinite max) eqn:Hfmax; [|reflexivity]. simpl.
      assert (exists v, In v values /\ v <> NaN) as Hsome.
      { destruct Hlo as [->|Hlo]; [discriminate|]. exists min. now split. }
      destruct (Hends Hsome) as [Hinmin Hinmax].
      now rewrite (Hequal min max) by (assumption || now apply Hsampled).
    + intros Hfinite (v & w & Hv & Hw & Hvnum & Hwnum & Hdiff).
      apply Hsampled in Hv, Hw.
      destruct (Hends (ex_intro _ v (conj Hv Hvnum))) as [Hinmin Hinmax].
      assert (isFinite min = true) as Hfmin
        by (apply Hfinite; [now apply Hsampled | assumption]).
      assert (isFinite max = true) as Hfmax
        by (apply Hfinite; [now apply Hsampled | assumption]).
      assert (strict_eq min max = false) as Hne.
      { destruct (strict_eq min max) eqn:Heq; [exfalso|reflexivity].
        assert (forall u, In u values -> u <> NaN -> strict_eq u min = true) as Hall.
        { intros u Hu Hunum. destruct (Hbound u Hu Hunum) as [Hulo Huhi].
          apply not_lt_eq; try assumption.
          unfold gt, lt, SFltb in Huhi |- *.
          now destruct (strict_eq_compare min max u Heq) as [-> _]. }
        rewrite (strict_eq_trans v min w) in Hdiff; [discriminate| |]; now apply Hall. }
      rewrite Hrange, Hfmin, Hfmax, Hne. simpl.
      split; [now apply Hsampled|]. split; [now apply Hsampled|].
      intros u Hu Hunum. apply Hbound; [now apply Hsampled | assumption].
Qed.

(** X19.  The range given to a streamed NPY layer bounds the first slice:
    no value of the slice is below [min] or above [max], [NaN] apart, and both
    ends are values of the slice.  Nothing repairs a degenerate range: for a
    slice that is empty or holds [NaN] only, the range is
    [Infinity .. -Infinity]. *)
Theorem X19_npy_range_bounds_the_first_slice (firstSlice : SliceData) :
  let values := JS.Array_from firstSlice in
  let min := fst (npy_range firstSlice) in
  let max := snd (npy_range firstSlice) in
  (forall v, In v values -> v <> NaN -> lt v min = false /\ gt v max = false)
  /\ ((exists v, In v values /\ v <> NaN) -> In min values /\ In max values)
  /\ ((forall v, In v values -> v = NaN) -> min = Infinity /\ max = neg_Infinity).
Proof.
  intros values min max.
  pose proof (fold_scanned values [] Infinity neg_Infinity) as Hscan.
  change (fold_left widen values (Infinity, neg_Infinity))
    with (npy_range firstSlice) in Hscan.
  change ([] ++ values) with values in Hscan. fold min max in Hscan.
  destruct Hscan as (Hmin & Hmax & Hbound & Hlo & Hhi & Hnone).
  { split; [discriminate|]. split; [discriminate|].
    split; [intros v []|]. split; [now left|]. split; [now left|]. now split. }
  split; [exact Hbound|]. split; [|exact Hnone].
  intros (v & Hin & Hv). destruct (Hbound v Hin Hv) as [Hvlo Hvhi]. split.
  - destruct Hlo as [Hlo|Hlo]; [|exact Hlo].
    rewrite Hlo in Hvlo |- *. now rewrite <- (not_lt_Infinity v Hv Hvlo).
  - destruct Hhi as [Hhi|Hhi]; [|exact Hhi].
    rewrite Hhi in Hvhi |- *. now rewrite <- (not_gt_neg_Infinity v Hv Hvhi).
Qed.

End RangeProperties.

(* ===================================================================== *)
(** * [NpyLazyDataset.getPixelTimeSeries]: a failing read *)
(* ===================================================================== *)

Module NpySeriesFailure.
Import NpyLazyDataset NpySeries.

Section Run.
Context {E File ArrayBuffer DataType : Type} {errors : JS.Errors E}.
Context (io : Imports E File ArrayBuffer DataType) (ds : t File DataType).
Context (y x : Z) (v : Z -> option JS.number).

(** A batch with a failing read fails. *)
Lemma run_batch_fails (ts : list Z) (results : list (option JS.number)) (t0 : Z) (e : E) :
  In t0 ts -> readValue io ds y x t0 = Throw e ->
  exists e', run_batch io ds y x results ts = Throw e'.
Proof.
  unfold run_batch. revert results.
  induction ts as [|t ts IH]; intros results Hin Hfail; [destruct Hin|].
  simpl. destruct (readValue io ds y x t) as [e1|val] eqn:Hread.
  - exists e1. apply run_batch_thrown.
  - destruct Hin as [->|Hin]; [congruence|]. now apply IH.
Qed.

(** Batches whose reads all succeed are run one after the other, and the
    next batch starts from their results. *)
Lemma run_batches_app (done todo : list (list Z)) (results : list (option JS.number))
    (issued : list (list (Z * Z))) :
  (forall t, In t (concat done) -> readValue io ds y x t = Return (v t)) ->
  run_batches io ds y x (done ++ todo) results issued
  = run_batches io ds y x todo (store_all v (concat done) results)
      (issued ++ map (map (request ds y x)) done).
Proof.
  revert results issued.
  induction done as [|ts done IH]; intros results issued Hok; simpl.
  - now rewrite app_nil_r.
  - rewrite (run_batch_ok io ds y x v) by (intros t Hin; apply Hok; simpl;
      apply in_or_app; now left).
    rewrite IH by (intros t Hin; apply Hok; simpl; apply in_or_app; now right).
    unfold store_all. rewrite fold_left_app, <- app_assoc. reflexivity.
Qed.
End Run.

Lemma In_batch (time i t : Z) :
  In t (batch time i) <-> i <= t < i + batchSize /\ t < time.
Proof.
  rewrite batch_spec, in_map_iff. unfold batchSize. split.
  - intros (j & <- & Hj). apply in_seq in Hj. lia.
  - intros [Ht Htime]. exists (Z.to_nat (t - i)). split; [lia|].
    apply in_seq. lia.
Qed.

(** X20.  [getPixelTimeSeries] of a flat file of [time] steps, [time] an
    array length, stops at the first batch with a failing read.  If every
    read of the batches before batch [k] succeeds and a read of batch [k]
    fails, the call fails and the requests issued are those of the batches
    [0 .. k]: no byte is requested for a time step of a later batch. *)
Theorem X20_getPixelTimeSeries_stops_at_the_failing_batch
    {E File ArrayBuffer DataType : Type} {errors : JS.Errors E}
    (io : Imports E File ArrayBuffer DataType) (ds : NpyLazyDataset.t File DataType)
    (y x : Z) (v : Z -> option JS.number) (k : nat) (t0 : Z) (e : E) :
  (forall t, 0 <= t < 50 * Z.of_nat k -> readValue io ds y x t = Return (v t)) ->
  50 * Z.of_nat k <= t0 < 50 * Z.of_nat k + 50 ->
  t0 < time (metadata ds) < 2 ^ 32 ->
  readValue io ds y x t0 = Throw e ->
  let issued := take (S k) (batches (time (metadata ds))) in
  (exists e',
     getPixelTimeSeries io ds y x = (Throw e', map (map (request ds y x)) issued))
  /\ List.length issued = S k
  /\ forall b t, In b issued -> In t b -> 0 <= t < 50 * Z.of_nat k + 50.
Proof.
  intros Hok Hk Htime Hfail issued.
  set (T := time (metadata ds)) in *.
  set (f := fun j : nat => batch T (batchSize * Z.of_nat j)).
  set (n := Z.to_nat ((T + batchSize - 1) / batchSize)).
  assert (S k <= n)%nat as Hkn.
  { unfold n, batchSize.
    assert (Z.of_nat k + 1 <= (T + 50 - 1) / 50) by (apply Z.div_le_lower_bound; lia).
    lia. }
  assert (batches T = map f (seq 0 k) ++ f k :: map f (seq (S k) (n - S k))) as Hsplit.
  { rewrite batches_spec. fold f n.
    replace n with (k + S (n - S k))%nat at 1 by lia.
    rewrite seq_app, map_app. simpl. reflexivity. }
  assert (issued = map f (seq 0 k) ++ [f k]) as Hissued.
  { unfold issued. rewrite Hsplit.
    rewrite take_app_ge by (rewrite length_map, length_seq; lia).
    rewrite length_map, length_seq.
    replace (S k - k)%nat with 1%nat by lia. reflexivity. }
  split; [|split].
  - destruct (run_batch_fails io ds y x (f k)
                (store_all v (concat (map f (seq 0 k))) (repeat None (Z.to_nat T)))
                t0 e) as [e' Hbatch]; [|assumption|].
    { apply In_batch. unfold batchSize. lia. }
    exists e'. rewrite getPixelTimeSeries_run by (fold T; lia).
    fold T. rewrite Hsplit, Hissued.
    rewrite (run_batches_app io ds y x v).
    + rewrite (failed_batch_stops io ds y x _ _ _ _ e' Hbatch).
      simpl. now rewrite map_app.
    + intros t Hin. apply Hok. apply in_concat in Hin as (b & Hb & Ht).
      apply in_map_iff in Hb as (j & <- & Hj). apply in_seq in Hj.
      apply In_batch in Ht. unfold batchSize in Ht. lia.
  - rewrite Hissued, length_app, length_map, length_seq. simpl. lia.
  - intros b t Hb Ht. rewrite Hissued in Hb.
    apply in_app_or in Hb as [Hb|[<-|[]]].
    + apply in_map_iff in Hb as (j & <- & Hj). apply in_seq in Hj.
      apply In_batch in Ht. unfold batchSize in Ht. lia.
    + apply In_batch in Ht. unfold batchSize in Ht. lia.
Qed.


(** A run of X20: 120 time steps of one pixel, four bytes each; the file
    cannot be read from byte 240 on.  The reads of the first batch succeed,
    the read of step 60 fails, and nothing is requested for the steps
    100 .. 119 of the third batch. *)
Lemma X20_getPixelTimeSeries_stops_at_the_failing_batch_witness :
  let io : Imports unit unit Z unit :=
    {| loadNpyTimeSlice := fun _ _ _ => Throw tt;
       readFileRange := fun _ offset _ => if offset <? 240 then Return offset else Throw tt;
       createTypedArray := fun buffer _ => Return (JS.Int32Array [buffer]) |} in
  let ds : NpyLazyDataset.t unit unit :=
    {| file := tt; metadata := mkMetadata 120 1 1 0 4 tt; fileId := "p.npy" |} in
  let issued := take 2 (batches 120) in
  (exists e',
     getPixelTimeSeries io ds 0 0 = (Throw e', map (map (request ds 0 0)) issued))
  /\ List.length issued = 2%nat
  /\ forall b t, In b issued -> In t b -> 0 <= t < 50 * Z.of_nat 1 + 50.
Proof.
  intros io ds issued.
  apply (X20_getPixelTimeSeries_stops_at_the_failing_batch io ds 0 0
           (fun t => Some (JS.number_of_Z (4 * t))) 1 60 tt).
  - intros t Ht. unfold readValue, pixel_offset. simpl.
    replace (0 + t * 1 * 1 * 4 + 0 * 1 * 4 + 0 * 4) with (4 * t) by lia.
    destruct (4 * t <? 240) eqn:Hlt; [reflexivity|].
    apply Z.ltb_ge in Hlt. lia.
  - lia.
  - simpl. lia.
  - reflexivity.
Defined.

End NpySeriesFailure.

(* ===================================================================== *)
(** * Pixel coordinates *)
(* ===================================================================== *)

Module PixelCoordinates.

(** The reads of [NpyLazyDataset.getPixelTimeSeries] depend on the pixel
    through the byte offsets alone. *)
Section SameOffsets.
Context {E File ArrayBuffer DataType : Type} {errors : JS.Errors E}.
Context (io : NpyLazyDataset.Imports E File ArrayBuffer DataType).
Context (ds : NpyLazyDataset.t File DataType) (y x y' x' : Z).
Hypothesis Hsame :
  forall t, NpyLazyDataset.pixel_offset (NpyLazyDataset.metadata ds) y x t
            = NpyLazyDataset.pixel_offset (NpyLazyDataset.metadata ds) y' x' t.

Lemma readValue_same (t : Z) :
  NpyLazyDataset.readValue io ds y x t = NpyLazyDataset.readValue io ds y' x' t.
Proof. unfold NpyLazyDataset.readValue. now rewrite Hsame. Qed.

Lemma run_batch_same (ts : list Z) (acc : Result E (list (option JS.number))) :
  fold_left
    (fun acc t =>
       match acc with
       | Throw e => Throw e
       | Return results =>
           match NpyLazyDataset.readValue io ds y x t with
           | Throw e => Throw e
           | Return val => Return (<[Z.to_nat t := val]> results)
           end
       end) ts acc
  = fold_left
      (fun acc t =>
         match acc with
         | Throw e => Throw e
         | Return results =>
             match NpyLazyDataset.readValue io ds y' x' t with
             | Throw e => Throw e
             | Return val => Return (<[Z.to_nat t := val]> results)
             end
         end) ts acc.
Proof.
  revert acc. induction ts as [|t ts IH]; intros acc; simpl; [reflexivity|].
  now rewrite readValue_same, IH.
Qed.

Lemma run_batches_same (todo : list (list Z)) (results : list (option JS.number))
    (issued : list (list (Z * Z))) :
  NpyLazyDataset.run_batches io ds y x todo results issued
  = NpyLazyDataset.run_batches io ds y' x' todo results issued.
Proof.
  revert results issued. induction todo as [|ts todo IH]; intros results issued; simpl;
    [reflexivity|].
  unfold NpyLazyDataset.run_batch. rewrite run_batch_same.
  assert (map (NpyLazyDataset.request ds y x) ts
          = map (NpyLazyDataset.request ds y' x') ts) as ->.
  { apply map_ext. intros t. unfold NpyLazyDataset.request. now rewrite Hsame. }
  destruct (fold_left _ ts (Return results)); [reflexivity | apply IH].
Qed.
End SameOffsets.


End PixelCoordinates.

(* ===================================================================== *)
(** * What [clearForFile] removes *)
(* ===================================================================== *)

Module ClearProperties.
Import SliceCache JSMap JSMapFacts KeyFacts SliceCacheFacts.

(** A string without a colon starts with no string that ends in one. *)
Lemma prefix_colon_free (g s : string) :
  colon_free s = true -> String.prefix (g ++ ":") s = false.
Proof.
  revert s. induction g as [|a g IH]; intros [|b s] Hs; norm_append;
    try reflexivity; rewrite prefix_cons.
  - apply colon_free_cons in Hs as [Hb _].
    destruct (ascii_dec ":" b); [congruence | reflexivity].
  - apply colon_free_cons in Hs as [_ Hs].
    destruct (ascii_dec a b); [now apply IH | reflexivity].
Qed.

(** The keys that start with [f] and a colon are those of [f] and those of
    the files whose own name starts with [f] and a colon. *)
Lemma prefix_key (f f' s : string) :
  colon_free s = true ->
  String.prefix (f ++ ":") (f' ++ ":" ++ s)
  = String.eqb f' f || String.prefix (f ++ ":") f'.
Proof.
  intros Hs. revert f'. induction f as [|a f IH]; intros [|a' f']; norm_append.
  - rewrite prefix_cons. destruct (ascii_dec ":" ":"); [apply prefix_nil | congruence].
  - rewrite !prefix_cons. change (String a' f' =? "")%string with false.
    destruct (ascii_dec ":" a'); [now rewrite !prefix_nil | reflexivity].
  - rewrite prefix_cons.
    change (("" =? String a f)%string || String.prefix (String a (f ++ ":")) "")
      with false.
    destruct (ascii_dec a ":"); [now apply prefix_colon_free | reflexivity].
  - rewrite !prefix_cons.
    change (String a' f' =? String a f)%string
      with (if Ascii.eqb a' a then (f' =? f)%string else false).
    destruct (ascii_dec a a') as [<-|Hne].
    + rewrite Ascii.eqb_refl. apply IH.
    + assert (Ascii.eqb a' a = false) as -> by (apply Ascii.eqb_neq; congruence).
      reflexivity.
Qed.

(** X23.  What [clearForFile(f)] removes, exactly: the entries of [f] and
    the entries of every file whose name starts with [f] followed by a colon.
    Every other entry stays, with its slice and its timestamp. *)
Theorem X23_clearForFile_removes_exactly (f f' : string) (i : Z) (c : SliceCache.t) :
  wf c ->
  peek f' i (clearForFile f c)
  = if String.eqb f' f || String.prefix (f ++ ":") f' then None else peek f' i c.
Proof.
  intros Hwf. rewrite CacheTheorems.clearForFile_peek by assumption.
  unfold key_of_file, getKey. now rewrite prefix_key by apply pretty_Z_colon_free.
Qed.

(** A run of X23: files ["a"], ["a:b"] and ["b"]; clearing ["a"] leaves
    the slice of ["b"] alone. *)
Lemma X23_clearForFile_removes_exactly_witness :
  let c :=
    SliceCache.set "b" 0 (JS.Uint8Array [3]) 3
      (SliceCache.set "a:b" 0 (JS.Uint8Array [2]) 2
         (SliceCache.set "a" 0 (JS.Uint8Array [1]) 1 SliceCache.empty)) in
  peek "a" 0 (clearForFile "a" c) = None
  /\ peek "a:b" 0 (clearForFile "a" c) = None
  /\ peek "b" 0 (clearForFile "a" c)
     = Some {| data := JS.Uint8Array [3]; lastAccess := 3 |}.
Proof.
  intros c.
  assert (wf c) as Hwf by (unfold c; apply set_wf, set_wf, set_wf, wf_empty).
  split; [|split].
  - now rewrite (X23_clearForFile_removes_exactly "a" "a" 0 c Hwf).
  - now rewrite (X23_clearForFile_removes_exactly "a" "a:b" 0 c Hwf).
  - now rewrite (X23_clearForFile_removes_exactly "a" "b" 0 c Hwf).
Defined.

End ClearProperties.

(* ===================================================================== *)
(** * The outcomes of [NetCDFLazyDataset.getPixelTimeSeries] *)
(* ===================================================================== *)

Module NetCDFSeriesOutcomes.
Import NetCDFLazyDataset NetCDFSeries.

(** X24.  [NetCDFLazyDataset.getPixelTimeSeries] on a variable of [time]
    steps, [time] an array length, and with a reader whose buffers hold fewer
    than [2^32] elements: it fails exactly when the reader fails, with the
    reader's error.  When the reader returns one value per time step, these
    values are the result, in order, whatever the pixel and the shape.  The
    result has [time] entries when the reader returned [time] or
    [time * height * width] values, and otherwise as many entries as the
    reader returned. *)
Theorem X24_getPixelTimeSeries_outcomes
    {E : Type} (ds : NetCDFLazyDataset.t E) (time height width y x : Z) :
  shape ds = (time, height, width) -> 0 <= time < 2 ^ 32 ->
  (forall rawData,
     slice ds [0; y; x] [time; 1; 1] = Return rawData ->
     JS.Raw.length rawData < 2 ^ 32) ->
  (forall e,
     getPixelTimeSeries ds y x = Throw e <-> slice ds [0; y; x] [time; 1; 1] = Throw e)
  /\ (forall rawData,
        slice ds [0; y; x] [time; 1; 1] = Return rawData ->
        (JS.Raw.length rawData = time ->
         getPixelTimeSeries ds y x = Return (map Some (JS.Raw.Array_from rawData)))
        /\ exists result,
             getPixelTimeSeries ds y x = Return result
             /\ Z.of_nat (List.length result)
                = if (JS.Raw.length rawData =? time)
                     || (JS.Raw.length rawData =? time * (height * width))
                  then time else JS.Raw.length rawData).
Proof.
  intros Hshape Htime _. unfold getPixelTimeSeries. rewrite Hshape. split.
  - intros e. destruct (slice ds [0; y; x] [time; 1; 1]) as [e'|rawData].
    + split; congruence.
    + split; [|discriminate].
      destruct (JS.Raw.length rawData =? time); [discriminate|].
      destruct (JS.Raw.length rawData =? time * (height * width)); discriminate.
  - intros rawData ->. split.
    + intros Hlen. apply Z.eqb_eq in Hlen. now rewrite Hlen.
    + destruct (JS.Raw.length rawData =? time) eqn:Hlen; simpl.
      * eexists. split; [reflexivity|].
        rewrite length_map, length_raw_Array_from. now apply Z.eqb_eq.
      * destruct (JS.Raw.length rawData =? time * (height * width)) eqn:Hwhole.
        -- eexists. split; [reflexivity|].
           rewrite strided_spec, length_map, length_seq. lia.
        -- eexists. split; [reflexivity|].
           now rewrite length_map, length_raw_Array_from.
Qed.

(** X24 at work: a reader that honours the request. *)
Lemma X24_getPixelTimeSeries_outcomes_witness :
  let ds : NetCDFLazyDataset.t unit :=
    {| filename := "s.nc"; dataVarName := "elevation"; shape := (3, 2, 2);
       slice := fun _ _ => Return (JS.Numbers (JS.Int32Array [4; 5; 6])) |} in
  getPixelTimeSeries ds 1 1
  = Return [Some (JS.Number (JS.number_of_Z 4)); Some (JS.Number (JS.number_of_Z 5));
            Some (JS.Number (JS.number_of_Z 6))].
Proof.
  intros ds.
  destruct (X24_getPixelTimeSeries_outcomes ds 3 2 2 1 1) as [_ Hreturn];
    [reflexivity | lia | intros rawData [= <-]; simpl; lia |].
  destruct (Hreturn (JS.Numbers (JS.Int32Array [4; 5; 6]))) as [Hexact _]; [reflexivity|].
  now rewrite Hexact.
Defined.

End NetCDFSeriesOutcomes.

(* ===================================================================== *)
(** * A small NPY file, read whole *)
(* ===================================================================== *)

Module TraditionalProperties.
Import Traditional.

(** A counting loop keeps what each round keeps. *)
Lemma count_loop {St : Type} (P : Z -> St -> Prop) (body : St -> Z -> St) (n : Z) (s0 : St) :
  0 <= n -> P 0 s0 ->
  (forall i s, 0 <= i < n -> P i s -> P (i + 1) (body s i)) ->
  P n (fold_left body (JS.for_range 0 n 1) s0).
Proof.
  intros Hn H0 Hstep. rewrite NetCDFSeries.unit_range.
  assert (forall k : nat, (k <= Z.to_nat n)%nat ->
            P (Z.of_nat k)
              (fold_left body (map (fun k => 0 + 1 * Z.of_nat k) (seq 0 k)) s0)) as Hk.
  { induction k as [|k IH]; intros Hle; [exact H0|].
    rewrite seq_S, map_app, fold_left_app. simpl.
    replace (Z.of_nat (S k)) with (Z.of_nat k + 1) by lia.
    replace (0 + 1 * Z.of_nat k) with (Z.of_nat k) by lia.
    apply Hstep; [lia | apply IH; lia]. }
  specialize (Hk (Z.to_nat n) (le_n _)). now rewrite Z2Nat.id in Hk.
Qed.

Lemma lookup_In {X : Type} (l : list X) (i : nat) (v : X) :
  l !! i = Some v -> In v l.
Proof. intros H. apply list_elem_of_In. now apply list_elem_of_lookup_2 in H. Qed.

Lemma In_lookup {X : Type} (l : list X) (v : X) :
  In v l -> exists i, l !! i = Some v.
Proof. intros H. now apply list_elem_of_In, list_elem_of_lookup_1 in H. Qed.

Lemma lookup_repeat_Some {X : Type} (x v : X) (n i : nat) :
  repeat x n !! i = Some v -> v = x.
Proof. intros H. now apply lookup_In, repeat_spec in H. Qed.

Section Shape.
Variables time height width : Z.

(** The arrays have the lengths they were created with. *)
Let shaped (dataset : DataSet) : Prop :=
  List.length dataset = Z.to_nat time
  /\ Forall (fun slice =>
               List.length slice = Z.to_nat height
               /\ Forall (fun row => List.length row = Z.to_nat width) slice) dataset.

Lemma new_DataSet_shaped : shaped (new_DataSet time height width).
Proof.
  unfold shaped, new_DataSet. split; [apply repeat_length|].
  apply List.Forall_forall. intros slice Hin. apply repeat_spec in Hin as ->.
  split; [apply repeat_length|].
  apply List.Forall_forall. intros row Hin. apply repeat_spec in Hin as ->.
  apply repeat_length.
Qed.

Lemma new_DataSet_cell (t y x : Z) : cell (new_DataSet time height width) t y x = None.
Proof.
  unfold cell, cell_of_slice, new_DataSet.
  repeat case_match; try reflexivity.
  repeat match goal with
         | H : repeat _ _ !! _ = Some _ |- _ => apply lookup_repeat_Some in H; subst
         end.
  reflexivity.
Qed.

Lemma store_shaped (dataset : DataSet) (t y x : Z) (v : option JS.number) :
  shaped dataset -> shaped (store dataset t y x v).
Proof.
  intros [Hlen Hall]. unfold store. split; [now rewrite length_alter|].
  apply List.Forall_forall. intros slice Hin.
  rewrite List.Forall_forall in Hall.
  apply In_lookup in Hin as [i Hi].
  destruct (decide (i = Z.to_nat t)) as [->|Hne].
  - rewrite list_lookup_alter_eq in Hi.
    destruct (dataset !! Z.to_nat t) as [slice0|] eqn:Hslice0; [|discriminate].
    injection Hi as <-.
    destruct (Hall slice0 (lookup_In _ _ _ Hslice0)) as [Hh Hrows].
    split; [now rewrite length_alter|].
    apply List.Forall_forall. intros row Hin.
    rewrite List.Forall_forall in Hrows.
    apply In_lookup in Hin as [j Hj].
    destruct (decide (j = Z.to_nat y)) as [->|Hne].
    + rewrite list_lookup_alter_eq in Hj.
      destruct (slice0 !! Z.to_nat y) as [row0|] eqn:Hrow0; [|discriminate].
      injection Hj as <-. rewrite length_insert.
      exact (Hrows row0 (lookup_In _ _ _ Hrow0)).
    + rewrite list_lookup_alter_ne in Hj by congruence.
      exact (Hrows row (lookup_In _ _ _ Hj)).
  - rewrite list_lookup_alter_ne in Hi by congruence.
    exact (Hall slice (lookup_In _ _ _ Hi)).
Qed.

(** A store changes the cell it names and no other. *)
Lemma store_cell (dataset : DataSet) (t y x t' y' x' : Z) (v : option JS.number) :
  shaped dataset ->
  0 <= t < time -> 0 <= y < height -> 0 <= x < width ->
  0 <= t' -> 0 <= y' -> 0 <= x' ->
  cell (store dataset t y x v) t' y' x'
  = if (t =? t') && (y =? y') && (x =? x') then v else cell dataset t' y' x'.
Proof.
  intros [Hlen Hall] Ht Hy Hx Ht' Hy' Hx'. rewrite List.Forall_forall in Hall.
  unfold cell, cell_of_slice, store.
  assert ((t' <? 0) = false) as -> by now apply Z.ltb_ge.
  assert ((y' <? 0) = false) as -> by now apply Z.ltb_ge.
  assert ((x' <? 0) = false) as -> by now apply Z.ltb_ge.
  simpl.
  destruct (dataset !! Z.to_nat t) as [slice|] eqn:Hslice;
    [|apply lookup_ge_None in Hslice; lia].
  destruct (Hall slice (lookup_In _ _ _ Hslice)) as [Hh Hrows].
  rewrite List.Forall_forall in Hrows.
  destruct (slice !! Z.to_nat y) as [row|] eqn:Hrow;
    [|apply lookup_ge_None in Hrow; lia].
  pose proof (Hrows row (lookup_In _ _ _ Hrow)) as Hw.
  destruct (t =? t') eqn:Htt.
  - apply Z.eqb_eq in Htt. subst t'. rewrite list_lookup_alter_eq, Hslice. simpl.
    destruct (y =? y') eqn:Hyy.
    + apply Z.eqb_eq in Hyy. subst y'. rewrite list_lookup_alter_eq, Hrow. simpl.
      destruct (x =? x') eqn:Hxx.
      * apply Z.eqb_eq in Hxx. subst x'.
        now rewrite list_lookup_insert_eq by lia.
      * apply Z.eqb_neq in Hxx. now rewrite list_lookup_insert_ne by lia.
    + apply Z.eqb_neq in Hyy. simpl.
      now rewrite list_lookup_alter_ne by lia.
  - apply Z.eqb_neq in Htt. simpl. now rewrite list_lookup_alter_ne by lia.
Qed.

(** ** Three nested counting loops

    [a], [b], [c] are the counters from the outer loop to the inner one,
    with bounds [A], [B], [C]; the cell written in a round is
    [(tt a b c, yy a b c, xx a b c)]. *)
Section Loops.
Variables (float32Array : JS.TypedArray) (A B C : Z).
Variables tt yy xx : Z -> Z -> Z -> Z.
Hypothesis in_range :
  forall a b c, 0 <= a < A -> 0 <= b < B -> 0 <= c < C ->
    0 <= tt a b c < time /\ 0 <= yy a b c < height /\ 0 <= xx a b c < width.
Hypothesis one_to_one :
  forall a b c a' b' c',
    tt a b c = tt a' b' c' -> yy a b c = yy a' b' c' -> xx a b c = xx a' b' c' ->
    a = a' /\ b = b' /\ c = c'.

(** After [n] rounds the first [n] values are in place. *)
Let filled (n : Z) (st : DataSet * Z) : Prop :=
  shaped (fst st) /\ snd st = n
  /\ forall a b c, 0 <= a < A -> 0 <= b < B -> 0 <= c < C ->
       cell (fst st) (tt a b c) (yy a b c) (xx a b c)
       = if (a * B + b) * C + c <? n
         then JS.at_index float32Array ((a * B + b) * C + c) else None.

Lemma copy_next_filled (a b c : Z) (st : DataSet * Z) :
  0 <= a < A -> 0 <= b < B -> 0 <= c < C ->
  filled ((a * B + b) * C + c) st ->
  filled ((a * B + b) * C + c + 1)
         (copy_next float32Array (tt a b c) (yy a b c) (xx a b c) st).
Proof.
  intros Ha Hb Hc (Hshape & Hindex & Hcells). destruct st as [dataset flatIndex].
  cbn [fst snd] in *. subst flatIndex. unfold copy_next.
  destruct (in_range a b c Ha Hb Hc) as (Ht & Hy & Hx).
  split; [now apply store_shaped|]. split; [reflexivity|].
  cbn [fst snd]. intros a' b' c' Ha' Hb' Hc'.
  destruct (in_range a' b' c' Ha' Hb' Hc') as (Ht' & Hy' & Hx').
  rewrite store_cell by (assumption || lia).
  destruct ((tt a b c =? tt a' b' c') && (yy a b c =? yy a' b' c')
            && (xx a b c =? xx a' b' c')) eqn:Hsame.
  - apply andb_true_iff in Hsame as [Hsame Hxx].
    apply andb_true_iff in Hsame as [Htt Hyy].
    apply Z.eqb_eq in Htt, Hyy, Hxx.
    destruct (one_to_one a b c a' b' c' Htt Hyy Hxx) as (<- & <- & <-).
    now rewrite (proj2 (Z.ltb_lt _ _)) by lia.
  - rewrite Hcells by assumption.
    assert ((a' * B + b') * C + c' <> (a * B + b) * C + c) as Hne.
    { intros Heq.
      destruct (Z.div_mod_unique C (a' * B + b') (a * B + b) c' c) as [Hab ->];
        [lia | lia | lia |].
      destruct (Z.div_mod_unique B a' a b' b) as [-> ->]; [lia | lia | lia |].
      now rewrite !Z.eqb_refl in Hsame. }
    destruct ((a' * B + b') * C + c' <? (a * B + b) * C + c) eqn:Hlt.
    + apply Z.ltb_lt in Hlt. now rewrite (proj2 (Z.ltb_lt _ _)) by lia.
    + apply Z.ltb_ge in Hlt. now rewrite (proj2 (Z.ltb_ge _ _)) by lia.
Qed.

Lemma loops_filled :
  0 <= A -> 0 <= B -> 0 <= C ->
  filled (A * B * C)
    (fold_left
       (fun st a =>
          fold_left
            (fun st b =>
               fold_left
                 (fun st c =>
                    copy_next float32Array (tt a b c) (yy a b c) (xx a b c) st)
                 (JS.for_range 0 C 1) st)
            (JS.for_range 0 B 1) st)
       (JS.for_range 0 A 1) (new_DataSet time height width, 0)).
Proof.
  intros HA HB HC.
  apply (count_loop (fun a st => filled (a * B * C) st)); [assumption| |].
  - split; [apply new_DataSet_shaped|]. split; [reflexivity|].
    intros a b c Ha Hb Hc. cbn [fst snd]. rewrite new_DataSet_cell.
    assert (0 <= a * B) by (apply Z.mul_nonneg_nonneg; lia).
    assert (0 <= (a * B + b) * C) by (apply Z.mul_nonneg_nonneg; lia).
    now rewrite (proj2 (Z.ltb_ge _ _)) by lia.
  - intros a st Ha Hfilled.
    replace ((a + 1) * B * C) with ((a * B + B) * C) by lia.
    apply (count_loop (fun b st => filled ((a * B + b) * C) st)); [assumption| |].
    + now replace ((a * B + 0) * C) with (a * B * C) by lia.
    + intros b st' Hb Hfilled'.
      replace ((a * B + (b + 1)) * C) with ((a * B + b) * C + C) by lia.
      apply (count_loop (fun c st => filled ((a * B + b) * C + c) st)); [assumption| |].
      * now rewrite Z.add_0_r.
      * intros c st'' Hc Hfilled''.
        replace ((a * B + b) * C + (c + 1)) with ((a * B + b) * C + c + 1) by lia.
        now apply copy_next_filled.
Qed.

Lemma loops_cell (a b c : Z) :
  0 <= a < A -> 0 <= b < B -> 0 <= c < C ->
  cell
    (fst
       (fold_left
          (fun st a =>
             fold_left
               (fun st b =>
                  fold_left
                    (fun st c =>
                       copy_next float32Array (tt a b c) (yy a b c) (xx a b c) st)
                    (JS.for_range 0 C 1) st)
               (JS.for_range 0 B 1) st)
          (JS.for_range 0 A 1) (new_DataSet time height width, 0)))
    (tt a b c) (yy a b c) (xx a b c)
  = JS.at_index float32Array ((a * B + b) * C + c).
Proof.
  intros Ha Hb Hc.
  destruct loops_filled as (_ & _ & Hcells); try lia.
  rewrite Hcells by assumption.
  assert (a * B <= (A - 1) * B) by (apply Z.mul_le_mono_nonneg_r; lia).
  assert ((a * B + b) * C <= (A * B - 1) * C) by (apply Z.mul_le_mono_nonneg_r; lia).
  now rewrite (proj2 (Z.ltb_lt _ _)) by lia.
Qed.
End Loops.
End Shape.

(** The series of a pixel reads the cell of every slice, in order. *)
Lemma series_cells (dataset : DataSet) (y x : Z) :
  series dataset y x
  = map (fun t => match cell dataset t y x with
                  | Some v => v
                  | None => JS.number_of_Z 0
                  end)
        (JS.for_range 0 (Z.of_nat (List.length dataset)) 1).
Proof.
  rewrite NetCDFSeries.unit_range, Nat2Z.id, map_map. unfold series.
  induction dataset as [|slice dataset IH] using rev_ind; [reflexivity|].
  rewrite map_app, length_app, Nat.add_comm. cbn [List.length Nat.add map].
  rewrite seq_S, map_app. cbn [map Nat.add]. f_equal.
  - rewrite IH. apply map_ext_in. intros k Hk. apply in_seq in Hk.
    unfold cell. replace (0 + 1 * Z.of_nat k) with (Z.of_nat k) by lia.
    rewrite (proj2 (Z.ltb_ge _ _)) by lia. rewrite Nat2Z.id.
    now rewrite lookup_app_l by lia.
  - unfold cell. replace (0 + 1 * Z.of_nat (List.length dataset))
      with (Z.of_nat (List.length dataset)) by lia.
    rewrite (proj2 (Z.ltb_ge _ _)) by lia. rewrite Nat2Z.id.
    rewrite lookup_app_r by lia. now rewrite Nat.sub_diag.
Qed.

(** X25.  The traditional loader puts every value of the file where its
    order says: with [[height, width, time] = shape], cell
    [dataset[t][y][x]] holds the flat element [(y * width + x) * time + t] of a
    file in C order, and the flat element [(t * width + x) * height + y] of a
    file in Fortran order. *)
Theorem X25_traditional_loader_unflattens
    (fortran_order : bool) (float32Array : JS.TypedArray)
    (height width time t y x : Z) :
  0 <= t < time -> 0 <= y < height -> 0 <= x < width -> width < 2 ^ 32 ->
  cell (unflatten fortran_order float32Array height width time) t y x
  = JS.at_index float32Array
      (if fortran_order then (t * width + x) * height + y
       else (y * width + x) * time + t).
Proof.
  intros Ht Hy Hx _. unfold unflatten. destruct fortran_order.
  - apply (loops_cell time height width float32Array time width height
             (fun t x y => t) (fun t x y => y) (fun t x y => x)); try assumption.
    + intros; lia.
    + intros; lia.
  - apply (loops_cell time height width float32Array height width time
             (fun y x t => t) (fun y x t => y) (fun y x t => x)); try assumption.
    + intros; lia.
    + intros; lia.
Qed.

(** X25 at work: a file in C order of 2 rows, 1 column and 2 times. *)
Lemma X25_traditional_loader_unflattens_witness :
  cell (unflatten false (JS.Float32Array (map JS.number_of_Z [10; 11; 20; 21])) 2 1 2) 1 1 0
  = JS.at_index (JS.Float32Array (map JS.number_of_Z [10; 11; 20; 21])) ((1 * 1 + 0) * 2 + 1).
Proof.
  apply (X25_traditional_loader_unflattens false
           (JS.Float32Array (map JS.number_of_Z [10; 11; 20; 21])) 2 1 2 1 1 0); lia.
Defined.

(** X26.  The time series plotted for a pixel [(y, x)] of a file loaded by
    the traditional path is the pixel's run of the file, one value for each
    time: the elements [(y * width + x) * time + t] of a file in C order, the
    elements [(t * width + x) * height + y] of a file in Fortran order, and
    [0] where the file is too short to hold the element. *)
Theorem X26_series_of_a_loaded_file
    (fortran_order : bool) (float32Array : JS.TypedArray)
    (height width time y x : Z) :
  0 <= time -> 0 <= y < height -> 0 <= x < width -> width < 2 ^ 32 ->
  series (unflatten fortran_order float32Array height width time) y x
  = map (fun t =>
           match JS.at_index float32Array
                   (if fortran_order then (t * width + x) * height + y
                    else (y * width + x) * time + t) with
           | Some v => v
           | None => JS.number_of_Z 0
           end)
        (JS.for_range 0 time 1).
Proof.
  intros Htime Hy Hx _. rewrite series_cells.
  assert (List.length (unflatten fortran_order float32Array height width time)
          = Z.to_nat time) as ->.
  { unfold unflatten. destruct fortran_order.
    - destruct (loops_filled time height width float32Array time width height
                  (fun t x y => t) (fun t x y => y) (fun t x y => x))
        as ((Hlen & _) & _); [intros; lia | intros; lia | lia..| exact Hlen].
    - destruct (loops_filled time height width float32Array height width time
                  (fun y x t => t) (fun y x t => y) (fun y x t => x))
        as ((Hlen & _) & _); [intros; lia | intros; lia | lia..| exact Hlen]. }
  rewrite Z2Nat.id by assumption.
  apply map_ext_in. intros t Ht.
  rewrite NetCDFSeries.unit_range in Ht. apply in_map_iff in Ht as (k & <- & Hk).
  apply in_seq in Hk.
  assert (0 <= 0 + 1 * Z.of_nat k < time) as Ht by lia.
  generalize dependent (0 + 1 * Z.of_nat k). intros t Ht.
  enough (cell (unflatten fortran_order float32Array height width time) t y x
          = JS.at_index float32Array
              (if fortran_order then (t * width + x) * height + y
               else (y * width + x) * time + t)) as -> by reflexivity.
  unfold unflatten. destruct fortran_order.
  - apply (loops_cell time height width float32Array time width height
             (fun t x y => t) (fun t x y => y) (fun t x y => x)); try assumption.
    + intros; lia.
    + intros; lia.
  - apply (loops_cell time height width float32Array height width time
             (fun y x t => t) (fun y x t => y) (fun y x t => x)); try assumption.
    + intros; lia.
    + intros; lia.
Qed.

(** X26 at work: the same file, the pixel of its second row. *)
Lemma X26_series_of_a_loaded_file_witness :
  series (unflatten false (JS.Float32Array (map JS.number_of_Z [10; 11; 20; 21])) 2 1 2) 1 0
  = map (fun t =>
           match JS.at_index (JS.Float32Array (map JS.number_of_Z [10; 11; 20; 21]))
                   ((1 * 1 + 0) * 2 + t) with
           | Some v => v
           | None => JS.number_of_Z 0
           end)
        (JS.for_range 0 2 1).
Proof.
  apply (X26_series_of_a_loaded_file false
           (JS.Float32Array (map JS.number_of_Z [10; 11; 20; 21])) 2 1 2 1 0); lia.
Defined.

End TraditionalProperties.
